(** * slottify: the template engine (tokenizer, parser, evaluator, cache)

    A shallow embedding of [src/core/template-parser.ts] and
    [src/core/template-engine.ts], followed by the properties of the
    engine that its specification states.

    Conventions of the embedding.
    - A JavaScript string is a [string]: a sequence of 8-bit code units.
    - The scanning index [i] of the tokenizer and the cursor [current] of
      the parser are represented by the part of the input that is still to
      be read ([input.slice(i)], [tokens.slice(current)]).
    - A function that can throw returns an outcome, [Ok] or [Throw].  The
      parser throws nothing but [new Error(msg)], and returns a [result],
      whose [Throw] carries the message.  The evaluator calls filters and
      members of [Object.prototype], which can throw anything, and returns
      a [completion], whose [Throw] carries what was thrown; there
      [Throw msg] stands for [Throw (Error msg)].
    - A [while] loop whose termination is not structural takes a [fuel]
      argument and returns [None] when it is exhausted; each such loop comes
      with a lemma giving an amount of fuel that is always enough.
    - The objects used as dictionaries ([filters], the rendering context)
      are plain objects: a finite map holds the properties of the object
      itself, and a lookup by name that finds none of these goes on to the
      members of [Object.prototype].  The [Map] [astCache] is a finite
      map, whose lookup sees its entries and nothing else. *)

From Stdlib Require Import ZArith Ascii String DecimalString DecimalFacts DecimalPos.
From stdpp Require Import base option list strings gmap.

Local Open Scope string_scope.

(** ** Tokens ([types/token-types.ts]) *)

Inductive TokenType :=
| OPEN_TEMPLATE
| CLOSE_TEMPLATE
| PIPE
| QUESTION
| COLON
| OR
| STRING
| IDENTIFIER
| TEXT.

Record Token := mkToken { type : TokenType; value : string }.

#[global] Instance TokenType_eq_dec : EqDecision TokenType.
Proof. solve_decision. Defined.

(** The name of a token type, as it is interpolated in error messages. *)
Definition TokenType_name (t : TokenType) : string :=
  match t with
  | OPEN_TEMPLATE => "OPEN_TEMPLATE"
  | CLOSE_TEMPLATE => "CLOSE_TEMPLATE"
  | PIPE => "PIPE"
  | QUESTION => "QUESTION"
  | COLON => "COLON"
  | OR => "OR"
  | STRING => "STRING"
  | IDENTIFIER => "IDENTIFIER"
  | TEXT => "TEXT"
  end.

(** ** Character classes of the tokenizer's regular expressions *)

Definition code (c : ascii) : nat := nat_of_ascii c.

Definition between (lo hi : nat) (c : ascii) : bool :=
  (lo <=? code c)%nat && (code c <=? hi)%nat.

(** [/\s/]: tab, line feed, vertical tab, form feed, carriage return, space
    and, in the 8-bit range, the no-break space. *)
Definition is_space (c : ascii) : bool :=
  between 9 13 c || (code c =? 32)%nat || (code c =? 160)%nat.

(** [/[a-zA-Z_]/] *)
Definition is_ident_start (c : ascii) : bool :=
  between 97 122 c || between 65 90 c || (code c =? 95)%nat.

(** [/\w/], that is [[A-Za-z0-9_]] *)
Definition is_word (c : ascii) : bool :=
  is_ident_start c || between 48 57 c.

(** The double quote, character 34. *)
Definition doubleQuote : ascii := "034"%char.

Definition is_quote (c : ascii) : bool :=
  Ascii.eqb c "'" || Ascii.eqb c doubleQuote.

(** [input.slice(i, i + 2) === '{{'] and [=== '}}'] *)
Definition at_open (input : string) : bool :=
  match input with
  | String "{" (String "{" _) => true
  | _ => false
  end.

Definition at_close (input : string) : bool :=
  match input with
  | String "}" (String "}" _) => true
  | _ => false
  end.

(** [i += 2] *)
Definition skip2 (input : string) : string :=
  match input with
  | String _ (String _ rest) => rest
  | _ => ""
  end.

(** [str += c] *)
Definition push_char (str : string) (c : ascii) : string :=
  str ++ String c "".

(** ** The tokenizer ([TemplateParser.tokenize]) *)

(** The body of a string literal, after its opening quote: the loop
    [while (i < length && input[i] !== quote)].  A backslash drops itself
    and keeps the next character, when there is one.  Returns the collected
    text and the input from the closing quote on (empty when the literal is
    not terminated). *)
Fixpoint readString (quote : ascii) (str input : string) : string * string :=
  match input with
  | "" => (str, "")
  | String c rest =>
      if Ascii.eqb c quote then (str, input)
      else if Ascii.eqb c "\" then
        match rest with
        | "" => (str, "")
        | String d rest' => readString quote (push_char str d) rest'
        end
      else readString quote (push_char str c) rest
  end.

(** [if (i < this.input.length) i++]: step over the closing quote. *)
Definition skipClosingQuote (input : string) : string :=
  match input with
  | "" => ""
  | String _ rest => rest
  end.

(** [while (i < length && /\w/.test(input[i]))] *)
Fixpoint readIdentifier (identifier input : string) : string * string :=
  match input with
  | "" => (identifier, "")
  | String c rest =>
      if is_word c then readIdentifier (push_char identifier c) rest
      else (identifier, input)
  end.

(** [while (i < length && input.substr(i, 2) !== '{{')] *)
Fixpoint readText (text input : string) : string * string :=
  match input with
  | "" => (text, "")
  | String c rest =>
      if at_open input then (text, input)
      else readText (push_char text c) rest
  end.

Definition push (tokens : list Token) (ty : TokenType) (v : string) : list Token :=
  tokens ++ [mkToken ty v].

(** The main loop [while (i < this.input.length)].  Every iteration reads at
    least one character, so [String.length input] iterations are enough. *)
Fixpoint tokenize_loop (fuel : nat) (input : string) (insideTemplate : bool)
    (tokens : list Token) : option (list Token) :=
  match input with
  | "" => Some tokens
  | String c rest =>
      match fuel with
      | O => None
      | S fuel =>
          if at_open input then
            tokenize_loop fuel (skip2 input) true (push tokens OPEN_TEMPLATE "{{")
          else if at_close input then
            tokenize_loop fuel (skip2 input) false (push tokens CLOSE_TEMPLATE "}}")
          else if insideTemplate then
            if is_space c then tokenize_loop fuel rest true tokens
            else if Ascii.eqb c "|" then tokenize_loop fuel rest true (push tokens PIPE "|")
            else if Ascii.eqb c "?" then tokenize_loop fuel rest true (push tokens QUESTION "?")
            else if Ascii.eqb c ":" then tokenize_loop fuel rest true (push tokens COLON ":")
            else if is_quote c then
              let '(str, after) := readString c "" rest in
              tokenize_loop fuel (skipClosingQuote after) true (push tokens STRING str)
            else if is_ident_start c then
              let '(identifier, after) := readIdentifier "" input in
              if String.eqb identifier "or"
              then tokenize_loop fuel after true (push tokens OR identifier)
              else tokenize_loop fuel after true (push tokens IDENTIFIER identifier)
            else tokenize_loop fuel rest true tokens
          else
            let '(text, after) := readText "" input in
            tokenize_loop fuel after false
              (if String.eqb text "" then tokens else push tokens TEXT text)
      end
  end.

(** [this.tokenize()], with the fuel that [tokenize_loop_enough_fuel] shows
    sufficient (the default is never used). *)
Definition tokenize (input : string) : list Token :=
  default [] (tokenize_loop (String.length input) input false []).

(** ** The syntax tree ([types/ast-types.ts]) *)

Inductive ExpressionNode :=
| VariableNode (name : string)
| StringNode (value : string)
| PipeNode (left : ExpressionNode) (filter : FilterNode)
| TernaryNode (condition trueExpr falseExpr : ExpressionNode)
| OrNode (left right : ExpressionNode)
with FilterNode :=
| Filter (name : string) (args : list ExpressionNode).

Inductive ASTNode :=
| TextNode (value : string)
| TemplateNode (expression : ExpressionNode).

(** ** Outcomes and the parser's cursor *)

(** A call returns a value or throws.  The parser throws nothing but
    [new Error(message)]: its outcomes, the [result]s, carry the message. *)
Inductive outcome (E A : Type) :=
| Ok (a : A)
| Throw (thrown : E).
Arguments Ok {E A} & a.
Arguments Throw {E A} & thrown.

Abbreviation result := (outcome string).

(** A method of [TemplateParser]: it reads the tokens from the cursor on and
    either returns a value and the new cursor, or throws.  [None] is only
    produced when the fuel of a loop is exhausted. *)
Definition Parser (A : Type) : Type :=
  list Token -> option (result (A * list Token)).

Definition ret {A} (a : A) : Parser A :=
  fun tokens => Some (Ok (a, tokens)).

Definition throw {A} (message : string) : Parser A :=
  fun _ => Some (Throw message).

Definition out_of_fuel {A} : Parser A :=
  fun _ => None.

Definition bind {A B} (m : Parser A) (k : A -> Parser B) : Parser B :=
  fun tokens =>
    match m tokens with
    | Some (Ok (a, tokens')) => k a tokens'
    | Some (Throw message) => Some (Throw message)
    | None => None
    end.

Notation "'do' x <- m ; k" := (bind m (fun x => k))
  (at level 10, x name, m at level 100, k at level 200).

(** [this.peek()] *)
Definition peek : Parser (option Token) :=
  fun tokens => Some (Ok (head tokens, tokens)).

(** [this.advance()]: moves the cursor unless it is at the end.  The token
    it returns is the one [peek] returned just before; every call in the
    parser is made after such a [peek] succeeded, so the callers below use
    that token. *)
Definition advance : Parser unit :=
  fun tokens => Some (Ok (tt, tail tokens)).

(** [this.match(type)] *)
Definition match_ (ty : TokenType) : Parser (option Token) :=
  do token <- peek;
  match token with
  | Some t => if decide (type t = ty) then do _ <- advance; ret (Some t) else ret None
  | None => ret None
  end.

(** [this.peek()?.type || 'EOF'] *)
Definition type_or_EOF (token : option Token) : string :=
  match token with
  | Some t => TokenType_name (type t)
  | None => "EOF"
  end.

(** [this.expect(type)] *)
Definition expect (ty : TokenType) : Parser Token :=
  do token <- match_ ty;
  match token with
  | Some t => ret t
  | None =>
      do next <- peek;
      throw ("Expected " ++ TokenType_name ty ++ " but got " ++ type_or_EOF next)
  end.

(** ** The recursive-descent parser *)

Definition parsePrimary : Parser ExpressionNode :=
  do token <- peek;
  match token with
  | Some (mkToken IDENTIFIER v) => do _ <- advance; ret (VariableNode v)
  | Some (mkToken STRING v) => do _ <- advance; ret (StringNode v)
  | _ => throw ("Unexpected token: " ++ type_or_EOF token)
  end.

(** The types at which the argument loop of [parseFilter] stops. *)
Definition ends_arguments (ty : TokenType) : bool :=
  match ty with
  | PIPE | QUESTION | COLON | OR | CLOSE_TEMPLATE => true
  | _ => false
  end.

(** The loop of [parseFilter]: [while (this.peek() && ...) args.push(...)] *)
Fixpoint parseFilterArgs (fuel : nat) (args : list ExpressionNode)
    : Parser (list ExpressionNode) :=
  do token <- peek;
  match token with
  | None => ret args
  | Some t =>
      if ends_arguments (type t) then ret args
      else
        match fuel with
        | O => out_of_fuel
        | S fuel =>
            do arg <- parsePrimary;
            parseFilterArgs fuel (args ++ [arg])
        end
  end.

Definition parseFilter (fuel : nat) : Parser FilterNode :=
  do name <- expect IDENTIFIER;
  do args <- parseFilterArgs fuel [];
  ret (Filter (value name) args).

(** The loop of [parsePipeline]: [while (this.match('PIPE'))] *)
Fixpoint parsePipelineLoop (fuel : nat) (left : ExpressionNode)
    : Parser ExpressionNode :=
  do pipe <- match_ PIPE;
  match pipe with
  | None => ret left
  | Some _ =>
      match fuel with
      | O => out_of_fuel
      | S fuel =>
          do filter <- parseFilter fuel;
          parsePipelineLoop fuel (PipeNode left filter)
      end
  end.

Definition parsePipeline (fuel : nat) : Parser ExpressionNode :=
  do left <- parsePrimary;
  parsePipelineLoop fuel left.

(** The loop of [parseOr]: [while (this.match('OR'))] *)
Fixpoint parseOrLoop (fuel : nat) (left : ExpressionNode)
    : Parser ExpressionNode :=
  do or <- match_ OR;
  match or with
  | None => ret left
  | Some _ =>
      match fuel with
      | O => out_of_fuel
      | S fuel =>
          do right <- parsePipeline fuel;
          parseOrLoop fuel (OrNode left right)
      end
  end.

Definition parseOr (fuel : nat) : Parser ExpressionNode :=
  do left <- parsePipeline fuel;
  parseOrLoop fuel left.

(** [parseTernary], given the method [parseExpression] that it calls for
    its two branches. *)
Definition parseTernaryWith (parseExpression : Parser ExpressionNode)
    (fuel : nat) : Parser ExpressionNode :=
  do left <- parseOr fuel;
  do question <- match_ QUESTION;
  match question with
  | Some _ =>
      do trueExpr <- parseExpression;
      do _ <- expect COLON;
      do falseExpr <- parseExpression;
      ret (TernaryNode left trueExpr falseExpr)
  | None => ret left
  end.

(** [parseExpression] returns [this.parseTernary()]; the fuel bounds the
    depth of the recursion through the branches of ternaries. *)
Fixpoint parseExpression (fuel : nat) : Parser ExpressionNode :=
  match fuel with
  | O => out_of_fuel
  | S fuel => parseTernaryWith (parseExpression fuel) fuel
  end.

Definition parseTernary (fuel : nat) : Parser ExpressionNode :=
  parseTernaryWith (parseExpression fuel) fuel.

Definition parseTemplate (fuel : nat) : Parser ASTNode :=
  do _ <- expect OPEN_TEMPLATE;
  do expression <- parseExpression fuel;
  do _ <- expect CLOSE_TEMPLATE;
  ret (TemplateNode expression).

(** [parseNode] returns [null] ([None]) for a token it skips. *)
Definition parseNode (fuel : nat) : Parser (option ASTNode) :=
  do token <- peek;
  match token with
  | None => ret None
  | Some t =>
      match type t with
      | TEXT => do _ <- advance; ret (Some (TextNode (value t)))
      | OPEN_TEMPLATE => do node <- parseTemplate fuel; ret (Some node)
      | _ => do _ <- advance; ret None
      end
  end.

(** The loop of [parse]: [while (this.current < this.tokens.length)] *)
Fixpoint parse_loop (fuel : nat) (nodes : list ASTNode) : Parser (list ASTNode) :=
  fun tokens =>
    match tokens with
    | [] => ret nodes tokens
    | _ :: _ =>
        match fuel with
        | O => None
        | S fuel =>
            (do node <- parseNode fuel;
             parse_loop fuel (match node with Some n => nodes ++ [n] | None => nodes end))
              tokens
        end
    end.

(** [parser.parse()], with the fuel that [parse_loop_enough_fuel] shows
    sufficient (the last case is never taken). *)
Definition parse (tokens : list Token) : result (list ASTNode) :=
  match parse_loop (S (length tokens)) [] tokens with
  | Some (Ok (nodes, _)) => Ok nodes
  | Some (Throw message) => Throw message
  | None => Ok []
  end.

(** [new TemplateParser(input).parse()]: the constructor tokenizes. *)
Definition parseTemplateSource (input : string) : result (list ASTNode) :=
  parse (tokenize input).

(** ** Values

    The context holds values of unknown type.  The model keeps the values
    that the coercions of the engine tell apart: strings, numbers, booleans,
    [null] and [undefined], and the objects that the engine meets without
    being given any: the members of [Object.prototype], which a lookup in a
    plain object finds under their names, and what a call of such a member
    returns.

    Of the numbers it keeps the safe integers (the integers that a double
    holds exactly, which [String] prints as decimal numerals), [NaN] and the
    two infinities.  The negative zero is not told apart from zero ([String]
    and the test of truthiness treat the two alike), and numbers with a
    fraction are not modelled. *)

(** [Number.isSafeInteger] *)
Definition isSafeInteger (z : Z) : bool :=
  (Z.abs z <=? 9007199254740991)%Z.

Inductive Number :=
| SafeInteger (z : Z) (safe : Is_true (isSafeInteger z))
| NaN
| Infinity
| NegativeInfinity.

(** The number written [z], for a numeral [z] that is a safe integer. *)
Abbreviation Int z := (SafeInteger z I).

(** The functions that a plain object inherits from [Object.prototype]. *)
Inductive ObjectMethod :=
| Object_constructor
| Object_toString
| Object_toLocaleString
| Object_valueOf
| Object_hasOwnProperty
| Object_isPrototypeOf
| Object_propertyIsEnumerable
| Object_defineGetter
| Object_defineSetter
| Object_lookupGetter
| Object_lookupSetter.

(** The objects: the wrappers that [Object(v)] makes of a string, a number
    or a boolean, an object without properties of its own (as
    [Object(null)] returns), [Object.prototype] itself, and the functions
    above. *)
Inductive Object :=
| StringObject (s : string)
| NumberObject (n : Number)
| BooleanObject (b : bool)
| PlainObject
| ObjectPrototype
| Method (m : ObjectMethod).

Inductive Value :=
| VString (s : string)
| VNumber (n : Number)
| VBoolean (b : bool)
| VNull
| VUndefined
| VObject (o : Object).

(** The truthiness of a value, as tested by [c ? a : b], [a || b] and
    [!a]: every object is truthy. *)
Definition truthy (v : Value) : bool :=
  match v with
  | VString s => negb (String.eqb s "")
  | VNumber (SafeInteger z _) => negb (z =? 0)%Z
  | VNumber NaN => false
  | VNumber Infinity => true
  | VNumber NegativeInfinity => true
  | VBoolean b => b
  | VNull => false
  | VUndefined => false
  | VObject _ => true
  end.

(** The name under which a plain object inherits a method, and the [name]
    of the function. *)
Definition propertyName (m : ObjectMethod) : string :=
  match m with
  | Object_constructor => "constructor"
  | Object_toString => "toString"
  | Object_toLocaleString => "toLocaleString"
  | Object_valueOf => "valueOf"
  | Object_hasOwnProperty => "hasOwnProperty"
  | Object_isPrototypeOf => "isPrototypeOf"
  | Object_propertyIsEnumerable => "propertyIsEnumerable"
  | Object_defineGetter => "__defineGetter__"
  | Object_defineSetter => "__defineSetter__"
  | Object_lookupGetter => "__lookupGetter__"
  | Object_lookupSetter => "__lookupSetter__"
  end.

Definition functionName (m : ObjectMethod) : string :=
  match m with
  | Object_constructor => "Object"
  | _ => propertyName m
  end.

Definition numberToString (n : Number) : string :=
  match n with
  | SafeInteger z _ => NilZero.string_of_int (Z.to_int z)
  | NaN => "NaN"
  | Infinity => "Infinity"
  | NegativeInfinity => "-Infinity"
  end.

Definition booleanToString (b : bool) : string :=
  if b then "true" else "false".

(** [String(v)].  A wrapper prints as what it wraps, an object without a
    [toString] of its own as [[object Object]], and a built-in function as
    its source text, which is the platform's: the text below is the one of
    V8. *)
Definition toString (v : Value) : string :=
  match v with
  | VString s => s
  | VNumber n => numberToString n
  | VBoolean b => booleanToString b
  | VNull => "null"
  | VUndefined => "undefined"
  | VObject (StringObject s) => s
  | VObject (NumberObject n) => numberToString n
  | VObject (BooleanObject b) => booleanToString b
  | VObject PlainObject => "[object Object]"
  | VObject ObjectPrototype => "[object Object]"
  | VObject (Method m) => "function " ++ functionName m ++ "() { [native code] }"
  end.

(** [a || b], for an already evaluated [b] *)
Definition or_else (a b : Value) : Value :=
  if truthy a then a else b.

(** ** What a call can throw

    [new Error(message)], as the parser and the engine throw it; a
    [TypeError] of the platform (its message is the platform's); or any
    other value, thrown by a filter. *)
Inductive Thrown :=
| Error (message : string)
| TypeError
| Other (v : Value).

(** In an outcome of the evaluation a message stands for the [Error] that
    carries it. *)
Coercion Error : string >-> Thrown.

Abbreviation completion := (outcome Thrown).

(** ** Plain objects and their prototype

    The rendering context and the [filters] of an engine are plain objects:
    their prototype is [Object.prototype], and [o[name]] finds a property
    of [o] itself or else a member of the prototype.  The properties of the
    object itself are a finite map.  (The key [__proto__] of an object
    literal creates no property: it sets the prototype, or does nothing
    when its value is no object.  A map with that key stands for an object
    that has a property of that name, as [JSON.parse] makes them.) *)

Definition objectMethods : list ObjectMethod :=
  [Object_constructor; Object_toString; Object_toLocaleString; Object_valueOf;
   Object_hasOwnProperty; Object_isPrototypeOf; Object_propertyIsEnumerable;
   Object_defineGetter; Object_defineSetter; Object_lookupGetter; Object_lookupSetter].

(** [Object.prototype[name]]: [__proto__] reads the prototype of the object
    the lookup started from, which is [Object.prototype] itself. *)
Definition inherited (name : string) : Value :=
  if String.eqb name "__proto__" then VObject ObjectPrototype
  else match find (fun m => String.eqb (propertyName m) name) objectMethods with
       | Some m => VObject (Method m)
       | None => VUndefined
       end.

(** [Object(value)] *)
Definition toObject (value : Value) : Object :=
  match value with
  | VString s => StringObject s
  | VNumber n => NumberObject n
  | VBoolean b => BooleanObject b
  | VNull => PlainObject
  | VUndefined => PlainObject
  | VObject o => o
  end.

(** [o(value, ...args)]: a call without a receiver, [this] is [undefined].
    [Object] wraps its argument; [Object.prototype.toString] answers for
    the missing receiver; [isPrototypeOf] returns [false] for an argument
    that is not an object before it looks at the receiver; the other
    methods fail on the missing receiver, and what is not a function cannot
    be called. *)
Definition callObject (o : Object) (value : Value) (args : list Value)
    : completion Value :=
  match o with
  | Method Object_constructor => Ok (VObject (toObject value))
  | Method Object_toString => Ok (VString "[object Undefined]")
  | Method Object_isPrototypeOf =>
      match value with
      | VObject _ => Throw TypeError
      | _ => Ok (VBoolean false)
      end
  | _ => Throw TypeError
  end.

(** ** String functions used by the built-in filters

    The case mappings are those of the ASCII letters.  The code units from
    128 on are left as they are, where the platform maps the letters among
    them; the statements about the case of letters are about ASCII
    strings. *)

Definition lower_char (c : ascii) : ascii :=
  if between 65 90 c then ascii_of_nat (code c + 32) else c.

Definition upper_char (c : ascii) : ascii :=
  if between 97 122 c then ascii_of_nat (code c - 32) else c.

Fixpoint map_string (f : ascii -> ascii) (s : string) : string :=
  match s with
  | "" => ""
  | String c rest => String (f c) (map_string f rest)
  end.

Definition toLowerCase : string -> string := map_string lower_char.
Definition toUpperCase : string -> string := map_string upper_char.

(** [r.charAt(0).toUpperCase() + r.slice(1).toLowerCase()] *)
Definition capitalize (r : string) : string :=
  match r with
  | "" => ""
  | String c rest => String (upper_char c) (toLowerCase rest)
  end.

(** [s.includes(search)] *)
Fixpoint includes (s search : string) : bool :=
  String.prefix search s ||
  match s with
  | "" => false
  | String _ rest => includes rest search
  end.

(** ** The engine ([TemplateEngine]) *)

(** [(value, ...args) => unknown]: a filter returns a value or throws; an
    argument that is not passed is [undefined].  A filter is taken to have
    no other effect: it does not change the engine or the context. *)
Definition FilterFunction : Type := Value -> list Value -> completion Value.

Definition argument (n : nat) (args : list Value) : Value :=
  nth n args VUndefined.

Definition builtin_filters : gmap string FilterFunction :=
  <["lower" := fun v _ => Ok (VString (toLowerCase (toString v)))]>
  (<["upper" := fun v _ => Ok (VString (toUpperCase (toString v)))]>
  (<["capitalize" := fun v _ => Ok (VString (capitalize (toString v)))]>
  (<["includes" := fun v args =>
       Ok (VBoolean (includes (toString v) (toString (argument 0 args))))]> ∅))).

(** The [filters] object is kept as the map of its own properties and the
    list of their names in the order of their creation; the [Map]
    [astCache] as the map of its entries. *)
Record TemplateEngine := mkEngine {
  filters : gmap string FilterFunction;
  filterKeys : list string;
  astCache : gmap string (list ASTNode)
}.

(** [new TemplateEngine()] *)
Definition newTemplateEngine : TemplateEngine :=
  mkEngine builtin_filters ["lower"; "upper"; "capitalize"; "includes"] ∅.

(** [addFilter(name, fn)]: [this.filters[name] = fn] replaces the value of
    a property that the object has and creates one, after the others,
    otherwise.  For the name [__proto__] the assignment creates no
    property: it makes [fn] the prototype of the object, so that
    [filters['__proto__']] is [fn] from then on, which the map records
    under that key, and [Object.keys] does not list it.  What the object
    then inherits from [fn] under other names is not modelled: [member]
    takes the prototype to be [Object.prototype], and is the lookup of the
    code for the engines in which no filter is registered under
    [__proto__]. *)
Definition addFilter (name : string) (fn : FilterFunction) (e : TemplateEngine)
    : TemplateEngine :=
  mkEngine (<[name := fn]> (filters e))
    (if String.eqb name "__proto__" then filterKeys e
     else match filters e !! name with
          | Some _ => filterKeys e
          | None => (filterKeys e ++ [name])%list
          end)
    (astCache e).

(** [compile], over the function that stands for
    [new TemplateParser(template).parse()]: on a hit the cached tree is
    returned; otherwise the template is parsed and, unless the parser
    throws, the tree is stored. *)
Definition compileWith (parser : string -> result (list ASTNode))
    (e : TemplateEngine) (template : string)
    : result (list ASTNode) * TemplateEngine :=
  match astCache e !! template with
  | Some ast => (Ok ast, e)
  | None =>
      match parser template with
      | Ok ast =>
          (Ok ast, mkEngine (filters e) (filterKeys e) (<[template := ast]> (astCache e)))
      | Throw message => (Throw message, e)
      end
  end.

Definition compile : TemplateEngine -> string -> result (list ASTNode) * TemplateEngine :=
  compileWith parseTemplateSource.

(** Sequencing of calls that can throw. *)
Definition andThen {E A B} (r : outcome E A) (k : A -> outcome E B) : outcome E B :=
  match r with
  | Ok a => k a
  | Throw thrown => Throw thrown
  end.

Notation "'try' x <- r ; k" := (andThen r (fun x => k))
  (at level 10, x name, r at level 100, k at level 200).

(** [filters[name]], when it is truthy, as what calling it does: a filter
    of the object itself, or else the member of [Object.prototype] of that
    name.  (The prototype of the filter object is [Object.prototype] as
    long as no filter is registered under [__proto__]; see [addFilter].) *)
Definition member (registry : gmap string FilterFunction) (name : string)
    : option FilterFunction :=
  match registry !! name with
  | Some filterFn => Some filterFn
  | None =>
      match inherited name with
      | VObject o => Some (callObject o)
      | _ => None
      end
  end.

Section Evaluator.

Variable registry : gmap string FilterFunction.
Variable context : gmap string Value.

(** [context[name]]: the property of the context itself, or else what the
    context inherits under that name, [undefined] for most names. *)
Definition lookupVariable (name : string) : Value :=
  match context !! name with
  | Some v => v
  | None => inherited name
  end.

(** [evaluateExpression] and [applyFilter].  [applyFilter] looks the
    filter up, throws when it finds nothing, and only then evaluates the
    arguments, from left to right, and calls what it found. *)
Fixpoint evaluateExpression (expr : ExpressionNode) : completion Value :=
  match expr with
  | VariableNode name => Ok (or_else (lookupVariable name) (VString ""))
  | StringNode value => Ok (VString value)
  | PipeNode left_ filter =>
      try value <- evaluateExpression left_;
      applyFilter filter value
  | TernaryNode condition trueExpr falseExpr =>
      try condition <- evaluateExpression condition;
      if truthy condition
      then evaluateExpression trueExpr
      else evaluateExpression falseExpr
  | OrNode left_ right_ =>
      try left <- evaluateExpression left_;
      if truthy left then Ok left else evaluateExpression right_
  end
with applyFilter (filter : FilterNode) (value : Value) : completion Value :=
  match filter with
  | Filter name args =>
      match member registry name with
      | None => Throw (Error ("Unknown filter: " ++ name))
      | Some filterFn =>
          try args <-
            (fix evaluateArgs (args : list ExpressionNode) : completion (list Value) :=
               match args with
               | [] => Ok []
               | arg :: rest =>
                   try v <- evaluateExpression arg;
                   try vs <- evaluateArgs rest;
                   Ok (v :: vs)
               end) args;
          filterFn value args
      end
  end.

(** [filter.args.map((arg) => this.evaluateExpression(arg, context))] *)
Fixpoint evaluateArgs (args : list ExpressionNode) : completion (list Value) :=
  match args with
  | [] => Ok []
  | arg :: rest =>
      try v <- evaluateExpression arg;
      try vs <- evaluateArgs rest;
      Ok (v :: vs)
  end.

Definition evaluateNode (node : ASTNode) : completion string :=
  match node with
  | TextNode value => Ok value
  | TemplateNode expression =>
      try v <- evaluateExpression expression;
      Ok (toString v)
  end.

(** [ast.map((node) => this.evaluateNode(node, context))] *)
Fixpoint evaluateNodes (ast : list ASTNode) : completion (list string) :=
  match ast with
  | [] => Ok []
  | node :: rest =>
      try s <- evaluateNode node;
      try ss <- evaluateNodes rest;
      Ok (s :: ss)
  end.

(** [.join('')] *)
Definition join (parts : list string) : string :=
  foldr String.append "" parts.

Definition evaluate (ast : list ASTNode) : completion string :=
  try parts <- evaluateNodes ast;
  Ok (join parts).

(** The nodes on which [evaluateExpression] is called while [expr] is
    evaluated, in the order of the calls: the node itself, then the
    operands that the control flow of its case goes through.  Nothing is
    listed after a call that throws. *)
Fixpoint evaluated (expr : ExpressionNode) : list ExpressionNode :=
  (expr ::
  match expr with
  | VariableNode _ => []
  | StringNode _ => []
  | PipeNode left_ (Filter name args) =>
      evaluated left_ ++
      match evaluateExpression left_, member registry name with
      | Ok _, Some _ =>
          (fix evaluatedArgs (args : list ExpressionNode) : list ExpressionNode :=
             match args with
             | [] => []
             | arg :: rest =>
                 evaluated arg ++
                 match evaluateExpression arg with
                 | Ok _ => evaluatedArgs rest
                 | Throw _ => []
                 end
             end) args
      | _, _ => []
      end
  | TernaryNode condition trueExpr falseExpr =>
      evaluated condition ++
      match evaluateExpression condition with
      | Ok c => if truthy c then evaluated trueExpr else evaluated falseExpr
      | Throw _ => []
      end
  | OrNode left_ right_ =>
      evaluated left_ ++
      match evaluateExpression left_ with
      | Ok l => if truthy l then [] else evaluated right_
      | Throw _ => []
      end
  end)%list.

Fixpoint evaluatedArgs (args : list ExpressionNode) : list ExpressionNode :=
  match args with
  | [] => []
  | arg :: rest =>
      (evaluated arg ++
       match evaluateExpression arg with
       | Ok _ => evaluatedArgs rest
       | Throw _ => []
       end)%list
  end.

End Evaluator.

(** The [Error] of the parser, among what a call can throw. *)
Definition rethrow {A} (r : result A) : completion A :=
  match r with
  | Ok a => Ok a
  | Throw message => Throw (Error message)
  end.

(** [render(template, context)]: what [compile] throws is thrown on; the
    engine after the call keeps what [compile] cached, also when the
    evaluation throws. *)
Definition render (e : TemplateEngine) (template : string)
    (context : gmap string Value) : completion string * TemplateEngine :=
  match compile e template with
  | (Ok ast, e') => (evaluate (filters e') context ast, e')
  | (Throw message, e') => (Throw (Error message), e')
  end.

(** ** [Object.keys]

    The names of the properties of an object itself: first those that are
    array indices, in ascending order, then the others in the order of
    their creation. *)

Definition is_digit (c : ascii) : bool := between 48 57 c.

Fixpoint digitsValue (acc : N) (digits : string) : option N :=
  match digits with
  | "" => Some acc
  | String c rest =>
      if is_digit c then digitsValue (10 * acc + N.of_nat (code c - 48)) rest
      else None
  end.

(** The natural number that a decimal numeral writes: digits, the first of
    which is 0 only in the numeral 0. *)
Definition naturalValue (numeral : string) : option N :=
  match numeral with
  | "" => None
  | String c rest =>
      if Ascii.eqb c "0" && negb (String.eqb rest "") then None
      else digitsValue 0 numeral
  end.

(** An array index: the numeral of an integer from 0 to 2^32 - 2. *)
Definition arrayIndex (key : string) : option N :=
  match naturalValue key with
  | Some n => if (n <=? 4294967294)%N then Some n else None
  | None => None
  end.

Fixpoint insertIndex (n : N) (key : string) (sorted : list (N * string))
    : list (N * string) :=
  match sorted with
  | [] => [(n, key)]
  | (m, key') :: rest =>
      if (n <=? m)%N then (n, key) :: sorted else (m, key') :: insertIndex n key rest
  end.

Definition indexKeys (keys : list string) : list (N * string) :=
  foldr (fun key sorted =>
           match arrayIndex key with
           | Some n => insertIndex n key sorted
           | None => sorted
           end) [] keys.

Definition ownKeys (keys : list string) : list string :=
  (map snd (indexKeys keys) ++
   List.filter (fun key => match arrayIndex key with Some _ => false | None => true end)
     keys)%list.

(** [getFilters()]: [Object.keys(this.filters)] *)
Definition getFilters (e : TemplateEngine) : list string :=
  ownKeys (filterKeys e).

(** * Notions used in the statements *)

(** ** Termination and errors of the parser *)

(** [progress d m tokens]: from [tokens] the method [m] does not run out of
    fuel and, when it returns, it has consumed at least [d] tokens. *)
Definition progress {A} (d : nat) (m : Parser A) (tokens : list Token) : Prop :=
  match m tokens with
  | Some (Ok (_, tokens')) => length tokens' + d <= length tokens
  | Some (Throw _) => True
  | None => False
  end.

(** Every error that the parser throws is one of its two messages. *)
Definition ParseErrorMessage (message : string) : Prop :=
  (exists expected got,
      message = "Expected " ++ TokenType_name expected ++ " but got " ++ got) \/
  (exists got, message = "Unexpected token: " ++ got).

Definition throwsParseErrors {A} (m : Parser A) : Prop :=
  forall tokens message, m tokens = Some (Throw message) -> ParseErrorMessage message.

(** ** Decimal numerals *)

(** The integer that a decimal numeral writes: the numeral of a natural
    number, or a minus sign and the numeral of a positive number. *)
Definition decimalValue (numeral : string) : option Z :=
  match numeral with
  | String "-" digits =>
      match naturalValue digits with
      | Some (Npos p) => Some (Zneg p)
      | _ => None
      end
  | _ => Z.of_N <$> naturalValue numeral
  end.

(** ** Evaluation order and chains of [or] *)

Section EvaluationNotions.

Variable registry : gmap string FilterFunction.
Variable context : gmap string Value.

(** The names that [applyFilter] looks up while [expr] is evaluated, in the
    order of the calls: the filter of a pipe is looked up when its left
    operand has been evaluated, the arguments are evaluated when the lookup
    has found something, and nothing is looked up after a call that
    throws. *)
Fixpoint applied (expr : ExpressionNode) : list string :=
  match expr with
  | VariableNode _ => []
  | StringNode _ => []
  | PipeNode left_ (Filter name args) =>
      (applied left_ ++
       match evaluateExpression registry context left_ with
       | Ok _ =>
           name ::
           match member registry name with
           | Some _ =>
               (fix appliedArgs (args : list ExpressionNode) : list string :=
                  match args with
                  | [] => []
                  | arg :: rest =>
                      applied arg ++
                      match evaluateExpression registry context arg with
                      | Ok _ => appliedArgs rest
                      | Throw _ => []
                      end
                  end) args
           | None => []
           end
       | Throw _ => []
       end)%list
  | TernaryNode condition trueExpr falseExpr =>
      (applied condition ++
       match evaluateExpression registry context condition with
       | Ok c => if truthy c then applied trueExpr else applied falseExpr
       | Throw _ => []
       end)%list
  | OrNode left_ right_ =>
      (applied left_ ++
       match evaluateExpression registry context left_ with
       | Ok l => if truthy l then [] else applied right_
       | Throw _ => []
       end)%list
  end.

Fixpoint appliedArgs (args : list ExpressionNode) : list string :=
  match args with
  | [] => []
  | arg :: rest =>
      (applied arg ++
       match evaluateExpression registry context arg with
       | Ok _ => appliedArgs rest
       | Throw _ => []
       end)%list
  end.

Fixpoint appliedNodes (ast : list ASTNode) : list string :=
  match ast with
  | [] => []
  | TextNode _ :: rest => appliedNodes rest
  | TemplateNode expression :: rest =>
      (applied expression ++
       match evaluateExpression registry context expression with
       | Ok _ => appliedNodes rest
       | Throw _ => []
       end)%list
  end.

(** Every lookup of [names] finds something. *)
Definition allFound (names : list string) : Prop :=
  Forall (fun name => is_Some (member registry name)) names.

(** Whatever the lookups of [names] find returns a value when it is
    called. *)
Definition allReturn (names : list string) : Prop :=
  forall name filterFn,
    In name names -> member registry name = Some filterFn ->
    forall value args, exists returned, filterFn value args = Ok returned.

(** How an evaluation that looked up [names] ended in [thrown]: either
    the last lookup found nothing, all the others found something, and
    [thrown] is the error of [applyFilter] with the last name; or every
    lookup found something and [thrown] is what a call of one of the things
    found threw. *)
Definition thrownAt (names : list string) (thrown : Thrown) : Prop :=
  (exists found name,
      names = (found ++ [name])%list /\ allFound found /\
      member registry name = None /\
      thrown = Error ("Unknown filter: " ++ name)) \/
  (allFound names /\
   exists name filterFn value args,
     In name names /\ member registry name = Some filterFn /\
     filterFn value args = Throw thrown).

(** The outcome of an evaluation, against the lookups it made. *)
Definition accounted {A} (names : list string) (r : completion A) : Prop :=
  match r with
  | Ok _ => allFound names
  | Throw thrown => thrownAt names thrown
  end.

(** The operands from left to right: the value of the first one that is
    truthy, or of the last one when none is. *)
Fixpoint firstTruthy (first : ExpressionNode) (rest : list ExpressionNode)
    : completion Value :=
  try v <- evaluateExpression registry context first;
  if truthy v then Ok v
  else match rest with
       | [] => Ok v
       | next :: rest' => firstTruthy next rest'
       end.

End EvaluationNotions.

(** [a or b or c ...], as [parseOr] folds it: to the left. *)
Definition orChain (first : ExpressionNode) (rest : list ExpressionNode) : ExpressionNode :=
  fold_left OrNode rest first.

(** The node that [parsePrimary] builds from an IDENTIFIER or STRING token. *)
Definition primaryNode (t : Token) : ExpressionNode :=
  match type t with
  | STRING => StringNode (value t)
  | _ => VariableNode (value t)
  end.

Definition isPrimary (t : Token) : bool :=
  match type t with
  | IDENTIFIER | STRING => true
  | _ => false
  end.

(** The tokens of [or t1 or t2 ...]. *)
Definition orTokens (operands : list Token) : list Token :=
  flat_map (fun t => [mkToken OR "or"; t]) operands.

(** The next token, if any, is neither [or] nor [|]. *)
Definition endsOrChain (tail : list Token) : Prop :=
  forall t, head tail = Some t -> type t <> OR /\ type t <> PIPE.

(** ** Engines, templates and characters *)

(** Every tree in the cache is the one the parser returns for its key.
    [compile] is the only writer of [astCache], so this holds of every
    engine that the public methods can produce. *)
Definition cacheConsistent (e : TemplateEngine) : Prop :=
  forall template ast,
    astCache e !! template = Some ast -> parseTemplateSource template = Ok ast.


(** [input] contains [{{] somewhere. *)
Fixpoint containsOpen (input : string) : bool :=
  at_open input ||
  match input with
  | "" => false
  | String _ rest => containsOpen rest
  end.


(** The template [{{ c ? "y" : x | nope }}], with its double quotes. *)
Definition ternaryWithUnknownFilter : string :=
  "{{ c ? " ++ String doubleQuote ("y" ++ String doubleQuote " : x | nope }}").

(** ** Induction on expressions, through the arguments of filters *)

Section ExpressionNode_induction.

Variable P : ExpressionNode -> Prop.
Hypothesis HVariable : forall name, P (VariableNode name).
Hypothesis HString : forall value, P (StringNode value).
Hypothesis HPipe : forall left name args,
  P left -> Forall P args -> P (PipeNode left (Filter name args)).
Hypothesis HTernary : forall condition trueExpr falseExpr,
  P condition -> P trueExpr -> P falseExpr ->
  P (TernaryNode condition trueExpr falseExpr).
Hypothesis HOr : forall left right, P left -> P right -> P (OrNode left right).

Fixpoint ExpressionNode_nested_ind (expr : ExpressionNode) : P expr :=
  match expr with
  | VariableNode name => HVariable name
  | StringNode value => HString value
  | PipeNode left_ (Filter name args) =>
      HPipe left_ name args (ExpressionNode_nested_ind left_)
        ((fix all (args : list ExpressionNode) : Forall P args :=
            match args with
            | [] => @List.Forall_nil _ P
            | arg :: rest =>
                @List.Forall_cons _ P arg rest (ExpressionNode_nested_ind arg) (all rest)
            end) args)
  | TernaryNode condition trueExpr falseExpr =>
      HTernary condition trueExpr falseExpr
        (ExpressionNode_nested_ind condition)
        (ExpressionNode_nested_ind trueExpr)
        (ExpressionNode_nested_ind falseExpr)
  | OrNode left_ right_ =>
      HOr left_ right_ (ExpressionNode_nested_ind left_) (ExpressionNode_nested_ind right_)
  end.

End ExpressionNode_induction.

(** ** Names that occur in a tree *)

(** The names of the filters of the pipes of an expression. *)
Fixpoint filterNames (expr : ExpressionNode) : list string :=
  match expr with
  | VariableNode _ => []
  | StringNode _ => []
  | PipeNode left_ (Filter name args) =>
      (filterNames left_ ++ name :: flat_map filterNames args)%list
  | TernaryNode condition trueExpr falseExpr =>
      (filterNames condition ++ filterNames trueExpr ++ filterNames falseExpr)%list
  | OrNode left_ right_ => (filterNames left_ ++ filterNames right_)%list
  end.

Definition nodeFilterNames (node : ASTNode) : list string :=
  match node with
  | TextNode _ => []
  | TemplateNode expression => filterNames expression
  end.

(** The names of the variables of an expression. *)
Fixpoint variables (expr : ExpressionNode) : list string :=
  match expr with
  | VariableNode name => [name]
  | StringNode _ => []
  | PipeNode left_ (Filter _ args) =>
      (variables left_ ++ flat_map variables args)%list
  | TernaryNode condition trueExpr falseExpr =>
      (variables condition ++ variables trueExpr ++ variables falseExpr)%list
  | OrNode left_ right_ => (variables left_ ++ variables right_)%list
  end.

Definition nodeVariables (node : ASTNode) : list string :=
  match node with
  | TextNode _ => []
  | TemplateNode expression => variables expression
  end.

(** ** ASCII strings *)

(** All the characters of [s] are below 128: on these the case mappings of
    the model are those of [toLowerCase] and [toUpperCase]. *)
Fixpoint isAscii (s : string) : bool :=
  match s with
  | "" => true
  | String c rest => (code c <? 128)%nat && isAscii rest
  end.

(** ** The grammar of expressions

    A primary is an IDENTIFIER or a STRING; a pipeline is a primary
    followed by any number of filters, each a [|], an IDENTIFIER and any
    number of primaries; an or-level expression is one or more pipelines
    separated by [or]; an expression is an or-level expression, optionally
    followed by [?], an expression, [:] and an expression. *)

Definition isPrimaryNode (expr : ExpressionNode) : bool :=
  match expr with
  | VariableNode _ => true
  | StringNode _ => true
  | _ => false
  end.

Fixpoint isPipeline (expr : ExpressionNode) : bool :=
  match expr with
  | VariableNode _ => true
  | StringNode _ => true
  | PipeNode left_ (Filter _ args) => isPipeline left_ && forallb isPrimaryNode args
  | _ => false
  end.

Fixpoint isOrLevel (expr : ExpressionNode) : bool :=
  match expr with
  | OrNode left_ right_ => isOrLevel left_ && isPipeline right_
  | _ => isPipeline expr
  end.

Fixpoint isExpression (expr : ExpressionNode) : bool :=
  match expr with
  | TernaryNode condition trueExpr falseExpr =>
      isOrLevel condition && isExpression trueExpr && isExpression falseExpr
  | _ => isOrLevel expr
  end.

Definition isNode (node : ASTNode) : bool :=
  match node with
  | TextNode _ => true
  | TemplateNode expression => isExpression expression
  end.

(** The tokens that spell an expression, and a whole tree. *)
Fixpoint expressionTokens (expr : ExpressionNode) : list Token :=
  match expr with
  | VariableNode name => [mkToken IDENTIFIER name]
  | StringNode value => [mkToken STRING value]
  | PipeNode left_ (Filter name args) =>
      (expressionTokens left_ ++
       mkToken PIPE "|" :: mkToken IDENTIFIER name :: flat_map expressionTokens args)%list
  | TernaryNode condition trueExpr falseExpr =>
      (expressionTokens condition ++
       mkToken QUESTION "?" :: expressionTokens trueExpr ++
       mkToken COLON ":" :: expressionTokens falseExpr)%list
  | OrNode left_ right_ =>
      (expressionTokens left_ ++ mkToken OR "or" :: expressionTokens right_)%list
  end.

Definition nodeTokens (node : ASTNode) : list Token :=
  match node with
  | TextNode value => [mkToken TEXT value]
  | TemplateNode expression =>
      (mkToken OPEN_TEMPLATE "{{" :: expressionTokens expression ++
       [mkToken CLOSE_TEMPLATE "}}"])%list
  end.

(** What may follow: the argument loop of [parseFilter] stops at [tokens];
    an expression ends at [tokens]. *)
Definition argumentsEnd (tokens : list Token) : Prop :=
  forall t, head tokens = Some t -> ends_arguments (type t) = true.

Definition expressionEnd (tokens : list Token) : Prop :=
  forall t, head tokens = Some t -> type t = COLON \/ type t = CLOSE_TEMPLATE.

(** [returns P m]: whatever the parser method [m] returns satisfies [P]. *)
Definition returns {A} (P : A -> Prop) (m : Parser A) : Prop :=
  forall tokens a rest, m tokens = Some (Ok (a, rest)) -> P a.

(** ** Template sources that spell a tree *)

(** The tokens that the main loop of the tokenizer produces from a position
    of the input, in text mode or inside a placeholder; [tokenize input] is
    [lex false input]. *)
Definition lex (insideTemplate : bool) (input : string) : list Token :=
  default [] (tokenize_loop (String.length input) input insideTemplate []).

Fixpoint allChars (p : ascii -> bool) (s : string) : bool :=
  match s with
  | "" => true
  | String c rest => p c && allChars p rest
  end.

(** A letter or underscore followed by word characters, other than the
    keyword [or]: what the tokenizer reads as one IDENTIFIER. *)
Definition isName (s : string) : bool :=
  match s with
  | "" => false
  | String c rest => is_ident_start c && allChars is_word rest
  end && negb (String.eqb s "or").

(** The body of a string literal: a backslash in front of every quote and
    every backslash. *)
Fixpoint escape (quote : ascii) (s : string) : string :=
  match s with
  | "" => ""
  | String c rest =>
      if Ascii.eqb c quote || Ascii.eqb c "\"
      then String "\" (String c (escape quote rest))
      else String c (escape quote rest)
  end.

(** A token of an expression as it is written in a template, and a list of
    tokens, each followed by a space. *)
Definition showToken (t : Token) : string :=
  match type t with
  | STRING => String "'" (escape "'" (value t) ++ "'")
  | _ => value t
  end.

Fixpoint showTokens (tokens : list Token) : string :=
  match tokens with
  | [] => ""
  | t :: rest => showToken t ++ String " " (showTokens rest)
  end.

(** The tokens that can be written: names, string literals and the
    operators. *)
Definition lexable (t : Token) : bool :=
  match type t with
  | IDENTIFIER => isName (value t)
  | STRING => true
  | PIPE => String.eqb (value t) "|"
  | QUESTION => String.eqb (value t) "?"
  | COLON => String.eqb (value t) ":"
  | OR => String.eqb (value t) "or"
  | _ => false
  end.

Definition printExpression (expr : ExpressionNode) : string :=
  showTokens (expressionTokens expr).

Definition printNode (node : ASTNode) : string :=
  match node with
  | TextNode value => value
  | TemplateNode expression => "{{" ++ printExpression expression ++ "}}"
  end.

Fixpoint printNodes (ast : list ASTNode) : string :=
  match ast with
  | [] => ""
  | node :: rest => printNode node ++ printNodes rest
  end.

Fixpoint endsWithBrace (s : string) : bool :=
  match s with
  | "" => false
  | String c "" => Ascii.eqb c "{"
  | String _ rest => endsWithBrace rest
  end.

(** A text that the tokenizer reads as one TEXT token: not empty, without
    opening braces, not beginning with closing braces. *)
Definition isText (value : string) : bool :=
  negb (String.eqb value "") && negb (containsOpen value) && negb (at_close value).

(** The trees that a template can spell: the expressions are expressions of
    the grammar and their names are names; a text is followed by a
    placeholder or by nothing, and does not end with an opening brace when a
    placeholder follows. *)
Fixpoint printable (ast : list ASTNode) : bool :=
  match ast with
  | [] => true
  | TextNode value :: rest =>
      isText value &&
      match rest with
      | [] => true
      | TextNode _ :: _ => false
      | TemplateNode _ :: _ => negb (endsWithBrace value)
      end && printable rest
  | TemplateNode expression :: rest =>
      isExpression expression &&
      forallb isName (variables expression ++ filterNames expression) &&
      printable rest
  end.

(** What follows an identifier is not a word character. *)
Definition endsWord (rest : string) : bool :=
  match rest with
  | "" => true
  | String c _ => negb (is_word c)
  end.

(** What follows a text: the end of the input, or an opening of a
    placeholder that the last character of the text does not begin. *)
Definition endsText (text rest : string) : Prop :=
  rest = "" \/ (at_open rest = true /\ endsWithBrace text = false).

(** The tokens as the tokenizer writes them. *)
Definition wellFormed (t : Token) : bool :=
  match type t with
  | OPEN_TEMPLATE => String.eqb (value t) "{{"
  | CLOSE_TEMPLATE => String.eqb (value t) "}}"
  | TEXT => isText (value t)
  | _ => lexable t
  end.

(** A TEXT token is the last token or is followed by an opening of a
    placeholder that its last character does not begin. *)
Fixpoint textFollowed (tokens : list Token) : bool :=
  match tokens with
  | [] => true
  | t :: rest =>
      match type t, rest with
      | TEXT, next :: _ =>
          bool_decide (type next = OPEN_TEMPLATE) && negb (endsWithBrace (value t))
      | _, _ => true
      end && textFollowed rest
  end.

Definition wellFormedTokens (tokens : list Token) : bool :=
  forallb wellFormed tokens && textFollowed tokens.

Definition namesOf (expr : ExpressionNode) : list string :=
  (variables expr ++ filterNames expr)%list.

(** [keeps P m]: from well-formed tokens the parser method [m] returns a
    value that satisfies [P] and leaves well-formed tokens. *)
Definition keeps {A} (P : A -> Prop) (m : Parser A) : Prop :=
  forall tokens a rest,
    wellFormedTokens tokens = true -> m tokens = Some (Ok (a, rest)) ->
    wellFormedTokens rest = true /\ P a.

Definition wellFormedOption (token : option Token) : Prop :=
  match token with
  | Some t => wellFormed t = true
  | None => True
  end.

Definition namesOk (expr : ExpressionNode) : Prop :=
  forallb isName (namesOf expr) = true.

(** The nodes that the parser returns from [tokens] begin as the tokens
    do. *)
Definition startsLike (tokens : list Token) (ast : list ASTNode) : Prop :=
  match tokens with
  | [] => ast = []
  | t :: _ =>
      type t = OPEN_TEMPLATE -> exists expression rest, ast = TemplateNode expression :: rest
  end.

(** The tokens that [parse] reads: outside a placeholder [parseNode] skips
    every token that is neither a TEXT nor an OPEN_TEMPLATE. *)
Fixpoint readTokens (inside : bool) (tokens : list Token) : list Token :=
  match tokens with
  | [] => []
  | t :: rest =>
      if inside then t :: readTokens (negb (bool_decide (type t = CLOSE_TEMPLATE))) rest
      else
        match type t with
        | TEXT => t :: readTokens false rest
        | OPEN_TEMPLATE => t :: readTokens true rest
        | _ => readTokens false rest
        end
  end.

(** * Properties *)

(** ** The tokenizer terminates *)

Lemma readString_shorter (quote : ascii) (input str : string) :
  String.length (readString quote str input).2 <= String.length input.
Proof.
  remember (String.length input) as n eqn:Hn.
  revert input str Hn.
  induction (lt_wf n) as [n _ IH]; intros input str ->.
  destruct input as [|c rest]; simpl; [lia|].
  destruct (Ascii.eqb c quote); [simpl; lia|].
  destruct (Ascii.eqb c "\").
  - destruct rest as [|d rest']; simpl; [lia|].
    specialize (IH (String.length rest') ltac:(simpl; lia) rest' (push_char str d) eq_refl).
    lia.
  - specialize (IH (String.length rest) ltac:(simpl; lia) rest (push_char str c) eq_refl).
    lia.
Qed.

Lemma readIdentifier_shorter (input identifier : string) :
  String.length (readIdentifier identifier input).2 <= String.length input.
Proof.
  revert identifier.
  induction input as [|c rest IH]; intros identifier; simpl; [lia|].
  destruct (is_word c); simpl; [|lia].
  specialize (IH (push_char identifier c)). lia.
Qed.

Lemma is_ident_start_word (c : ascii) : is_ident_start c = true -> is_word c = true.
Proof. unfold is_word. intros ->. reflexivity. Qed.

Lemma readText_shorter (input text : string) :
  String.length (readText text input).2 <= String.length input.
Proof.
  revert text.
  induction input as [|c rest IH]; intros text; [simpl; lia|].
  cbn [readText].
  destruct (at_open (String c rest)); [simpl; lia|].
  specialize (IH (push_char text c)). simpl. lia.
Qed.

Lemma skip2_shorter (c : ascii) (rest : string) :
  String.length (skip2 (String c rest)) <= String.length rest.
Proof. destruct rest; simpl; lia. Qed.

Lemma skipClosingQuote_shorter (input : string) :
  String.length (skipClosingQuote input) <= String.length input.
Proof. destruct input; simpl; lia. Qed.

(** One iteration of the main loop, as an equation. *)
Lemma tokenize_loop_step (fuel : nat) (c : ascii) (rest : string)
    (insideTemplate : bool) (tokens : list Token) :
  tokenize_loop (S fuel) (String c rest) insideTemplate tokens =
  let input := String c rest in
  if at_open input then
    tokenize_loop fuel (skip2 input) true (push tokens OPEN_TEMPLATE "{{")
  else if at_close input then
    tokenize_loop fuel (skip2 input) false (push tokens CLOSE_TEMPLATE "}}")
  else if insideTemplate then
    if is_space c then tokenize_loop fuel rest true tokens
    else if Ascii.eqb c "|" then tokenize_loop fuel rest true (push tokens PIPE "|")
    else if Ascii.eqb c "?" then tokenize_loop fuel rest true (push tokens QUESTION "?")
    else if Ascii.eqb c ":" then tokenize_loop fuel rest true (push tokens COLON ":")
    else if is_quote c then
      tokenize_loop fuel (skipClosingQuote (readString c "" rest).2) true
        (push tokens STRING (readString c "" rest).1)
    else if is_ident_start c then
      let identifier := (readIdentifier "" input).1 in
      tokenize_loop fuel (readIdentifier "" input).2 true
        (push tokens (if String.eqb identifier "or" then OR else IDENTIFIER) identifier)
    else tokenize_loop fuel rest true tokens
  else
    let text := (readText "" input).1 in
    tokenize_loop fuel (readText "" input).2 false
      (if String.eqb text "" then tokens else push tokens TEXT text).
Proof.
  cbn [tokenize_loop]. cbv zeta.
  destruct (at_open (String c rest)); [reflexivity|].
  destruct (at_close (String c rest)); [reflexivity|].
  destruct insideTemplate.
  - destruct (is_space c); [reflexivity|].
    destruct (Ascii.eqb c "|"); [reflexivity|].
    destruct (Ascii.eqb c "?"); [reflexivity|].
    destruct (Ascii.eqb c ":"); [reflexivity|].
    destruct (is_quote c).
    { destruct (readString c "" rest); reflexivity. }
    destruct (is_ident_start c); [|reflexivity].
    destruct (readIdentifier "" (String c rest)) as [identifier after].
    cbn [fst snd]. destruct (String.eqb identifier "or"); reflexivity.
  - destruct (readText "" (String c rest)); reflexivity.
Qed.

(** The tokenizer never fails and never loops: with as much fuel as the
    input has characters, the main loop returns a token list. *)
Lemma tokenize_loop_enough_fuel (fuel : nat) (input : string)
    (insideTemplate : bool) (tokens : list Token) :
  String.length input <= fuel ->
  is_Some (tokenize_loop fuel input insideTemplate tokens).
Proof.
  revert input insideTemplate tokens.
  induction fuel as [|fuel IH]; intros input insideTemplate tokens Hlen.
  - destruct input; [eexists; reflexivity | simpl in Hlen; lia].
  - destruct input as [|c rest]; [eexists; reflexivity|].
    rewrite tokenize_loop_step. cbv zeta.
    assert (Hrest : String.length rest <= fuel) by (simpl in Hlen; lia).
    pose proof (skip2_shorter c rest) as Hskip.
    repeat match goal with
    | |- is_Some (if ?b then _ else _) => destruct b eqn:?
    end; try (apply IH; lia).
    + apply IH.
      pose proof (skipClosingQuote_shorter (readString c "" rest).2).
      pose proof (readString_shorter c rest ""). lia.
    + apply IH. cbn [readIdentifier].
      rewrite is_ident_start_word by assumption.
      pose proof (readIdentifier_shorter rest (push_char "" c)). lia.
    + apply IH. cbn [readText].
      match goal with H : at_open _ = false |- _ => rewrite H end.
      pose proof (readText_shorter rest (push_char "" c)). lia.
Qed.

Lemma tokenize_eq (input : string) :
  tokenize_loop (String.length input) input false [] = Some (tokenize input).
Proof.
  unfold tokenize.
  destruct (tokenize_loop_enough_fuel (String.length input) input false []) as [tokens ->];
    [lia | reflexivity].
Qed.

(** More fuel does not change the result of the main loop. *)
Lemma tokenize_loop_more_fuel (fuel fuel' : nat) (input : string)
    (insideTemplate : bool) (tokens result : list Token) :
  tokenize_loop fuel input insideTemplate tokens = Some result ->
  fuel <= fuel' ->
  tokenize_loop fuel' input insideTemplate tokens = Some result.
Proof.
  revert fuel' input insideTemplate tokens.
  induction fuel as [|fuel IH]; intros fuel' input insideTemplate tokens Hrun Hle.
  - destruct input; [|discriminate]. destruct fuel'; exact Hrun.
  - destruct input as [|c rest]; [destruct fuel'; exact Hrun|].
    destruct fuel' as [|fuel']; [lia|].
    rewrite tokenize_loop_step in *. cbv zeta in *.
    repeat match goal with
    | |- context [if ?b then _ else _] =>
        lazymatch b with
        | String.eqb _ _ => fail
        | _ => destruct b
        end
    end; (apply IH; [assumption | lia]).
Qed.

Lemma tokenize_loop_fuel (fuel : nat) (input : string) :
  String.length input <= fuel ->
  tokenize_loop fuel input false [] = Some (tokenize input).
Proof.
  intros Hle. eapply tokenize_loop_more_fuel; [apply tokenize_eq | exact Hle].
Qed.

(** ** The parser terminates *)

Lemma progress_weaken {A} (d d' : nat) (m : Parser A) (tokens : list Token) :
  progress d m tokens -> d' <= d -> progress d' m tokens.
Proof.
  unfold progress. destruct (m tokens) as [[[a tokens']|]|]; [lia | tauto | tauto].
Qed.

Lemma progress_bind {A B} (d1 d2 : nat) (m : Parser A) (k : A -> Parser B)
    (tokens : list Token) :
  progress d1 m tokens ->
  (forall a tokens', m tokens = Some (Ok (a, tokens')) ->
                     length tokens' + d1 <= length tokens ->
                     progress d2 (k a) tokens') ->
  progress (d1 + d2) (bind m k) tokens.
Proof.
  unfold progress, bind. intros Hm Hk.
  destruct (m tokens) as [[[a tokens']|]|]; [|exact I|exact Hm].
  specialize (Hk a tokens' eq_refl Hm).
  destruct (k a tokens') as [[[b tokens'']|]|]; [lia | exact I | exact Hk].
Qed.

Lemma progress_ret {A} (a : A) (tokens : list Token) : progress 0 (ret a) tokens.
Proof. unfold progress, ret. lia. Qed.

Lemma progress_throw {A} (d : nat) (message : string) (tokens : list Token) :
  progress d (@throw A message) tokens.
Proof. exact I. Qed.

Lemma progress_peek (tokens : list Token) : progress 0 peek tokens.
Proof. unfold progress, peek. lia. Qed.

Lemma peek_inv (tokens tokens' : list Token) (token : option Token) :
  peek tokens = Some (Ok (token, tokens')) -> tokens' = tokens /\ token = head tokens.
Proof. unfold peek. intros [= <- <-]. split; reflexivity. Qed.

Lemma match_inv (ty : TokenType) (tokens tokens' : list Token) (token : option Token) :
  match_ ty tokens = Some (Ok (token, tokens')) ->
  (exists t, token = Some t /\ type t = ty /\ tokens = t :: tokens') \/
  (token = None /\ tokens' = tokens /\
   forall t, head tokens = Some t -> type t <> ty).
Proof.
  unfold match_, bind, peek, advance, ret.
  destruct tokens as [|t rest]; simpl.
  - intros [= <- <-]. right. repeat split. discriminate.
  - destruct (decide (type t = ty)) as [Heq|Hne]; intros [= <- <-].
    + left. exists t. repeat split. exact Heq.
    + right. repeat split. intros t' [= <-]. exact Hne.
Qed.

Lemma match_total (ty : TokenType) (tokens : list Token) :
  exists token tokens', match_ ty tokens = Some (Ok (token, tokens')).
Proof.
  unfold match_, bind, peek, advance, ret.
  destruct tokens as [|t rest]; simpl; [eauto|].
  destruct (decide (type t = ty)); eauto.
Qed.

Lemma progress_match (ty : TokenType) (tokens : list Token) :
  progress 0 (match_ ty) tokens.
Proof.
  unfold progress.
  destruct (match_total ty tokens) as (token & tokens' & Heq). rewrite Heq.
  apply match_inv in Heq as [(t & _ & _ & ->)|(_ & -> & _)]; simpl; lia.
Qed.

Lemma expect_inv (ty : TokenType) (tokens tokens' : list Token) (t : Token) :
  expect ty tokens = Some (Ok (t, tokens')) -> type t = ty /\ tokens = t :: tokens'.
Proof.
  unfold expect, bind.
  destruct (match_total ty tokens) as (token & tokens1 & Heq). rewrite Heq.
  apply match_inv in Heq as [(t' & -> & Hty & ->)|(-> & -> & _)].
  - unfold ret. intros [= <- <-]. split; [exact Hty | reflexivity].
  - unfold peek, throw. discriminate.
Qed.

Lemma progress_expect (ty : TokenType) (tokens : list Token) :
  progress 1 (expect ty) tokens.
Proof.
  unfold progress.
  destruct (expect ty tokens) as [[[t tokens']|]|] eqn:Heq.
  - apply expect_inv in Heq as [_ ->]. simpl. lia.
  - exact I.
  - unfold expect, bind in Heq.
    destruct (match_total ty tokens) as (token & tokens1 & Hm). rewrite Hm in Heq.
    destruct token; discriminate.
Qed.

Lemma parsePrimary_inv (tokens tokens' : list Token) (expr : ExpressionNode) :
  parsePrimary tokens = Some (Ok (expr, tokens')) ->
  exists t, tokens = t :: tokens' /\
    ((type t = IDENTIFIER /\ expr = VariableNode (value t)) \/
     (type t = STRING /\ expr = StringNode (value t))).
Proof.
  unfold parsePrimary, bind, peek, advance, ret, throw.
  destruct tokens as [|[ty v] rest]; simpl; [discriminate|].
  destruct ty; try discriminate; intros [= <- <-]; eexists; split; eauto.
Qed.

Lemma progress_parsePrimary (tokens : list Token) : progress 1 parsePrimary tokens.
Proof.
  unfold progress.
  destruct (parsePrimary tokens) as [[[expr tokens']|]|] eqn:Heq.
  - apply parsePrimary_inv in Heq as (t & -> & _). simpl. lia.
  - exact I.
  - unfold parsePrimary, bind, peek, advance, ret, throw in Heq.
    destruct tokens as [|[ty v] rest]; simpl in Heq; [discriminate|].
    destruct ty; discriminate.
Qed.

Lemma progress_parseFilterArgs (fuel : nat) (args : list ExpressionNode)
    (tokens : list Token) :
  length tokens <= fuel -> progress 0 (parseFilterArgs fuel args) tokens.
Proof.
  revert args tokens.
  induction fuel as [|fuel IH]; intros args tokens Hlen.
  - destruct tokens; [|simpl in Hlen; lia]. unfold progress. simpl. lia.
  - destruct tokens as [|t rest]; [unfold progress; simpl; lia|].
    unfold progress. cbn [parseFilterArgs bind peek head].
    destruct (ends_arguments (type t)); [unfold ret; lia|].
    fold (progress 0 (do arg <- parsePrimary; parseFilterArgs fuel (args ++ [arg])) (t :: rest)).
    apply (progress_weaken (1 + 0)); [|lia].
    apply progress_bind; [apply progress_parsePrimary|].
    intros arg tokens' _ Hshort. apply IH. simpl in *. lia.
Qed.

Lemma progress_parseFilter (fuel : nat) (tokens : list Token) :
  length tokens <= S fuel -> progress 1 (parseFilter fuel) tokens.
Proof.
  intros Hlen. unfold parseFilter.
  apply (progress_bind 1 0); [apply progress_expect|].
  intros name tokens1 _ H1.
  apply (progress_bind 0 0); [apply progress_parseFilterArgs; lia|].
  intros args tokens2 _ _. apply progress_ret.
Qed.

Lemma progress_match_bind {B} (d : nat) (ty : TokenType)
    (k : option Token -> Parser B) (tokens : list Token) :
  (forall t rest, tokens = t :: rest -> type t = ty -> progress d (k (Some t)) rest) ->
  progress d (k None) tokens ->
  progress d (bind (match_ ty) k) tokens.
Proof.
  intros Hsome Hnone. unfold progress, bind.
  destruct (match_total ty tokens) as (token & tokens1 & Hm). rewrite Hm.
  apply match_inv in Hm as [(t & -> & Hty & ->)|(-> & -> & _)]; [|exact Hnone].
  specialize (Hsome t tokens1 eq_refl Hty). unfold progress in Hsome.
  destruct (k (Some t) tokens1) as [[[b tokens2]|]|]; [simpl; lia | exact I | exact Hsome].
Qed.

Lemma progress_parsePipelineLoop (fuel : nat) (left : ExpressionNode)
    (tokens : list Token) :
  length tokens <= fuel -> progress 0 (parsePipelineLoop fuel left) tokens.
Proof.
  revert left tokens.
  induction fuel as [|fuel IH]; intros left tokens Hlen.
  - destruct tokens; [|simpl in Hlen; lia]. unfold progress. simpl. lia.
  - cbn [parsePipelineLoop].
    apply progress_match_bind; [|apply progress_ret].
    intros t rest -> _. simpl in Hlen.
    apply (progress_weaken (1 + 0)); [|lia].
    apply progress_bind; [apply progress_parseFilter; lia|].
    intros filter tokens' _ Hshort. apply IH. lia.
Qed.

Lemma progress_parsePipeline (fuel : nat) (tokens : list Token) :
  length tokens <= S fuel -> progress 1 (parsePipeline fuel) tokens.
Proof.
  intros Hlen. unfold parsePipeline.
  apply (progress_bind 1 0); [apply progress_parsePrimary|].
  intros left tokens1 _ H1. apply progress_parsePipelineLoop. lia.
Qed.

Lemma progress_parseOrLoop (fuel : nat) (left : ExpressionNode)
    (tokens : list Token) :
  length tokens <= fuel -> progress 0 (parseOrLoop fuel left) tokens.
Proof.
  revert left tokens.
  induction fuel as [|fuel IH]; intros left tokens Hlen.
  - destruct tokens; [|simpl in Hlen; lia]. unfold progress. simpl. lia.
  - cbn [parseOrLoop].
    apply progress_match_bind; [|apply progress_ret].
    intros t rest -> _. simpl in Hlen.
    apply (progress_weaken (1 + 0)); [|lia].
    apply progress_bind; [apply progress_parsePipeline; lia|].
    intros right tokens' _ Hshort. apply IH. lia.
Qed.

Lemma progress_parseOr (fuel : nat) (tokens : list Token) :
  length tokens <= fuel -> progress 1 (parseOr fuel) tokens.
Proof.
  intros Hlen. unfold parseOr.
  apply (progress_bind 1 0); [apply progress_parsePipeline; lia|].
  intros left tokens1 _ H1. apply progress_parseOrLoop. lia.
Qed.

Lemma progress_parseExpression (fuel : nat) (tokens : list Token) :
  length tokens < fuel -> progress 1 (parseExpression fuel) tokens.
Proof.
  revert tokens.
  induction fuel as [|fuel IH]; intros tokens Hlen; [lia|].
  cbn [parseExpression]. unfold parseTernaryWith.
  apply (progress_bind 1 0); [apply progress_parseOr; lia|].
  intros left tokens1 _ H1.
  apply progress_match_bind; [|apply progress_ret].
  intros t rest -> _. simpl in H1.
  apply (progress_weaken (1 + (1 + (1 + 0)))); [|lia].
  apply progress_bind; [apply IH; lia|].
  intros trueExpr tokens2 _ H2.
  apply progress_bind; [apply progress_expect|].
  intros colon tokens3 _ H3.
  apply progress_bind; [apply IH; lia|].
  intros falseExpr tokens4 _ H4. apply progress_ret.
Qed.

Lemma progress_parseTemplate (fuel : nat) (tokens : list Token) :
  length tokens <= fuel -> progress 1 (parseTemplate fuel) tokens.
Proof.
  intros Hlen. unfold parseTemplate.
  apply (progress_weaken (1 + (1 + (1 + 0)))); [|lia].
  apply progress_bind; [apply progress_expect|].
  intros open tokens1 _ H1.
  apply progress_bind; [apply progress_parseExpression; lia|].
  intros expression tokens2 _ H2.
  apply progress_bind; [apply progress_expect|].
  intros close tokens3 _ H3. apply progress_ret.
Qed.

Lemma parseNode_cons (fuel : nat) (t : Token) (rest : list Token) :
  parseNode fuel (t :: rest) =
  match type t with
  | TEXT => Some (Ok (Some (TextNode (value t)), rest))
  | OPEN_TEMPLATE => (do node <- parseTemplate fuel; ret (Some node)) (t :: rest)
  | _ => Some (Ok (None, rest))
  end.
Proof. unfold parseNode, bind, peek. simpl. destruct (type t); reflexivity. Qed.

Lemma progress_parseNode (fuel : nat) (t : Token) (rest : list Token) :
  length (t :: rest) <= fuel -> progress 1 (parseNode fuel) (t :: rest).
Proof.
  intros Hlen. unfold progress at 1. rewrite parseNode_cons.
  destruct (type t) eqn:Hty; try (simpl; lia).
  apply (progress_bind 1 0); [apply progress_parseTemplate; exact Hlen|].
  intros node tokens1 _ _. apply progress_ret.
Qed.

(** [parse] never runs out of fuel. *)
Lemma parse_loop_enough_fuel (fuel : nat) (nodes : list ASTNode)
    (tokens : list Token) :
  length tokens < fuel -> progress 0 (parse_loop fuel nodes) tokens.
Proof.
  revert nodes tokens.
  induction fuel as [|fuel IH]; intros nodes tokens Hlen; [lia|].
  destruct tokens as [|t rest]; [unfold progress; simpl; lia|].
  cbn [parse_loop].
  apply (progress_weaken (1 + 0)); [|lia].
  apply progress_bind; [apply progress_parseNode; lia|].
  intros node tokens' _ Hshort. apply IH. lia.
Qed.

(** [parse] returns exactly what the loop returns. *)
Lemma parse_eq (tokens : list Token) :
  (exists nodes rest,
      parse_loop (S (length tokens)) [] tokens = Some (Ok (nodes, rest)) /\
      parse tokens = Ok nodes) \/
  (exists message,
      parse_loop (S (length tokens)) [] tokens = Some (Throw message) /\
      parse tokens = Throw message).
Proof.
  pose proof (parse_loop_enough_fuel (S (length tokens)) [] tokens ltac:(lia)) as Hp.
  unfold progress in Hp. unfold parse.
  destruct (parse_loop (S (length tokens)) [] tokens) as [[[nodes rest]|message]|];
    [left; eauto | right; eauto | contradiction].
Qed.

(** ** The messages of the parser *)

Lemma throwsParseErrors_bind {A B} (m : Parser A) (k : A -> Parser B) :
  throwsParseErrors m -> (forall a, throwsParseErrors (k a)) ->
  throwsParseErrors (bind m k).
Proof.
  intros Hm Hk tokens message. unfold bind.
  destruct (m tokens) as [[[a tokens']|message']|] eqn:Heq; [apply Hk | | discriminate].
  intros [= <-]. eapply Hm, Heq.
Qed.

Lemma throwsParseErrors_ret {A} (a : A) : throwsParseErrors (ret a).
Proof. intros tokens message. discriminate. Qed.

Lemma throwsParseErrors_peek : throwsParseErrors peek.
Proof. intros tokens message. discriminate. Qed.

Lemma throwsParseErrors_advance : throwsParseErrors advance.
Proof. intros tokens message. discriminate. Qed.

Lemma throwsParseErrors_out_of_fuel {A} : throwsParseErrors (@out_of_fuel A).
Proof. intros tokens message. discriminate. Qed.

Lemma throwsParseErrors_match (ty : TokenType) : throwsParseErrors (match_ ty).
Proof.
  intros tokens message Heq.
  destruct (match_total ty tokens) as (token & tokens' & Hm). congruence.
Qed.

Lemma throwsParseErrors_expect (ty : TokenType) : throwsParseErrors (expect ty).
Proof.
  unfold expect. apply throwsParseErrors_bind; [apply throwsParseErrors_match|].
  intros [t|]; [apply throwsParseErrors_ret|].
  apply throwsParseErrors_bind; [apply throwsParseErrors_peek|].
  intros next tokens message [= <-]. left. eauto.
Qed.

Lemma throwsParseErrors_parsePrimary : throwsParseErrors parsePrimary.
Proof.
  unfold parsePrimary. apply throwsParseErrors_bind; [apply throwsParseErrors_peek|].
  assert (Hthrow : forall token,
    throwsParseErrors (@throw ExpressionNode ("Unexpected token: " ++ type_or_EOF token))).
  { intros token tokens message [= <-]. right. eauto. }
  intros [[ty v]|]; [|apply Hthrow].
  destruct ty; try apply Hthrow;
    (apply throwsParseErrors_bind;
       [apply throwsParseErrors_advance | intros _; apply throwsParseErrors_ret]).
Qed.

Create HintDb parse_errors.

#[local] Hint Resolve throwsParseErrors_ret throwsParseErrors_peek
  throwsParseErrors_advance throwsParseErrors_out_of_fuel throwsParseErrors_match
  throwsParseErrors_expect throwsParseErrors_parsePrimary : parse_errors.

Lemma throwsParseErrors_parseFilterArgs (fuel : nat) (args : list ExpressionNode) :
  throwsParseErrors (parseFilterArgs fuel args).
Proof.
  revert args. induction fuel as [|fuel IH]; intros args; cbn [parseFilterArgs];
    (apply throwsParseErrors_bind; [auto with parse_errors|]);
    intros [t|]; auto with parse_errors;
    destruct (ends_arguments (type t)); auto with parse_errors.
  apply throwsParseErrors_bind; auto with parse_errors.
Qed.

Lemma throwsParseErrors_parseFilter (fuel : nat) : throwsParseErrors (parseFilter fuel).
Proof.
  unfold parseFilter.
  apply throwsParseErrors_bind; [auto with parse_errors|]. intros name.
  apply throwsParseErrors_bind; [apply throwsParseErrors_parseFilterArgs|].
  auto with parse_errors.
Qed.

Lemma throwsParseErrors_parsePipelineLoop (fuel : nat) (left : ExpressionNode) :
  throwsParseErrors (parsePipelineLoop fuel left).
Proof.
  revert left. induction fuel as [|fuel IH]; intros left; cbn [parsePipelineLoop];
    (apply throwsParseErrors_bind; [auto with parse_errors|]);
    intros [t|]; auto with parse_errors.
  apply throwsParseErrors_bind; [apply throwsParseErrors_parseFilter | auto].
Qed.

Lemma throwsParseErrors_parsePipeline (fuel : nat) : throwsParseErrors (parsePipeline fuel).
Proof.
  unfold parsePipeline. apply throwsParseErrors_bind; [auto with parse_errors|].
  apply throwsParseErrors_parsePipelineLoop.
Qed.

Lemma throwsParseErrors_parseOrLoop (fuel : nat) (left : ExpressionNode) :
  throwsParseErrors (parseOrLoop fuel left).
Proof.
  revert left. induction fuel as [|fuel IH]; intros left; cbn [parseOrLoop];
    (apply throwsParseErrors_bind; [auto with parse_errors|]);
    intros [t|]; auto with parse_errors.
  apply throwsParseErrors_bind; [apply throwsParseErrors_parsePipeline | auto].
Qed.

Lemma throwsParseErrors_parseOr (fuel : nat) : throwsParseErrors (parseOr fuel).
Proof.
  unfold parseOr. apply throwsParseErrors_bind; [apply throwsParseErrors_parsePipeline|].
  apply throwsParseErrors_parseOrLoop.
Qed.

Lemma throwsParseErrors_parseExpression (fuel : nat) :
  throwsParseErrors (parseExpression fuel).
Proof.
  induction fuel as [|fuel IH]; cbn [parseExpression]; [auto with parse_errors|].
  unfold parseTernaryWith.
  apply throwsParseErrors_bind; [apply throwsParseErrors_parseOr|]. intros left.
  apply throwsParseErrors_bind; [auto with parse_errors|].
  intros [t|]; auto with parse_errors.
  apply throwsParseErrors_bind; [exact IH|]. intros trueExpr.
  apply throwsParseErrors_bind; [auto with parse_errors|]. intros _.
  apply throwsParseErrors_bind; [exact IH|]. auto with parse_errors.
Qed.

Lemma throwsParseErrors_parseTemplate (fuel : nat) : throwsParseErrors (parseTemplate fuel).
Proof.
  unfold parseTemplate.
  apply throwsParseErrors_bind; [auto with parse_errors|]. intros _.
  apply throwsParseErrors_bind; [apply throwsParseErrors_parseExpression|]. intros expression.
  apply throwsParseErrors_bind; auto with parse_errors.
Qed.

Lemma throwsParseErrors_parseNode (fuel : nat) : throwsParseErrors (parseNode fuel).
Proof.
  unfold parseNode. apply throwsParseErrors_bind; [auto with parse_errors|].
  intros [t|]; auto with parse_errors.
  destruct (type t);
    (apply throwsParseErrors_bind;
       [first [apply throwsParseErrors_parseTemplate | apply throwsParseErrors_advance]
       | auto with parse_errors]).
Qed.

Lemma throwsParseErrors_parse_loop (fuel : nat) (nodes : list ASTNode) :
  throwsParseErrors (parse_loop fuel nodes).
Proof.
  revert nodes. induction fuel as [|fuel IH]; intros nodes [|t rest] message;
    cbn [parse_loop]; try discriminate.
  apply throwsParseErrors_bind; [apply throwsParseErrors_parseNode | auto].
Qed.

Lemma parse_throws (tokens : list Token) (message : string) :
  parse tokens = Throw message -> ParseErrorMessage message.
Proof.
  destruct (parse_eq tokens) as [(nodes & rest & _ & ->)|(message' & Hloop & ->)];
    [discriminate|].
  intros [= <-]. eapply throwsParseErrors_parse_loop, Hloop.
Qed.

(** No parse error is mistaken for the evaluator's error. *)
Lemma ParseErrorMessage_not_unknown_filter (name : string) :
  ~ ParseErrorMessage ("Unknown filter: " ++ name).
Proof.
  intros [(expected & got & Heq)|(got & Heq)]; simpl in Heq; discriminate.
Qed.

(** ** Equations of the evaluator *)

Section EvaluatorFacts.

Variable registry : gmap string FilterFunction.
Variable context : gmap string Value.

Local Abbreviation eval := (evaluateExpression registry context).

Lemma applyFilter_eq (name : string) (args : list ExpressionNode) (value : Value) :
  applyFilter registry context (Filter name args) value =
  match member registry name with
  | None => Throw (Error ("Unknown filter: " ++ name))
  | Some filterFn =>
      try values <- evaluateArgs registry context args;
      filterFn value values
  end.
Proof.
  cbn [applyFilter]. destruct (member registry name); reflexivity.
Qed.

Lemma evaluateExpression_Pipe (left : ExpressionNode) (filter : FilterNode) :
  eval (PipeNode left filter) =
  try value <- eval left; applyFilter registry context filter value.
Proof. reflexivity. Qed.

Lemma evaluated_Pipe (left : ExpressionNode) (name : string) (args : list ExpressionNode) :
  evaluated registry context (PipeNode left (Filter name args)) =
  (PipeNode left (Filter name args) ::
   evaluated registry context left ++
   match eval left, member registry name with
   | Ok _, Some _ => evaluatedArgs registry context args
   | _, _ => []
   end)%list.
Proof.
  reflexivity.
Qed.

Lemma applied_Pipe (left : ExpressionNode) (name : string) (args : list ExpressionNode) :
  applied registry context (PipeNode left (Filter name args)) =
  (applied registry context left ++
   match eval left with
   | Ok _ =>
       name ::
       match member registry name with
       | Some _ => appliedArgs registry context args
       | None => []
       end
   | Throw _ => []
   end)%list.
Proof. reflexivity. Qed.

(** *** Where an evaluation throws *)

Lemma allFound_app (names names' : list string) :
  allFound registry names -> allFound registry names' ->
  allFound registry (names ++ names').
Proof. intros H H'. apply Forall_app. split; assumption. Qed.

(** What was looked up before does not change how an evaluation ended. *)
Lemma thrownAt_app (names names' : list string) (thrown : Thrown) :
  allFound registry names -> thrownAt registry names' thrown ->
  thrownAt registry (names ++ names') thrown.
Proof.
  intros Hnames [(found & name & -> & Hfound & Hnone & ->)
                |(Hfound & name & filterFn & value & args & Hin & Hsome & Hcall)].
  - left. exists (names ++ found)%list, name. rewrite app_assoc.
    repeat split; [apply allFound_app; assumption | exact Hnone].
  - right. split; [apply allFound_app; assumption|].
    exists name, filterFn, value, args. rewrite in_app_iff. auto.
Qed.

Lemma accounted_app {A} (names names' : list string) (r : completion A) :
  allFound registry names -> accounted registry names' r ->
  accounted registry (names ++ names') r.
Proof.
  destruct r; [apply allFound_app | apply thrownAt_app].
Qed.

Lemma accounted_nil {A} (names : list string) (r : completion A) :
  accounted registry names r -> accounted registry (names ++ []) r.
Proof. rewrite app_nil_r. auto. Qed.

Lemma evaluateArgs_accounted (args : list ExpressionNode) :
  Forall (fun arg => accounted registry (applied registry context arg) (eval arg)) args ->
  accounted registry (appliedArgs registry context args)
    (evaluateArgs registry context args).
Proof.
  induction 1 as [|arg rest Harg _ IH]; [constructor|].
  cbn [appliedArgs evaluateArgs].
  destruct (eval arg) as [v|thrown]; cbn [andThen accounted] in *;
    [|apply accounted_nil with (r := @Throw _ unit thrown), Harg].
  destruct (evaluateArgs registry context rest) as [vs|thrown]; cbn [andThen accounted] in *.
  - apply allFound_app; assumption.
  - apply thrownAt_app; assumption.
Qed.

(** Every evaluation is accounted for by its lookups. *)
Lemma evaluateExpression_accounted (expr : ExpressionNode) :
  accounted registry (applied registry context expr) (eval expr).
Proof.
  induction expr as [name|value|left name args IHleft IHargs
                    |condition trueExpr falseExpr IHc IHt IHf
                    |left right IHl IHr] using ExpressionNode_nested_ind.
  - constructor.
  - constructor.
  - rewrite evaluateExpression_Pipe, applied_Pipe.
    destruct (eval left) as [v|thrown]; cbn [andThen accounted] in *;
      [|apply accounted_nil with (r := @Throw _ unit thrown), IHleft].
    rewrite applyFilter_eq.
    pose proof (evaluateArgs_accounted args IHargs) as Hargs.
    destruct (member registry name) as [filterFn|] eqn:Hname.
    + assert (Hfound : allFound registry (applied registry context left ++ [name])).
      { apply allFound_app; [exact IHleft|]. constructor; [rewrite Hname; eauto | constructor]. }
      change (name :: appliedArgs registry context args)
        with ([name] ++ appliedArgs registry context args)%list.
      rewrite app_assoc.
      destruct (evaluateArgs registry context args) as [vs|thrown]; cbn [andThen accounted] in *;
        [|apply thrownAt_app; assumption].
      destruct (filterFn v vs) as [returned|thrown] eqn:Hcall; cbn [accounted].
      * apply allFound_app; assumption.
      * right. split; [apply allFound_app; assumption|].
        exists name, filterFn, v, vs. rewrite !in_app_iff. cbn [In]. auto.
    + left. exists (applied registry context left), name. auto.
  - cbn [evaluateExpression applied].
    destruct (eval condition) as [c|thrown]; cbn [andThen accounted] in *;
      [|apply accounted_nil with (r := @Throw _ unit thrown), IHc].
    destruct (truthy c); apply accounted_app; assumption.
  - cbn [evaluateExpression applied].
    destruct (eval left) as [l|thrown]; cbn [andThen accounted] in *;
      [|apply accounted_nil with (r := @Throw _ unit thrown), IHl].
    destruct (truthy l); [rewrite app_nil_r; exact IHl|].
    apply accounted_app; assumption.
Qed.

Lemma evaluateNodes_accounted (ast : list ASTNode) :
  accounted registry (appliedNodes registry context ast)
    (evaluateNodes registry context ast).
Proof.
  induction ast as [|[text|expression] rest IH]; cbn [evaluateNodes appliedNodes evaluateNode].
  - constructor.
  - cbn [andThen]. destruct (evaluateNodes registry context rest); exact IH.
  - pose proof (evaluateExpression_accounted expression) as Hexpr.
    destruct (eval expression) as [v|thrown]; cbn [andThen accounted] in *;
      [|apply accounted_nil with (r := @Throw _ unit thrown), Hexpr].
    destruct (evaluateNodes registry context rest) as [parts|thrown];
      cbn [andThen accounted] in *; [apply allFound_app | apply thrownAt_app]; assumption.
Qed.

Lemma evaluate_accounted (ast : list ASTNode) :
  accounted registry (appliedNodes registry context ast) (evaluate registry context ast).
Proof.
  unfold evaluate. pose proof (evaluateNodes_accounted ast) as Hast.
  destruct (evaluateNodes registry context ast); exact Hast.
Qed.

(** A lookup that finds nothing is the last one. *)
Lemma allFound_not_found (names : list string) (name : string) :
  allFound registry names -> In name names -> member registry name = None -> False.
Proof.
  intros Hnames Hin Hnone. unfold allFound in Hnames. rewrite List.Forall_forall in Hnames.
  destruct (Hnames name Hin) as [filterFn Hsome]. congruence.
Qed.

End EvaluatorFacts.

(** ** Falsy bindings and absent variables *)

Section FalsyBinding.

Variable registry : gmap string FilterFunction.
Variable context : gmap string Value.
Variable x : string.
Variable v : Value.
Hypothesis Hfalsy : truthy v = false.
Hypothesis Hplain : inherited x = VUndefined.

Lemma lookupVariable_falsy (name : string) :
  or_else (lookupVariable (<[x := v]> context) name) (VString "") =
  or_else (lookupVariable (delete x context) name) (VString "").
Proof.
  unfold lookupVariable. destruct (decide (x = name)) as [<-|Hne].
  - rewrite lookup_insert_eq, lookup_delete_eq, Hplain.
    unfold or_else. rewrite Hfalsy. reflexivity.
  - rewrite lookup_insert_ne, lookup_delete_ne by exact Hne. reflexivity.
Qed.

Lemma evaluateExpression_falsy (expr : ExpressionNode) :
  evaluateExpression registry (<[x := v]> context) expr =
  evaluateExpression registry (delete x context) expr.
Proof.
  induction expr as [name|value|left name args IHleft IHargs
                    |condition trueExpr falseExpr IHc IHt IHf
                    |left right IHl IHr] using ExpressionNode_nested_ind.
  - cbn [evaluateExpression]. rewrite lookupVariable_falsy. reflexivity.
  - reflexivity.
  - rewrite !evaluateExpression_Pipe, IHleft.
    destruct (evaluateExpression registry (delete x context) left); [|reflexivity].
    cbn [andThen]. rewrite !applyFilter_eq.
    destruct (member registry name); [|reflexivity].
    replace (evaluateArgs registry (<[x := v]> context) args)
      with (evaluateArgs registry (delete x context) args); [reflexivity|].
    induction IHargs as [|arg rest IHarg _ IHrest]; [reflexivity|].
    cbn [evaluateArgs]. rewrite IHarg, IHrest. reflexivity.
  - cbn [evaluateExpression]. rewrite IHc, IHt, IHf. reflexivity.
  - cbn [evaluateExpression]. rewrite IHl, IHr. reflexivity.
Qed.

Lemma evaluate_falsy (ast : list ASTNode) :
  evaluate registry (<[x := v]> context) ast = evaluate registry (delete x context) ast.
Proof.
  unfold evaluate. f_equal.
  induction ast as [|[text|expression] rest IH]; [reflexivity | |];
    cbn [evaluateNodes evaluateNode]; rewrite IH; [reflexivity|].
  rewrite evaluateExpression_falsy. reflexivity.
Qed.

End FalsyBinding.

(** ** Chains of [or] *)

Section OrChain.

Variable registry : gmap string FilterFunction.
Variable context : gmap string Value.

Lemma firstTruthy_eq (first : ExpressionNode) (rest : list ExpressionNode) :
  firstTruthy registry context first rest =
  try v <- evaluateExpression registry context first;
  if truthy v then Ok v
  else match rest with
       | [] => Ok v
       | next :: rest' => firstTruthy registry context next rest'
       end.
Proof. destruct rest; reflexivity. Qed.

Lemma evaluateExpression_orChain (rest : list ExpressionNode) (first : ExpressionNode) :
  evaluateExpression registry context (orChain first rest) = firstTruthy registry context first rest.
Proof.
  revert first. induction rest as [|next rest IH]; intros first.
  - cbn [orChain fold_left firstTruthy].
    destruct (evaluateExpression registry context first) as [v|]; [|reflexivity].
    cbn [andThen]. destruct (truthy v); reflexivity.
  - change (orChain first (next :: rest)) with (orChain (OrNode first next) rest).
    rewrite IH, (firstTruthy_eq (OrNode first next)), (firstTruthy_eq first).
    cbn [evaluateExpression].
    destruct (evaluateExpression registry context first) as [v|]; [|reflexivity].
    cbn [andThen]. destruct (truthy v) eqn:Hv.
    + cbn [andThen]. rewrite Hv. reflexivity.
    + rewrite (firstTruthy_eq next). reflexivity.
Qed.

End OrChain.

(** ** Decimal numerals *)

Lemma digitsValue_of_uint_acc (d : Decimal.uint) (acc : positive) :
  digitsValue (Npos acc) (NilEmpty.string_of_uint d) = Some (Npos (Pos.of_uint_acc d acc)).
Proof.
  revert acc. induction d; intros acc; cbn [NilEmpty.string_of_uint digitsValue Pos.of_uint_acc];
    [reflexivity|..];
    match goal with
    | |- context [is_digit ?c] => change (is_digit c) with true; cbv iota
    end;
    rewrite <- IHd; f_equal.
  all: match goal with
       | |- context [N.of_nat ?n] =>
           let v := eval vm_compute in (N.of_nat n) in change (N.of_nat n) with v
       end; lia.
Qed.

Lemma digitsValue_of_uint (d : Decimal.uint) :
  digitsValue 0 (NilEmpty.string_of_uint d) = Some (Pos.of_uint d).
Proof.
  induction d; cbn [NilEmpty.string_of_uint digitsValue Pos.of_uint];
    [reflexivity|..];
    match goal with
    | |- context [is_digit ?c] => change (is_digit c) with true; cbv iota
    end;
    [exact IHd|..]; apply (digitsValue_of_uint_acc d).
Qed.

Lemma to_uint_canonical (p : positive) :
  exists c rest,
    NilEmpty.string_of_uint (Pos.to_uint p) = String c rest /\ Ascii.eqb c "0" = false.
Proof.
  pose proof (DecimalPos.Unsigned.to_of (Pos.to_uint p)) as Hnorm.
  rewrite DecimalPos.Unsigned.of_to in Hnorm. cbn [N.to_uint] in Hnorm.
  pose proof (DecimalPos.Unsigned.to_uint_nonzero p) as Hnonzero.
  revert Hnorm Hnonzero. generalize (Pos.to_uint p). intros d Hnorm Hnonzero.
  destruct d; cbn [NilEmpty.string_of_uint]; try (eexists _, _; split; reflexivity).
  - discriminate Hnorm.
  - exfalso. rewrite DecimalFacts.unorm_D0 in Hnorm.
    destruct (Decimal.nzhead d) eqn:Hhead;
      [apply Hnonzero; rewrite Hnorm; apply DecimalFacts.unorm_0, Hhead|..];
      rewrite DecimalFacts.unorm_nzhead in Hnorm by (rewrite Hhead; discriminate);
      symmetry in Hnorm; apply DecimalFacts.nzhead_nonzero in Hnorm; exact Hnorm.
Qed.

Lemma naturalValue_to_uint (p : positive) :
  naturalValue (NilEmpty.string_of_uint (Pos.to_uint p)) = Some (Npos p).
Proof.
  destruct (to_uint_canonical p) as (c & rest & Heq & Hc).
  unfold naturalValue. rewrite Heq, Hc. cbn [andb]. rewrite <- Heq.
  rewrite digitsValue_of_uint, DecimalPos.Unsigned.of_to. reflexivity.
Qed.

Lemma string_of_uint_to_uint (p : positive) :
  NilZero.string_of_uint (Pos.to_uint p) = NilEmpty.string_of_uint (Pos.to_uint p).
Proof.
  pose proof (DecimalPos.Unsigned.to_uint_nonnil p).
  unfold NilZero.string_of_uint. destruct (Pos.to_uint p); [contradiction|reflexivity..].
Qed.

(** The numeral that the model prints for an integer writes that integer. *)
Lemma decimalValue_string_of_int (z : Z) :
  decimalValue (NilZero.string_of_int (Z.to_int z)) = Some z.
Proof.
  destruct z as [|p|p]; [reflexivity|..];
    cbn [Z.to_int NilZero.string_of_int]; rewrite string_of_uint_to_uint.
  - pose proof (naturalValue_to_uint p) as Hvalue.
    destruct (to_uint_canonical p) as (c & rest & Heq & Hc). rewrite Heq in *.
    unfold decimalValue. rewrite Hvalue.
    destruct c as [[] [] [] [] [] [] [] []]; try reflexivity.
    exfalso. revert Hvalue. unfold naturalValue. cbn. discriminate.
  - unfold decimalValue. rewrite naturalValue_to_uint. reflexivity.
Qed.

(** ** The cache of compiled templates *)

Lemma cacheConsistent_new : cacheConsistent newTemplateEngine.
Proof. intros template ast. simpl. rewrite lookup_empty. discriminate. Qed.

Lemma cacheConsistent_addFilter (name : string) (fn : FilterFunction) (e : TemplateEngine) :
  cacheConsistent e -> cacheConsistent (addFilter name fn e).
Proof. intros He. exact He. Qed.


Lemma compile_filters (e : TemplateEngine) (template : string) :
  filters (compile e template).2 = filters e.
Proof.
  unfold compile, compileWith.
  destruct (astCache e !! template); [reflexivity|].
  destruct (parseTemplateSource template); reflexivity.
Qed.

Lemma compile_result (e : TemplateEngine) (template : string) :
  cacheConsistent e -> (compile e template).1 = parseTemplateSource template.
Proof.
  intros He. unfold compile, compileWith.
  destruct (astCache e !! template) as [ast|] eqn:Hhit.
  - simpl. symmetry. apply He, Hhit.
  - destruct (parseTemplateSource template); reflexivity.
Qed.

Lemma cacheConsistent_compile (e : TemplateEngine) (template : string) :
  cacheConsistent e -> cacheConsistent (compile e template).2.
Proof.
  intros He. unfold compile, compileWith.
  destruct (astCache e !! template) as [ast|] eqn:Hhit; [exact He|].
  destruct (parseTemplateSource template) as [ast|message] eqn:Hparse; [|exact He].
  intros template' ast'. simpl.
  destruct (decide (template = template')) as [<-|Hne].
  - rewrite lookup_insert_eq. intros [= <-]. exact Hparse.
  - rewrite lookup_insert_ne by exact Hne. apply He.
Qed.

Lemma render_eq (e : TemplateEngine) (template : string) (context : gmap string Value) :
  render e template context =
  (try ast <- rethrow (compile e template).1; evaluate (filters e) context ast,
   (compile e template).2).
Proof.
  unfold render. pose proof (compile_filters e template) as Hf.
  destruct (compile e template) as [[ast|message] e']; simpl in *; [rewrite Hf|]; reflexivity.
Qed.

Lemma render_result (e : TemplateEngine) (template : string) (context : gmap string Value) :
  cacheConsistent e ->
  (render e template context).1 =
  try ast <- rethrow (parseTemplateSource template); evaluate (filters e) context ast.
Proof.
  intros He. rewrite render_eq. simpl. rewrite compile_result by exact He. reflexivity.
Qed.

Lemma cacheConsistent_render (e : TemplateEngine) (template : string)
    (context : gmap string Value) :
  cacheConsistent e -> cacheConsistent (render e template context).2.
Proof. intros He. rewrite render_eq. simpl. apply cacheConsistent_compile, He. Qed.

(** ** Strings *)

Lemma append_nil_r (s : string) : s ++ "" = s.
Proof.
  induction s as [|c s IH]; [reflexivity|].
  change (String c (s ++ "") = String c s). rewrite IH. reflexivity.
Qed.

Lemma push_char_append (s : string) (c : ascii) (rest : string) :
  push_char s c ++ rest = s ++ String c rest.
Proof.
  unfold push_char. induction s as [|d s IH]; [reflexivity|].
  change (String d ((s ++ String c "") ++ rest) = String d (s ++ String c rest)).
  rewrite IH. reflexivity.
Qed.

(** ** Templates without placeholders *)

Lemma containsOpen_cons (c : ascii) (rest : string) :
  containsOpen (String c rest) = false ->
  at_open (String c rest) = false /\ containsOpen rest = false.
Proof. cbn [containsOpen]. intros H. apply orb_false_iff in H. exact H. Qed.

Lemma readText_plain (input text : string) :
  containsOpen input = false -> readText text input = (text ++ input, "").
Proof.
  revert text. induction input as [|c rest IH]; intros text Hplain.
  - simpl. rewrite append_nil_r. reflexivity.
  - apply containsOpen_cons in Hplain as [Hopen Hrest].
    cbn [readText]. rewrite Hopen, IH by exact Hrest.
    rewrite push_char_append. reflexivity.
Qed.

(** A text that contains no [{{] and does not begin with [}}] is one
    [TEXT] token. *)
Lemma tokenize_plain (c : ascii) (rest : string) :
  containsOpen (String c rest) = false ->
  at_close (String c rest) = false ->
  tokenize (String c rest) = [mkToken TEXT (String c rest)].
Proof.
  intros Hplain Hclose. unfold tokenize.
  cbn [String.length]. rewrite tokenize_loop_step. cbv zeta.
  destruct (containsOpen_cons _ _ Hplain) as [-> _]. rewrite Hclose.
  rewrite readText_plain by exact Hplain. cbn [fst snd].
  destruct (String.length rest); reflexivity.
Qed.

(** Such a text is rendered unchanged. *)
Lemma render_plain (e : TemplateEngine) (template : string)
    (context : gmap string Value) :
  cacheConsistent e ->
  containsOpen template = false ->
  at_close template = false ->
  (render e template context).1 = Ok template.
Proof.
  intros He Hplain Hclose. rewrite render_result by exact He.
  unfold parseTemplateSource. destruct template as [|c rest]; [reflexivity|].
  rewrite tokenize_plain by assumption.
  cbn. rewrite append_nil_r. reflexivity.
Qed.

(** The tokens already pushed are a prefix of the result. *)
Lemma tokenize_loop_tokens (fuel : nat) (input : string) (insideTemplate : bool)
    (tokens : list Token) :
  tokenize_loop fuel input insideTemplate tokens =
  app tokens <$> tokenize_loop fuel input insideTemplate [].
Proof.
  revert input insideTemplate tokens.
  induction fuel as [|fuel IH]; intros input insideTemplate tokens.
  - destruct input; simpl; [rewrite app_nil_r|]; reflexivity.
  - destruct input as [|c rest]; [simpl; rewrite app_nil_r; reflexivity|].
    rewrite !tokenize_loop_step. cbv zeta.
    assert (Hpush : forall input' inside' ty v,
      tokenize_loop fuel input' inside' (push tokens ty v) =
      app tokens <$> tokenize_loop fuel input' inside' (push [] ty v)).
    { intros input' inside' ty v.
      rewrite (IH _ _ (push tokens ty v)), (IH _ _ (push [] ty v)).
      destruct (tokenize_loop fuel input' inside' []) as [result|]; [|reflexivity].
      simpl. unfold push. rewrite <- app_assoc. reflexivity. }
    repeat match goal with
    | |- context [if ?b then _ else _] =>
        lazymatch b with
        | String.eqb (readIdentifier _ _).1 _ => fail
        | _ => destruct b
        end
    end; first [apply Hpush | apply IH].
Qed.

(** A leading [}}] is tokenized in text mode as well, and the parser skips
    the token. *)
Lemma tokenize_leading_close (rest : string) :
  tokenize (String "}" (String "}" rest)) = mkToken CLOSE_TEMPLATE "}}" :: tokenize rest.
Proof.
  unfold tokenize at 1. cbn [String.length].
  rewrite tokenize_loop_step. cbv zeta.
  change (at_open (String "}" (String "}" rest))) with false.
  change (at_close (String "}" (String "}" rest))) with true.
  cbn [skip2]. cbv iota.
  rewrite tokenize_loop_tokens, tokenize_loop_fuel by lia. reflexivity.
Qed.

Lemma parse_leading_close (v : string) (tokens : list Token) :
  parse (mkToken CLOSE_TEMPLATE v :: tokens) = parse tokens.
Proof.
  unfold parse. cbn [length].
  change (parse_loop (S (S (length tokens))) [] (mkToken CLOSE_TEMPLATE v :: tokens))
    with ((do node <- parseNode (S (length tokens));
           parse_loop (S (length tokens))
             (match node with Some n => ([] ++ [n])%list | None => [] end))
            (mkToken CLOSE_TEMPLATE v :: tokens)).
  unfold bind at 1. rewrite parseNode_cons. reflexivity.
Qed.

Lemma render_leading_close (e : TemplateEngine) (rest : string)
    (context : gmap string Value) :
  cacheConsistent e ->
  (render e (String "}" (String "}" rest)) context).1 = (render e rest context).1.
Proof.
  intros He. rewrite !render_result by exact He.
  unfold parseTemplateSource. rewrite tokenize_leading_close, parse_leading_close.
  reflexivity.
Qed.

Lemma compile_throws (e : TemplateEngine) (template message : string) :
  (compile e template).1 = Throw message ->
  ParseErrorMessage message /\ (compile e template).2 = e.
Proof.
  unfold compile, compileWith.
  destruct (astCache e !! template) as [ast|]; [discriminate|].
  unfold parseTemplateSource.
  destruct (parse (tokenize template)) as [ast|message'] eqn:Hparse; [discriminate|].
  simpl. intros [= <-]. split; [eapply parse_throws, Hparse | reflexivity].
Qed.

(** * The claims of the specification *)

(** ** C1: rendering one variable *)

Lemma parse_variable_x :
  parseTemplateSource "{{ x }}" = Ok [TemplateNode (VariableNode "x")].
Proof. vm_compute. reflexivity. Qed.

(** C1, as stated, fails: with [x] bound to the number 0 the placeholder
    renders as the empty string, not as ["0"]. *)
Lemma render_variable_zero :
  (render newTemplateEngine "{{ x }}" {["x" := VNumber (Int 0)]}).1 = Ok "" /\
  toString (VNumber (Int 0)) = "0".
Proof. split; vm_compute; reflexivity. Qed.

(** C1 (amended): [render('{{ x }}', context)] returns the string form of
    the value of [x] when that value is truthy, and the empty string when
    the value is falsy or [x] is absent.  The string form of a safe integer
    is a decimal numeral that writes it, that of a boolean is "true" or
    "false", that of a string is the string. *)
Theorem render_variable (e : TemplateEngine) (context : gmap string Value) :
  cacheConsistent e ->
  (forall v, context !! "x" = Some v -> truthy v = true ->
             (render e "{{ x }}" context).1 = Ok (toString v)) /\
  (forall v, context !! "x" = Some v -> truthy v = false ->
             (render e "{{ x }}" context).1 = Ok "") /\
  (context !! "x" = None -> (render e "{{ x }}" context).1 = Ok "") /\
  (forall z safe, decimalValue (toString (VNumber (SafeInteger z safe))) = Some z) /\
  (forall s, toString (VString s) = s) /\
  toString (VBoolean true) = "true" /\ toString (VBoolean false) = "false".
Proof.
  intros He.
  assert (Hrender : (render e "{{ x }}" context).1 =
                    Ok (toString (or_else (lookupVariable context "x") (VString "")))).
  { rewrite render_result by exact He. rewrite parse_variable_x.
    cbn. rewrite append_nil_r. reflexivity. }
  rewrite Hrender. unfold lookupVariable, or_else.
  repeat split.
  - intros v -> Hv. rewrite Hv. reflexivity.
  - intros v -> Hv. rewrite Hv. reflexivity.
  - intros ->. reflexivity.
  - intros z safe. apply decimalValue_string_of_int.
Qed.

Lemma render_variable_witness :
  (render newTemplateEngine "{{ x }}" {["x" := VNumber (Int 42)]}).1 = Ok "42" /\
  (render newTemplateEngine "{{ x }}" {["x" := VBoolean false]}).1 = Ok "" /\
  (render newTemplateEngine "{{ x }}" ∅).1 = Ok "".
Proof.
  split; [|split].
  - apply (proj1 (render_variable newTemplateEngine {["x" := VNumber (Int 42)]}
                    cacheConsistent_new) (VNumber (Int 42))); reflexivity.
  - apply (proj1 (proj2 (render_variable newTemplateEngine {["x" := VBoolean false]}
                    cacheConsistent_new)) (VBoolean false)); reflexivity.
  - apply (proj1 (proj2 (proj2 (render_variable newTemplateEngine ∅ cacheConsistent_new)))).
    reflexivity.
Defined.

(** ** C2: text without placeholders *)

(** C2 at the inputs where the code departs from it: a [}}] at the start of
    the template is dropped, while the same characters after some text are
    kept. *)
Theorem render_leading_close_dropped :
  (render newTemplateEngine "}}" ∅).1 = Ok "" /\
  (render newTemplateEngine "}}a" ∅).1 = Ok "a" /\
  (render newTemplateEngine "a}}" ∅).1 = Ok "a}}".
Proof. repeat split; vm_compute; reflexivity. Qed.

(** ** C3: irregular input inside a placeholder *)





(** ** C4: the unknown filter *)

Lemma evaluateNodes_app (registry : gmap string FilterFunction)
    (context : gmap string Value) (before after : list ASTNode) :
  evaluateNodes registry context (before ++ after) =
  try parts <- evaluateNodes registry context before;
  try parts' <- evaluateNodes registry context after;
  Ok (parts ++ parts')%list.
Proof.
  induction before as [|node before IH]; cbn [app evaluateNodes].
  - cbn [andThen]. destruct (evaluateNodes registry context after); reflexivity.
  - destruct (evaluateNode registry context node) as [s|]; [|reflexivity].
    cbn [andThen]. rewrite IH.
    destruct (evaluateNodes registry context before) as [parts|]; [|reflexivity].
    cbn [andThen].
    destruct (evaluateNodes registry context after) as [parts'|]; reflexivity.
Qed.

(** What was rendered before the node that throws is not returned. *)
Lemma evaluate_app_throws (registry : gmap string FilterFunction)
    (context : gmap string Value) (before after : list ASTNode)
    (rendered : string) (thrown : Thrown) :
  evaluate registry context before = Ok rendered ->
  evaluate registry context after = Throw thrown ->
  evaluate registry context (before ++ after) = Throw thrown.
Proof.
  unfold evaluate. rewrite evaluateNodes_app.
  destruct (evaluateNodes registry context before) as [parts|]; [|discriminate].
  destruct (evaluateNodes registry context after) as [parts'|]; [discriminate|].
  intros _ H. exact H.
Qed.

(** C4 at an input where the code departs from it: [constructor] is not a
    registered filter, and a pipe through it raises no error, because
    [this.filters[filter.name]] finds the member [constructor] that the
    [filters] object inherits from [Object.prototype]: the function
    [Object], which wraps the piped value.  A pipe through [valueOf],
    another member, fails in the call, with a [TypeError].  A name that the
    object does not inherit either is reported. *)
Theorem render_inherited_filter :
  filters newTemplateEngine !! "constructor" = None /\
  ~ In "constructor" (getFilters newTemplateEngine) /\
  (render newTemplateEngine "{{ x | constructor }}" {["x" := VString "a"]}).1 = Ok "a" /\
  (render newTemplateEngine "{{ x | valueOf }}" {["x" := VString "a"]}).1 =
    Throw TypeError /\
  (render newTemplateEngine "{{ x | nope }}" {["x" := VString "a"]}).1 =
    Throw "Unknown filter: nope".
Proof.
  split; [reflexivity|]. split; [|repeat split; vm_compute; reflexivity].
  vm_compute. intuition discriminate.
Qed.

(** ** C5: parse failures *)

(** C5: the three malformed templates make [compile] throw with the stated
    messages, on every engine; and whenever [compile] throws, the message is
    one of the parser's, no tree is returned and none is cached. *)
Theorem compile_parse_failures (e : TemplateEngine) :
  cacheConsistent e ->
  (compile e "{{ name").1 = Throw "Expected CLOSE_TEMPLATE but got EOF" /\
  (compile e "{{ cond ? 'a' }}").1 = Throw "Expected COLON but got CLOSE_TEMPLATE" /\
  (compile e "{{ 123 }}").1 = Throw "Unexpected token: CLOSE_TEMPLATE" /\
  (forall template message,
      (compile e template).1 = Throw message ->
      ParseErrorMessage message /\
      (compile e template).2 = e /\
      astCache (compile e template).2 !! template = None).
Proof.
  intros He. rewrite !compile_result by exact He.
  split; [vm_compute; reflexivity|].
  split; [vm_compute; reflexivity|].
  split; [vm_compute; reflexivity|].
  intros template message Hthrow.
  destruct (compile_throws e template message Hthrow) as [Hparse Hsame].
  split; [exact Hparse|]. split; [exact Hsame|].
  rewrite Hsame. revert Hthrow. unfold compile, compileWith.
  destruct (astCache e !! template); [discriminate | reflexivity].
Qed.

Lemma compile_parse_failures_witness :
  (compile newTemplateEngine "{{ name").1 = Throw "Expected CLOSE_TEMPLATE but got EOF" /\
  (compile newTemplateEngine "{{ name").2 = newTemplateEngine.
Proof.
  pose proof (compile_parse_failures newTemplateEngine cacheConsistent_new)
    as (Hname & _ & _ & Hall).
  split; [exact Hname|].
  exact (proj1 (proj2 (Hall "{{ name" _ Hname))).
Defined.

(** ** C6: truthiness in ternary conditions *)

Lemma parse_ternary_c :
  parseTemplateSource "{{ c ? 'y' : 'n' }}" =
  Ok [TemplateNode (TernaryNode (VariableNode "c") (StringNode "y") (StringNode "n"))].
Proof. vm_compute. reflexivity. Qed.

(** C6, as stated, fails: the number NaN is none of the listed values and
    is falsy all the same. *)
Lemma render_ternary_NaN :
  (render newTemplateEngine "{{ c ? 'y' : 'n' }}" {["c" := VNumber NaN]}).1 = Ok "n" /\
  VNumber NaN <> VNumber (Int 0).
Proof. split; [vm_compute; reflexivity | discriminate]. Qed.

Lemma truthy_false_iff (v : Value) :
  truthy v = false <->
  v = VString "" \/ v = VBoolean false \/ v = VNull \/ v = VUndefined \/
  v = VNumber (Int 0) \/ v = VNumber NaN.
Proof.
  split.
  - destruct v as [s|[z safe| | |]|[|]| | |o]; simpl; intros H;
      try discriminate; auto 6.
    + apply negb_false_iff, String.eqb_eq in H. subst. auto.
    + apply negb_false_iff, Z.eqb_eq in H. subst.
      destruct safe. auto 6.
  - intros [->|[->|[->|[->|[->| ->]]]]]; reflexivity.
Qed.

(** C6 (amended): the condition of a ternary is falsy exactly when its
    value is the empty string, [false], [null], [undefined], 0 or NaN, and
    truthy otherwise; the ternary evaluates to its second operand in the
    one case and to its third in the other.  So
    [render("{{ c ? 'y' : 'n' }}")] is "n" for c = '', c = 0 and c absent,
    and "y" for c = 'x'. *)
Theorem ternary_truthiness (e : TemplateEngine) (context : gmap string Value) :
  cacheConsistent e ->
  (forall v, truthy v = false <->
             v = VString "" \/ v = VBoolean false \/ v = VNull \/ v = VUndefined \/
             v = VNumber (Int 0) \/ v = VNumber NaN) /\
  (forall registry context' condition trueExpr falseExpr,
      evaluateExpression registry context' (TernaryNode condition trueExpr falseExpr) =
      try c <- evaluateExpression registry context' condition;
      if truthy c
      then evaluateExpression registry context' trueExpr
      else evaluateExpression registry context' falseExpr) /\
  (render e "{{ c ? 'y' : 'n' }}" context).1 =
  Ok (if truthy (lookupVariable context "c") then "y" else "n").
Proof.
  intros He. split; [exact truthy_false_iff|]. split; [reflexivity|].
  rewrite render_result by exact He. rewrite parse_ternary_c.
  cbn [rethrow andThen]. unfold evaluate.
  cbn [evaluateNodes evaluateNode evaluateExpression andThen].
  unfold or_else.
  destruct (truthy (lookupVariable context "c")) eqn:Hc; [rewrite Hc|]; reflexivity.
Qed.

Lemma ternary_truthiness_witness :
  (render newTemplateEngine "{{ c ? 'y' : 'n' }}" {["c" := VString ""]}).1 = Ok "n" /\
  (render newTemplateEngine "{{ c ? 'y' : 'n' }}" {["c" := VNumber (Int 0)]}).1 = Ok "n" /\
  (render newTemplateEngine "{{ c ? 'y' : 'n' }}" {["c" := VString "x"]}).1 = Ok "y".
Proof.
  split; [|split].
  - exact (proj2 (proj2 (ternary_truthiness newTemplateEngine {["c" := VString ""]}
                           cacheConsistent_new))).
  - exact (proj2 (proj2 (ternary_truthiness newTemplateEngine {["c" := VNumber (Int 0)]}
                           cacheConsistent_new))).
  - exact (proj2 (proj2 (ternary_truthiness newTemplateEngine {["c" := VString "x"]}
                           cacheConsistent_new))).
Defined.

(** ** C7: chains of [or] *)

Lemma parsePrimary_primary (t : Token) (tokens : list Token) :
  isPrimary t = true ->
  parsePrimary (t :: tokens) = Some (Ok (primaryNode t, tokens)).
Proof.
  destruct t as [ty v]. unfold isPrimary, primaryNode. simpl.
  destruct ty; try discriminate; reflexivity.
Qed.

Lemma match_other (ty : TokenType) (tokens : list Token) :
  (forall t, head tokens = Some t -> type t <> ty) ->
  match_ ty tokens = Some (Ok (None, tokens)).
Proof.
  intros Hother. unfold match_, bind, peek. destruct tokens as [|t rest]; [reflexivity|].
  simpl. destruct (decide (type t = ty)) as [Heq|Hne]; [|reflexivity].
  destruct (Hother t eq_refl Heq).
Qed.

Lemma match_same (ty : TokenType) (v : string) (tokens : list Token) :
  match_ ty (mkToken ty v :: tokens) = Some (Ok (Some (mkToken ty v), tokens)).
Proof.
  unfold match_, bind, peek. simpl.
  destruct (decide (ty = ty)) as [_|Hne]; [reflexivity | destruct (Hne eq_refl)].
Qed.

(** A primary that no [|] follows is a whole pipeline. *)
Lemma parsePipeline_primary (fuel : nat) (t : Token) (tokens : list Token) :
  isPrimary t = true ->
  (forall t', head tokens = Some t' -> type t' <> PIPE) ->
  parsePipeline fuel (t :: tokens) = Some (Ok (primaryNode t, tokens)).
Proof.
  intros Ht Hnext. unfold parsePipeline. unfold bind at 1.
  rewrite parsePrimary_primary by exact Ht.
  destruct fuel; cbn [parsePipelineLoop]; unfold bind;
    rewrite match_other by exact Hnext; reflexivity.
Qed.

Lemma head_orTokens_not_PIPE (operands tail : list Token) :
  endsOrChain tail ->
  forall t, head (orTokens operands ++ tail)%list = Some t -> type t <> PIPE.
Proof.
  intros Htail t. destruct operands as [|o operands]; simpl.
  - intros Hhead. apply (Htail t Hhead).
  - intros [= <-]. discriminate.
Qed.

(** [parseOr] folds its operands to the left. *)
Lemma parseOrLoop_chain (operands : list Token) (fuel : nat) (left : ExpressionNode)
    (tail : list Token) :
  forallb isPrimary operands = true ->
  endsOrChain tail ->
  length operands <= fuel ->
  parseOrLoop fuel left (orTokens operands ++ tail)%list =
  Some (Ok (orChain left (map primaryNode operands), tail)).
Proof.
  revert fuel left.
  induction operands as [|o operands IH]; intros fuel left Hprimary Htail Hfuel.
  - simpl. destruct fuel; cbn [parseOrLoop]; unfold bind;
      (rewrite match_other; [reflexivity|]); intros t Ht; apply (Htail t Ht).
  - destruct fuel as [|fuel]; [simpl in Hfuel; lia|].
    apply andb_true_iff in Hprimary as [Ho Hprimary].
    change (orTokens (o :: operands) ++ tail)%list
      with (mkToken OR "or" :: o :: (orTokens operands ++ tail))%list.
    cbn [parseOrLoop]. unfold bind at 1. rewrite match_same. cbv iota beta.
    unfold bind at 1.
    rewrite parsePipeline_primary;
      [|exact Ho | apply head_orTokens_not_PIPE, Htail].
    rewrite IH; [reflexivity | exact Hprimary | exact Htail | simpl in Hfuel; lia].
Qed.

Lemma parseOr_chain (first : Token) (operands : list Token) (fuel : nat)
    (tail : list Token) :
  isPrimary first = true ->
  forallb isPrimary operands = true ->
  endsOrChain tail ->
  length operands <= fuel ->
  parseOr fuel (first :: orTokens operands ++ tail)%list =
  Some (Ok (orChain (primaryNode first) (map primaryNode operands), tail)).
Proof.
  intros Hfirst Hprimary Htail Hfuel. unfold parseOr. unfold bind at 1.
  rewrite parsePipeline_primary;
    [|exact Hfirst | apply head_orTokens_not_PIPE, Htail].
  apply parseOrLoop_chain; assumption.
Qed.

Lemma parse_or_abc :
  parseTemplateSource "{{ a or b or c }}" =
  Ok [TemplateNode (OrNode (OrNode (VariableNode "a") (VariableNode "b")) (VariableNode "c"))].
Proof. vm_compute. reflexivity. Qed.

(** Variables that are all absent or falsy, then a string literal. *)
Lemma firstTruthy_fallback (registry : gmap string FilterFunction)
    (context : gmap string Value) (names : list string) (first literal : string) :
  Forall (fun name => truthy (lookupVariable context name) = false) (first :: names) ->
  firstTruthy registry context (VariableNode first)
    (map VariableNode names ++ [StringNode literal])%list = Ok (VString literal).
Proof.
  revert first. induction names as [|name names IH]; intros first Hfalsy;
    apply Forall_cons in Hfalsy as [Hfirst Hnames];
    rewrite firstTruthy_eq; cbn [evaluateExpression andThen]; unfold or_else;
    rewrite Hfirst; cbn [truthy String.eqb negb map app].
  - cbn [firstTruthy evaluateExpression andThen].
    destruct (truthy (VString literal)); reflexivity.
  - apply IH, Hnames.
Qed.

(** C7 at an input where the code departs from it: no variable is set in
    the empty context and a string literal ends the chain, yet the chain
    does not evaluate to the literal, because [context[expr.name]] finds
    the member [constructor] that the context inherits from
    [Object.prototype], which is truthy.  With variables whose names the
    context does not inherit, the literal is returned. *)
Theorem render_inherited_or_fallback :
  parseTemplateSource "{{ constructor or 'fallback' }}" =
    Ok [TemplateNode (OrNode (VariableNode "constructor") (StringNode "fallback"))] /\
  (render newTemplateEngine "{{ constructor or 'fallback' }}" ∅).1 =
    Ok "function Object() { [native code] }" /\
  (render newTemplateEngine "{{ a or constructor or 'fallback' }}" ∅).1 =
    Ok "function Object() { [native code] }" /\
  (render newTemplateEngine "{{ a or b or 'fallback' }}" ∅).1 = Ok "fallback".
Proof. repeat split; vm_compute; reflexivity. Qed.

(** ** C8: short circuit *)

Lemma parse_ternaryWithUnknownFilter :
  parseTemplateSource ternaryWithUnknownFilter =
  Ok [TemplateNode
        (TernaryNode (VariableNode "c") (StringNode "y")
           (PipeNode (VariableNode "x") (Filter "nope" [])))].
Proof. vm_compute. reflexivity. Qed.

(** C8: a ternary evaluates its condition and then only the branch that
    the condition selects, and [or] does not evaluate its right operand
    when the left one is truthy: the result and the list of evaluated nodes
    do not involve the other operand.  So a filter that is not registered
    and occurs only in the branch not taken raises no error, as in
    [{{ c ? "y" : x | nope }}] with a truthy [c]. *)
Theorem short_circuit (registry : gmap string FilterFunction)
    (context : gmap string Value) :
  (forall condition trueExpr falseExpr c,
      evaluateExpression registry context condition = Ok c ->
      truthy c = true ->
      evaluateExpression registry context (TernaryNode condition trueExpr falseExpr) =
        evaluateExpression registry context trueExpr /\
      evaluated registry context (TernaryNode condition trueExpr falseExpr) =
        (TernaryNode condition trueExpr falseExpr ::
         evaluated registry context condition ++ evaluated registry context trueExpr)%list) /\
  (forall condition trueExpr falseExpr c,
      evaluateExpression registry context condition = Ok c ->
      truthy c = false ->
      evaluateExpression registry context (TernaryNode condition trueExpr falseExpr) =
        evaluateExpression registry context falseExpr /\
      evaluated registry context (TernaryNode condition trueExpr falseExpr) =
        (TernaryNode condition trueExpr falseExpr ::
         evaluated registry context condition ++ evaluated registry context falseExpr)%list) /\
  (forall left right l,
      evaluateExpression registry context left = Ok l ->
      truthy l = true ->
      evaluateExpression registry context (OrNode left right) = Ok l /\
      evaluated registry context (OrNode left right) =
        OrNode left right :: evaluated registry context left) /\
  (forall e,
      cacheConsistent e ->
      filters e = registry ->
      registry !! "nope" = None ->
      truthy (lookupVariable context "c") = true ->
      (render e ternaryWithUnknownFilter context).1 = Ok "y" /\
      (render e "{{ x | nope }}" context).1 = Throw "Unknown filter: nope").
Proof.
  split; [|split; [|split]].
  - intros condition trueExpr falseExpr c Hc Htruthy.
    cbn [evaluateExpression evaluated]. rewrite Hc. cbn [andThen]. rewrite Htruthy.
    split; reflexivity.
  - intros condition trueExpr falseExpr c Hc Hfalsy.
    cbn [evaluateExpression evaluated]. rewrite Hc. cbn [andThen]. rewrite Hfalsy.
    split; reflexivity.
  - intros left right l Hl Htruthy.
    cbn [evaluateExpression evaluated]. rewrite Hl. cbn [andThen]. rewrite Htruthy.
    rewrite app_nil_r. split; reflexivity.
  - intros e He <- Hnope Hc. rewrite !render_result by exact He. split.
    + rewrite parse_ternaryWithUnknownFilter.
      cbn [rethrow andThen]. unfold evaluate.
      cbn [evaluateNodes evaluateNode evaluateExpression andThen].
      assert (Hor : truthy (or_else (lookupVariable context "c") (VString "")) = true)
        by (unfold or_else; rewrite Hc; exact Hc).
      rewrite Hor. reflexivity.
    + replace (parseTemplateSource "{{ x | nope }}")
        with (Ok [TemplateNode (PipeNode (VariableNode "x") (Filter "nope" []))]
              : result (list ASTNode))
        by (vm_compute; reflexivity).
      cbn [rethrow andThen]. unfold evaluate. cbn [andThen evaluateNodes evaluateNode].
      rewrite evaluateExpression_Pipe. cbn [evaluateExpression andThen].
      rewrite applyFilter_eq. unfold member, FilterFunction in *.
      rewrite Hnope. reflexivity.
Qed.

Lemma short_circuit_witness :
  (render newTemplateEngine ternaryWithUnknownFilter {["c" := VString "x"]}).1 = Ok "y" /\
  (render newTemplateEngine "{{ x | nope }}" {["c" := VString "x"]}).1 =
    Throw "Unknown filter: nope".
Proof.
  apply (proj2 (proj2 (proj2 (short_circuit builtin_filters {["c" := VString "x"]})))
           newTemplateEngine cacheConsistent_new); reflexivity.
Defined.

(** ** C9: the compile cache *)

Lemma compile_twice (e : TemplateEngine) (template : string) :
  compile (compile e template).2 template = compile e template.
Proof.
  unfold compile, compileWith.
  destruct (astCache e !! template) as [ast|] eqn:Hhit; cbn [snd].
  - rewrite Hhit. reflexivity.
  - destruct (parseTemplateSource template) as [ast|message] eqn:Hparse; cbn [snd astCache].
    + rewrite lookup_insert_eq. reflexivity.
    + rewrite Hhit. reflexivity.
Qed.





(** ** C10: falsy bindings *)

(** C10 fails on a variable that has the name of a member of
    [Object.prototype]: [context[expr.name]] finds the member when the
    context has no such key.  Bound to 0, [constructor] evaluates to the
    empty string; absent, it evaluates to the function [Object], which is
    truthy, so the two contexts render differently, alone, before an [or]
    and as the condition of a ternary. *)
Theorem render_inherited_variable :
  evaluateExpression builtin_filters {["constructor" := VNumber (Int 0)]}
    (VariableNode "constructor") = Ok (VString "") /\
  evaluateExpression builtin_filters ∅ (VariableNode "constructor") =
    Ok (VObject (Method Object_constructor)) /\
  (render newTemplateEngine "{{ constructor }}" {["constructor" := VNumber (Int 0)]}).1 =
    Ok "" /\
  (render newTemplateEngine "{{ constructor }}" ∅).1 =
    Ok "function Object() { [native code] }" /\
  (render newTemplateEngine "{{ constructor or 'none' }}"
     {["constructor" := VNumber (Int 0)]}).1 = Ok "none" /\
  (render newTemplateEngine "{{ constructor or 'none' }}" ∅).1 =
    Ok "function Object() { [native code] }" /\
  (render newTemplateEngine "{{ constructor ? 'y' : 'n' }}"
     {["constructor" := VNumber (Int 0)]}).1 = Ok "n" /\
  (render newTemplateEngine "{{ constructor ? 'y' : 'n' }}" ∅).1 = Ok "y".
Proof. repeat split; vm_compute; reflexivity. Qed.

(** * Further properties of the engine *)

(** X1: the tokenizer terminates on every input: as many iterations of its
    main loop as the input has characters are enough, and any larger bound
    gives the same tokens. *)
Theorem tokenize_terminates (input : string) (fuel : nat) :
  String.length input <= fuel ->
  tokenize_loop fuel input false [] = Some (tokenize input).
Proof.
  intros Hfuel. eapply tokenize_loop_more_fuel; [apply tokenize_eq | exact Hfuel].
Qed.

Lemma tokenize_terminates_witness :
  tokenize_loop 20 "a {{ b }}" false [] =
  Some [mkToken TEXT "a "; mkToken OPEN_TEMPLATE "{{"; mkToken IDENTIFIER "b";
        mkToken CLOSE_TEMPLATE "}}"].
Proof. apply (tokenize_terminates "a {{ b }}" 20). simpl. lia. Defined.

(** X2: the parser terminates on every token list: one more unit of fuel
    than there are tokens is enough, and [parse] returns the tree of the
    loop or throws its error. *)
Theorem parse_terminates (tokens : list Token) :
  exists outcome,
    parse_loop (S (length tokens)) [] tokens = Some outcome /\
    parse tokens =
    match outcome with
    | Ok (nodes, _) => Ok nodes
    | Throw message => Throw message
    end.
Proof.
  destruct (parse_eq tokens) as [(nodes & rest & Hloop & Hparse)|(message & Hloop & Hparse)].
  - exists (Ok (nodes, rest)). split; assumption.
  - exists (Throw message). split; assumption.
Qed.

(** X3: a template that contains no [{{] and does not begin with [}}] is
    rendered unchanged, in every context. *)
Theorem render_text_unchanged (e : TemplateEngine) (template : string)
    (context : gmap string Value) :
  cacheConsistent e ->
  containsOpen template = false ->
  at_close template = false ->
  (render e template context).1 = Ok template.
Proof. apply render_plain. Qed.

Lemma render_text_unchanged_witness :
  (render newTemplateEngine "No templates here" ∅).1 = Ok "No templates here".
Proof.
  apply (render_text_unchanged newTemplateEngine "No templates here" ∅ cacheConsistent_new);
    reflexivity.
Defined.

Lemma tokenize_loop_text_tokens (fuel : nat) (input : string) (insideTemplate : bool)
    (tokens result : list Token) :
  Forall (fun t => type t = TEXT -> value t <> "") tokens ->
  tokenize_loop fuel input insideTemplate tokens = Some result ->
  Forall (fun t => type t = TEXT -> value t <> "") result.
Proof.
  revert input insideTemplate tokens.
  induction fuel as [|fuel IH]; intros input insideTemplate tokens Htokens Hrun.
  - destruct input; [|discriminate]. injection Hrun as <-. exact Htokens.
  - destruct input as [|c rest]; [injection Hrun as <-; exact Htokens|].
    rewrite tokenize_loop_step in Hrun. cbv zeta in Hrun.
    assert (Hpush : forall ty v, (ty = TEXT -> v <> "") ->
      Forall (fun t => type t = TEXT -> value t <> "") (push tokens ty v)).
    { intros ty v Hv. unfold push. apply Forall_app. split; [exact Htokens|].
      apply Forall_cons. split; [exact Hv | apply Forall_nil; exact I]. }
    repeat match type of Hrun with
    | context [if ?b then _ else _] =>
        lazymatch b with
        | String.eqb (readIdentifier _ _).1 _ => fail
        | _ => destruct b eqn:?
        end
    end;
      try (eapply IH; [|exact Hrun]; first [exact Htokens | apply Hpush; discriminate]).
    + eapply IH; [|exact Hrun]. apply Hpush.
      destruct (String.eqb _ "or"); discriminate.
    + eapply IH; [|exact Hrun]. apply Hpush. intros _.
      apply String.eqb_neq. assumption.
Qed.

(** X4: the tokenizer emits no empty TEXT token, so consecutive
    placeholders have no text node between them: [{{a}}{{b}}] compiles to
    exactly two template nodes. *)
Theorem no_empty_text_token (input : string) :
  Forall (fun t => type t = TEXT -> value t <> "") (tokenize input) /\
  parseTemplateSource "{{a}}{{b}}" =
    Ok [TemplateNode (VariableNode "a"); TemplateNode (VariableNode "b")].
Proof.
  split; [|vm_compute; reflexivity].
  eapply tokenize_loop_text_tokens; [|apply tokenize_eq]. apply Forall_nil. exact I.
Qed.

(** X7: the public methods keep the cache consistent with the parser: it
    is so in a new engine, and [addFilter], [compile] and [render] preserve
    it. *)
Theorem cache_invariant :
  cacheConsistent newTemplateEngine /\
  (forall e name fn, cacheConsistent e -> cacheConsistent (addFilter name fn e)) /\
  (forall e template, cacheConsistent e -> cacheConsistent (compile e template).2) /\
  (forall e template context,
      cacheConsistent e -> cacheConsistent (render e template context).2).
Proof.
  split; [exact cacheConsistent_new|].
  split; [intros e name fn; apply cacheConsistent_addFilter|].
  split; [intros e template; apply cacheConsistent_compile|].
  intros e template context. apply cacheConsistent_render.
Qed.

Lemma cache_invariant_witness :
  cacheConsistent (render newTemplateEngine "{{ a }}" ∅).2.
Proof.
  apply (proj2 (proj2 (proj2 cache_invariant)) newTemplateEngine "{{ a }}" ∅).
  apply (proj1 cache_invariant).
Defined.

(** * Further properties: evaluation, registry and cache *)

Lemma append_assoc (a b c : string) : (a ++ b) ++ c = a ++ (b ++ c).
Proof.
  induction a as [|x a IH]; [reflexivity|].
  change (String x ((a ++ b) ++ c) = String x (a ++ (b ++ c))). rewrite IH. reflexivity.
Qed.

Lemma join_app (parts parts' : list string) :
  join (parts ++ parts')%list = join parts ++ join parts'.
Proof.
  induction parts as [|part parts IH]; [reflexivity|].
  change (part ++ join (parts ++ parts')%list = (part ++ join parts) ++ join parts').
  rewrite IH, append_assoc. reflexivity.
Qed.

(** X8: rendering is compositional: the rendering of two trees one after
    the other is the concatenation of their renderings, and it throws the
    error of the first of the two that throws. *)
Theorem evaluate_app (registry : gmap string FilterFunction)
    (context : gmap string Value) (before after : list ASTNode) :
  evaluate registry context (before ++ after) =
  try rendered <- evaluate registry context before;
  try rendered' <- evaluate registry context after;
  Ok (rendered ++ rendered').
Proof.
  unfold evaluate. rewrite evaluateNodes_app.
  destruct (evaluateNodes registry context before) as [parts|]; [|reflexivity].
  cbn [andThen].
  destruct (evaluateNodes registry context after) as [parts'|]; [|reflexivity].
  cbn [andThen]. rewrite join_app. reflexivity.
Qed.

Lemma applied_filterNames (registry : gmap string FilterFunction)
    (context : gmap string Value) (expr : ExpressionNode) (name : string) :
  In name (applied registry context expr) -> In name (filterNames expr).
Proof.
  induction expr as [x|value|left name0 args IHleft IHargs
                    |condition trueExpr falseExpr IHc IHt IHf
                    |left right IHl IHr] using ExpressionNode_nested_ind.
  - intros [].
  - intros [].
  - rewrite applied_Pipe. cbn [filterNames]. rewrite !in_app_iff.
    intros [Hin|Hin]; [auto|].
    destruct (evaluateExpression registry context left); [|destruct Hin].
    destruct Hin as [<-|Hin]; [right; left; reflexivity|].
    right. right.
    destruct (member registry name0); [|destruct Hin].
    induction IHargs as [|arg rest IHarg _ IHrest]; [destruct Hin|].
    cbn [appliedArgs flat_map] in *. rewrite in_app_iff in *.
    destruct Hin as [Hin|Hin]; [auto|].
    destruct (evaluateExpression registry context arg); [auto | destruct Hin].
  - cbn [applied filterNames]. rewrite !in_app_iff. intros [Hin|Hin]; [auto|].
    destruct (evaluateExpression registry context condition) as [c|]; [|destruct Hin].
    destruct (truthy c); auto.
  - cbn [applied filterNames]. rewrite !in_app_iff. intros [Hin|Hin]; [auto|].
    destruct (evaluateExpression registry context left) as [l|]; [|destruct Hin].
    destruct (truthy l); [destruct Hin | auto].
Qed.

Lemma appliedNodes_filterNames (registry : gmap string FilterFunction)
    (context : gmap string Value) (ast : list ASTNode) (name : string) :
  In name (appliedNodes registry context ast) ->
  In name (flat_map nodeFilterNames ast).
Proof.
  induction ast as [|[text|expression] rest IH]; cbn [appliedNodes flat_map nodeFilterNames].
  - intros [].
  - exact IH.
  - rewrite !in_app_iff. intros [Hin|Hin].
    + left. eapply applied_filterNames, Hin.
    + destruct (evaluateExpression registry context expression); [auto | destruct Hin].
Qed.

Lemma member_registered (registry : gmap string FilterFunction) (name : string)
    (filterFn : FilterFunction) :
  registry !! name = Some filterFn -> member registry name = Some filterFn.
Proof. intros Hname. unfold member, FilterFunction in *. rewrite Hname. reflexivity. Qed.

(** X9: a tree all of whose filters are registered, with functions that
    return a value whatever they are applied to, is rendered without an
    error, in every context; so [render] returns a string for every
    template that parses and names such filters only. *)
Theorem render_succeeds (e : TemplateEngine) (template : string)
    (context : gmap string Value) (ast : list ASTNode) :
  cacheConsistent e ->
  parseTemplateSource template = Ok ast ->
  (forall name,
      In name (flat_map nodeFilterNames ast) ->
      exists filterFn,
        filters e !! name = Some filterFn /\
        forall value args, exists returned, filterFn value args = Ok returned) ->
  exists rendered,
    evaluate (filters e) context ast = Ok rendered /\
    (render e template context).1 = Ok rendered.
Proof.
  intros He Hparse Hregistered.
  rewrite render_result by exact He. rewrite Hparse. cbn [rethrow andThen].
  pose proof (evaluate_accounted (filters e) context ast) as Haccounted.
  destruct (evaluate (filters e) context ast) as [rendered|thrown]; [eauto|].
  exfalso.
  destruct Haccounted as [(found & name & Hnames & _ & Hnone & _)
                         |(_ & name & filterFn & value & args & Hin & Hsome & Hcall)].
  - destruct (Hregistered name) as (filterFn & Hname & _).
    { eapply appliedNodes_filterNames. rewrite Hnames, in_app_iff. right. left. reflexivity. }
    apply member_registered in Hname. congruence.
  - destruct (Hregistered name) as (filterFn' & Hname & Hreturns).
    { eapply appliedNodes_filterNames, Hin. }
    apply member_registered in Hname.
    assert (filterFn' = filterFn) as -> by congruence.
    destruct (Hreturns value args) as [returned Hreturned]. congruence.
Qed.

Lemma render_succeeds_witness :
  exists rendered,
    evaluate (filters newTemplateEngine) ∅
      [TemplateNode (PipeNode (VariableNode "a") (Filter "upper" []))] = Ok rendered /\
    (render newTemplateEngine "{{ a | upper }}" ∅).1 = Ok rendered.
Proof.
  apply (render_succeeds newTemplateEngine "{{ a | upper }}" ∅
           [TemplateNode (PipeNode (VariableNode "a") (Filter "upper" []))]
           cacheConsistent_new).
  - vm_compute. reflexivity.
  - intros name [<-|[]]. eexists. split; [vm_compute; reflexivity|].
    intros value args. eexists. reflexivity.
Defined.

(** X10: the value of an expression depends on the context only through
    the variables that occur in it: two contexts that agree on them give
    the same result, for expressions and for whole trees. *)
Theorem evaluate_frame (registry : gmap string FilterFunction)
    (context context' : gmap string Value) :
  (forall expr,
      (forall x, In x (variables expr) -> context !! x = context' !! x) ->
      evaluateExpression registry context expr =
      evaluateExpression registry context' expr) /\
  (forall ast,
      (forall x, In x (flat_map nodeVariables ast) -> context !! x = context' !! x) ->
      evaluate registry context ast = evaluate registry context' ast).
Proof.
  assert (Hexpr : forall expr,
    (forall x, In x (variables expr) -> context !! x = context' !! x) ->
    evaluateExpression registry context expr = evaluateExpression registry context' expr).
  { intros expr.
    induction expr as [x|value|left name args IHleft IHargs
                      |condition trueExpr falseExpr IHc IHt IHf
                      |left right IHl IHr] using ExpressionNode_nested_ind;
      cbn [variables]; intros Hagree.
    - cbn [evaluateExpression]. unfold lookupVariable.
      rewrite (Hagree x) by (left; reflexivity). reflexivity.
    - reflexivity.
    - rewrite !evaluateExpression_Pipe.
      rewrite IHleft by (intros x Hx; apply Hagree, in_or_app; left; exact Hx).
      destruct (evaluateExpression registry context' left); [|reflexivity].
      cbn [andThen]. rewrite !applyFilter_eq.
      destruct (member registry name); [|reflexivity].
      replace (evaluateArgs registry context args)
        with (evaluateArgs registry context' args); [reflexivity|].
      assert (Hargs : forall x, In x (flat_map variables args) ->
                                context !! x = context' !! x)
        by (intros x Hx; apply Hagree, in_or_app; right; exact Hx).
      clear Hagree IHleft.
      induction IHargs as [|arg rest IHarg _ IHrest]; [reflexivity|].
      cbn [evaluateArgs flat_map] in *.
      rewrite IHarg by (intros x Hx; apply Hargs, in_or_app; left; exact Hx).
      rewrite IHrest by (intros x Hx; apply Hargs, in_or_app; right; exact Hx).
      reflexivity.
    - cbn [evaluateExpression].
      rewrite IHc, IHt, IHf; [reflexivity | | |];
        intros x Hx; apply Hagree; rewrite ?in_app_iff; tauto.
    - cbn [evaluateExpression].
      rewrite IHl, IHr; [reflexivity | |]; intros x Hx; apply Hagree, in_or_app; auto. }
  split; [exact Hexpr|].
  intros ast Hagree. unfold evaluate. f_equal.
  induction ast as [|[text|expression] rest IH]; [reflexivity | |];
    cbn [evaluateNodes evaluateNode flat_map nodeVariables] in *.
  - rewrite IH by exact Hagree. reflexivity.
  - rewrite Hexpr by (intros x Hx; apply Hagree, in_or_app; left; exact Hx).
    rewrite IH by (intros x Hx; apply Hagree, in_or_app; right; exact Hx).
    reflexivity.
Qed.

Lemma evaluate_frame_witness :
  evaluateExpression builtin_filters {["a" := VString "x"]} (VariableNode "b") =
  evaluateExpression builtin_filters ∅ (VariableNode "b").
Proof.
  apply (proj1 (evaluate_frame builtin_filters {["a" := VString "x"]} ∅)).
  intros x [<-|[]]. reflexivity.
Defined.






Lemma compile_addFilter (e : TemplateEngine) (name : string) (fn : FilterFunction)
    (template : string) :
  compile (addFilter name fn e) template =
  ((compile e template).1, addFilter name fn (compile e template).2).
Proof.
  unfold compile, compileWith, addFilter. cbn [astCache filters].
  destruct (astCache e !! template); [reflexivity|].
  destruct (parseTemplateSource template); reflexivity.
Qed.

(** X12: the cache holds trees, not results, and [addFilter] leaves it
    alone: registering a filter before or after a template is compiled
    gives the same engine, and a template compiled earlier is rendered with
    the filter registered since. *)
Theorem addFilter_keeps_cache (e : TemplateEngine) (name : string)
    (fn : FilterFunction) (template : string) (context : gmap string Value) :
  astCache (addFilter name fn e) = astCache e /\
  compile (addFilter name fn e) template =
    ((compile e template).1, addFilter name fn (compile e template).2) /\
  render (addFilter name fn (compile e template).2) template context =
  render (addFilter name fn e) template context.
Proof.
  split; [reflexivity|]. split; [apply compile_addFilter|].
  rewrite !render_eq, !compile_addFilter, compile_twice.
  cbn [fst snd addFilter filters]. rewrite compile_filters. reflexivity.
Qed.










(** X14: caching is transparent: on an engine whose cache is consistent,
    what [render] returns does not depend on which templates were compiled
    or rendered before. *)
Theorem render_ignores_history (e : TemplateEngine) (template template' : string)
    (context context' : gmap string Value) :
  cacheConsistent e ->
  (render (render e template' context').2 template context).1 =
    (render e template context).1 /\
  (render (compile e template').2 template context).1 =
    (render e template context).1.
Proof.
  intros He.
  assert (Hcompile : (render (compile e template').2 template context).1 =
                     (render e template context).1).
  { rewrite !render_result,
      compile_filters by (try apply cacheConsistent_compile; exact He).
    reflexivity. }
  split; [|exact Hcompile].
  rewrite (render_eq e template' context'). cbn [snd]. exact Hcompile.
Qed.

Lemma render_ignores_history_witness :
  (render (render newTemplateEngine "{{ b }}" ∅).2 "{{ a }}" {["a" := VString "x"]}).1 =
  (render newTemplateEngine "{{ a }}" {["a" := VString "x"]}).1.
Proof.
  apply (render_ignores_history newTemplateEngine "{{ a }}" "{{ b }}"
           {["a" := VString "x"]} ∅ cacheConsistent_new).
Defined.

(** * Further properties: the built-in filters *)

Lemma prefix_append (a b : string) :
  String.prefix a b = true <-> exists post, b = a ++ post.
Proof.
  revert b. induction a as [|c a IH]; intros b.
  - split; [intros _; exists b; reflexivity | intros _; destruct b; reflexivity].
  - destruct b as [|d b]; cbn [String.prefix].
    + split; [discriminate | intros [post Heq]; discriminate].
    + destruct (ascii_dec c d) as [->|Hne].
      * rewrite IH. split; intros [post Heq]; exists post.
        -- rewrite Heq. reflexivity.
        -- change (String d b = String d (a ++ post)) in Heq. congruence.
      * split; [discriminate|]. intros [post Heq].
        change (String d b = String c (a ++ post)) in Heq. congruence.
Qed.

Lemma includes_cons (c : ascii) (rest search : string) :
  includes (String c rest) search =
  String.prefix search (String c rest) || includes rest search.
Proof. reflexivity. Qed.

Lemma includes_substring (s search : string) :
  includes s search = true <-> exists pre post, s = pre ++ search ++ post.
Proof.
  induction s as [|c rest IH].
  - change (includes "" search) with (String.prefix search "" || false).
    rewrite orb_false_r, prefix_append. split.
    + intros [post Heq]. exists "", post. exact Heq.
    + intros (pre & post & Heq). destruct pre; [|discriminate]. exists post. exact Heq.
  - rewrite includes_cons, orb_true_iff, prefix_append, IH. split.
    + intros [[post Heq]|(pre & post & Heq)].
      * exists "", post. exact Heq.
      * exists (String c pre), post. rewrite Heq. reflexivity.
    + intros (pre & post & Heq). destruct pre as [|d pre].
      * left. exists post. exact Heq.
      * right. exists pre, post.
        change (String c rest = String d (pre ++ search ++ post)) in Heq. congruence.
Qed.

(** X15: the built-in filter [includes] answers [true] exactly when the
    string form of its first argument occurs in the string form of the
    piped value, and [false] otherwise; further arguments are ignored, and
    without an argument it searches for "undefined". *)
Theorem includes_filter (context : gmap string Value) (left : ExpressionNode)
    (args : list ExpressionNode) (v : Value) (vs : list Value) :
  evaluateExpression builtin_filters context left = Ok v ->
  evaluateArgs builtin_filters context args = Ok vs ->
  exists b,
    evaluateExpression builtin_filters context (PipeNode left (Filter "includes" args)) =
      Ok (VBoolean b) /\
    (b = true <->
     exists pre post, toString v = pre ++ toString (argument 0 vs) ++ post) /\
    (vs = [] -> toString (argument 0 vs) = "undefined").
Proof.
  intros Hleft Hargs.
  exists (includes (toString v) (toString (argument 0 vs))).
  split; [|split].
  - rewrite evaluateExpression_Pipe, Hleft. cbn [andThen].
    rewrite applyFilter_eq, Hargs. reflexivity.
  - apply includes_substring.
  - intros ->. reflexivity.
Qed.

Lemma includes_filter_witness :
  exists b,
    evaluateExpression builtin_filters {["name" := VString "john"]}
      (PipeNode (VariableNode "name") (Filter "includes" [StringNode "oh"])) =
      Ok (VBoolean b) /\
    (b = true <-> exists pre post, "john" = pre ++ "oh" ++ post) /\
    ([VString "oh"] = [] -> toString (argument 0 [VString "oh"]) = "undefined").
Proof.
  apply (includes_filter {["name" := VString "john"]} (VariableNode "name")
           [StringNode "oh"] (VString "john") [VString "oh"]); reflexivity.
Defined.

Lemma lower_upper_char (c : ascii) :
  lower_char (lower_char c) = lower_char c /\
  upper_char (upper_char c) = upper_char c /\
  upper_char (lower_char c) = upper_char c /\
  lower_char (upper_char c) = lower_char c /\
  ((code c <? 128)%nat = true ->
   (code (lower_char c) <? 128)%nat = true /\ (code (upper_char c) <? 128)%nat = true).
Proof.
  destruct c as [[] [] [] [] [] [] [] []]; vm_compute; repeat split; congruence.
Qed.

Lemma map_string_length (f : ascii -> ascii) (s : string) :
  String.length (map_string f s) = String.length s.
Proof. induction s as [|c s IH]; [reflexivity|]. simpl. rewrite IH. reflexivity. Qed.

Lemma map_string_compose (f g h : ascii -> ascii) (s : string) :
  (forall c, f (g c) = h c) -> map_string f (map_string g s) = map_string h s.
Proof.
  intros Hfg. induction s as [|c s IH]; [reflexivity|].
  cbn [map_string]. rewrite Hfg, IH. reflexivity.
Qed.

Lemma map_string_ascii (f : ascii -> ascii) (s : string) :
  (forall c, (code c <? 128)%nat = true -> (code (f c) <? 128)%nat = true) ->
  isAscii s = true -> isAscii (map_string f s) = true.
Proof.
  intros Hf. induction s as [|c s IH]; [reflexivity|].
  cbn [isAscii map_string]. rewrite !andb_true_iff. intros [Hc Hs]. auto.
Qed.

Lemma capitalize_compose (f : ascii -> ascii) (s : string) :
  (forall c, upper_char (f c) = upper_char c) ->
  (forall c, lower_char (f c) = lower_char c) ->
  capitalize (map_string f s) = capitalize s.
Proof.
  intros Hupper Hlower. destruct s as [|c rest]; [reflexivity|].
  cbn [map_string capitalize]. rewrite Hupper. f_equal.
  apply map_string_compose, Hlower.
Qed.

(** X16: on ASCII strings the case mappings of the built-in filters keep
    the length, are idempotent, and the last one applied wins
    ([upper] after [lower] is [upper], [lower] after [upper] is [lower],
    [capitalize] after either is [capitalize]); [capitalize] is idempotent
    and is the first character in upper case followed by the rest in lower
    case. *)
Theorem case_filters (s : string) :
  isAscii s = true ->
  (String.length (toLowerCase s) = String.length s /\
   String.length (toUpperCase s) = String.length s /\
   String.length (capitalize s) = String.length s) /\
  (toLowerCase (toLowerCase s) = toLowerCase s /\
   toUpperCase (toUpperCase s) = toUpperCase s /\
   capitalize (capitalize s) = capitalize s) /\
  (toUpperCase (toLowerCase s) = toUpperCase s /\
   toLowerCase (toUpperCase s) = toLowerCase s /\
   capitalize (toLowerCase s) = capitalize s /\
   capitalize (toUpperCase s) = capitalize s) /\
  (isAscii (toLowerCase s) = true /\ isAscii (toUpperCase s) = true /\
   isAscii (capitalize s) = true) /\
  (forall c rest, s = String c rest ->
                  capitalize s = String (upper_char c) (toLowerCase rest)).
Proof.
  intros Hascii. unfold toLowerCase, toUpperCase.
  split; [|split; [|split; [|split]]].
  - split; [apply map_string_length|]. split; [apply map_string_length|].
    destruct s as [|c rest]; [reflexivity|].
    cbn [capitalize String.length]. unfold toLowerCase.
    rewrite map_string_length. reflexivity.
  - split; [apply map_string_compose; intros c; apply lower_upper_char|].
    split; [apply map_string_compose; intros c; apply lower_upper_char|].
    destruct s as [|c rest]; [reflexivity|].
    cbn [capitalize]. f_equal; [apply lower_upper_char|].
    unfold toLowerCase. apply map_string_compose. intros d. apply lower_upper_char.
  - split; [apply map_string_compose; intros c; apply lower_upper_char|].
    split; [apply map_string_compose; intros c; apply lower_upper_char|].
    split; apply capitalize_compose; intros c; apply lower_upper_char.
  - split; [apply map_string_ascii;
              [intros c Hc; apply (lower_upper_char c), Hc | exact Hascii]|].
    split; [apply map_string_ascii;
              [intros c Hc; apply (lower_upper_char c), Hc | exact Hascii]|].
    destruct s as [|c rest]; [reflexivity|].
    cbn [capitalize isAscii] in *.
    apply andb_true_iff in Hascii as [Hc Hrest]. apply andb_true_iff. split.
    + apply (lower_upper_char c), Hc.
    + apply map_string_ascii; [intros d Hd; apply (lower_upper_char d), Hd | exact Hrest].
  - intros c rest ->. reflexivity.
Qed.

Lemma case_filters_witness :
  toUpperCase (toLowerCase "JoHn") = toUpperCase "JoHn" /\
  capitalize (capitalize "jOHN") = capitalize "jOHN".
Proof.
  split.
  - exact (proj1 (proj1 (proj2 (proj2 (case_filters "JoHn" eq_refl))))).
  - exact (proj2 (proj2 (proj1 (proj2 (case_filters "jOHN" eq_refl))))).
Defined.

(** * Further properties: the parser and the grammar *)

Lemma parseFilterArgs_primaries (args : list ExpressionNode) (fuel : nat)
    (parsed : list ExpressionNode) (rest : list Token) :
  forallb isPrimaryNode args = true ->
  argumentsEnd rest ->
  length args <= fuel ->
  parseFilterArgs fuel parsed (flat_map expressionTokens args ++ rest)%list =
  Some (Ok ((parsed ++ args)%list, rest)).
Proof.
  revert fuel parsed.
  induction args as [|arg args IH]; intros fuel parsed Hprimary Hend Hfuel.
  - rewrite app_nil_r. cbn [flat_map app].
    destruct fuel; cbn [parseFilterArgs]; unfold bind, peek;
      (destruct rest as [|t rest]; cbn [head]; [reflexivity|]);
      rewrite (Hend t eq_refl); reflexivity.
  - destruct fuel as [|fuel]; [simpl in Hfuel; lia|].
    cbn [forallb] in Hprimary. apply andb_true_iff in Hprimary as [Harg Hargs].
    specialize (IH fuel (parsed ++ [arg])%list Hargs Hend ltac:(simpl in Hfuel; lia)).
    rewrite <- app_assoc in IH. cbn [app] in IH.
    destruct arg as [name|value| | |]; try discriminate;
      cbn [flat_map expressionTokens app parseFilterArgs];
      unfold bind at 1; cbn [peek head type ends_arguments];
      unfold bind at 1; unfold parsePrimary; unfold bind at 1;
      cbn [peek head]; unfold bind at 1; cbn [advance tail ret]; exact IH.
Qed.

Lemma parsePipelineLoop_stops (fuel : nat) (left : ExpressionNode) (rest : list Token) :
  (forall t, head rest = Some t -> type t <> PIPE) ->
  parsePipelineLoop fuel left rest = Some (Ok (left, rest)).
Proof.
  intros Hnext.
  destruct fuel; cbn [parsePipelineLoop]; unfold bind;
    rewrite match_other by exact Hnext; reflexivity.
Qed.

Lemma parseOrLoop_stops (fuel : nat) (left : ExpressionNode) (rest : list Token) :
  (forall t, head rest = Some t -> type t <> OR) ->
  parseOrLoop fuel left rest = Some (Ok (left, rest)).
Proof.
  intros Hnext.
  destruct fuel; cbn [parseOrLoop]; unfold bind;
    rewrite match_other by exact Hnext; reflexivity.
Qed.

Lemma argumentsEnd_cons (t : Token) (tokens : list Token) :
  ends_arguments (type t) = true -> argumentsEnd (t :: tokens).
Proof. intros Ht t' [= <-]. exact Ht. Qed.

(** Parsing the tokens of a pipeline leaves the parser in the loop of
    [parsePipeline], with the pipeline as its left operand. *)
Lemma parsePipeline_tokens (expr : ExpressionNode) (fuel : nat) (rest : list Token) :
  isPipeline expr = true ->
  argumentsEnd rest ->
  length (expressionTokens expr) <= fuel ->
  exists fuel',
    fuel <= fuel' + length (expressionTokens expr) /\
    parsePipeline fuel (expressionTokens expr ++ rest)%list =
    parsePipelineLoop fuel' expr rest.
Proof.
  revert fuel rest.
  induction expr as [name|value|left name args IHleft _
                    |condition trueExpr falseExpr _ _ _
                    |left right _ _] using ExpressionNode_nested_ind;
    intros fuel rest Hpipeline Hend Hfuel; try discriminate.
  - exists fuel. split; [lia | reflexivity].
  - exists fuel. split; [lia | reflexivity].
  - cbn [isPipeline] in Hpipeline. apply andb_true_iff in Hpipeline as [Hleft Hargs].
    cbn [expressionTokens] in *. rewrite length_app in Hfuel. cbn [length] in Hfuel.
    rewrite <- app_assoc. cbn [app].
    destruct (IHleft fuel
                (mkToken PIPE "|" :: mkToken IDENTIFIER name ::
                 flat_map expressionTokens args ++ rest)%list Hleft)
      as (fuel1 & Hfuel1 & ->);
      [apply argumentsEnd_cons; reflexivity | lia |].
    destruct fuel1 as [|fuel1]; [lia|].
    assert (Hlen : length args <= length (flat_map expressionTokens args)).
    { clear. induction args as [|arg args IH]; [reflexivity|].
      cbn [flat_map length]. rewrite length_app.
      destruct arg as [n|v|l [n a]| |]; cbn [expressionTokens length];
        rewrite ?length_app; cbn [length]; lia. }
    exists fuel1. split; [rewrite length_app; cbn [length]; lia|].
    cbn [parsePipelineLoop]. unfold bind at 1. rewrite match_same. cbv iota beta.
    unfold bind at 1. unfold parseFilter. unfold bind at 1.
    unfold expect. unfold bind at 1. rewrite match_same. cbv iota beta.
    unfold ret at 1. cbv iota beta. unfold bind at 1.
    rewrite parseFilterArgs_primaries; [reflexivity | exact Hargs | exact Hend | lia].
Qed.

Lemma parsePipeline_complete (expr : ExpressionNode) (fuel : nat) (rest : list Token) :
  isPipeline expr = true ->
  argumentsEnd rest ->
  (forall t, head rest = Some t -> type t <> PIPE) ->
  length (expressionTokens expr) <= fuel ->
  parsePipeline fuel (expressionTokens expr ++ rest)%list = Some (Ok (expr, rest)).
Proof.
  intros Hpipeline Hend Hnext Hfuel.
  destruct (parsePipeline_tokens expr fuel rest Hpipeline Hend Hfuel) as (fuel' & _ & ->).
  apply parsePipelineLoop_stops, Hnext.
Qed.

Lemma isOrLevel_pipeline (expr : ExpressionNode) :
  isPipeline expr = true -> isOrLevel expr = true.
Proof. destruct expr; cbn; congruence. Qed.

Lemma expressionTokens_nonempty (expr : ExpressionNode) :
  1 <= length (expressionTokens expr).
Proof.
  destruct expr as [n|v|l [n a]|c t f|l r]; cbn [expressionTokens];
    rewrite ?length_app; cbn [length]; lia.
Qed.

(** The same for the loop of [parseOr]. *)
Lemma parseOr_tokens (expr : ExpressionNode) (fuel : nat) (rest : list Token) :
  isOrLevel expr = true ->
  argumentsEnd rest ->
  (forall t, head rest = Some t -> type t <> PIPE) ->
  length (expressionTokens expr) <= fuel ->
  exists fuel',
    fuel <= fuel' + length (expressionTokens expr) /\
    parseOr fuel (expressionTokens expr ++ rest)%list = parseOrLoop fuel' expr rest.
Proof.
  revert fuel rest.
  assert (Hbase : forall expr fuel rest,
    isPipeline expr = true -> argumentsEnd rest ->
    (forall t, head rest = Some t -> type t <> PIPE) ->
    length (expressionTokens expr) <= fuel ->
    exists fuel',
      fuel <= fuel' + length (expressionTokens expr) /\
      parseOr fuel (expressionTokens expr ++ rest)%list = parseOrLoop fuel' expr rest).
  { clear expr. intros expr fuel rest Hpipeline Hend Hnext Hfuel.
    exists fuel. split; [lia|].
    unfold parseOr. unfold bind at 1.
    rewrite parsePipeline_complete by assumption. reflexivity. }
  induction expr as [name|value|left name args _ _
                    |condition trueExpr falseExpr _ _ _
                    |left right IHleft _] using ExpressionNode_nested_ind;
    intros fuel rest Hor Hend Hnext Hfuel;
    try (apply Hbase; assumption); try discriminate.
  cbn [isOrLevel] in Hor. apply andb_true_iff in Hor as [Hleft Hright].
  cbn [expressionTokens] in *. rewrite length_app in Hfuel. cbn [length] in Hfuel.
  rewrite <- app_assoc. cbn [app].
  destruct (IHleft fuel (mkToken OR "or" :: expressionTokens right ++ rest)%list Hleft)
    as (fuel1 & Hfuel1 & ->);
    [apply argumentsEnd_cons; reflexivity | intros t [= <-]; discriminate | lia |].
  destruct fuel1 as [|fuel1]; [lia|].
  exists fuel1. split; [rewrite length_app; cbn [length]; lia|].
  cbn [parseOrLoop]. unfold bind at 1. rewrite match_same. cbv iota beta.
  unfold bind at 1.
  rewrite parsePipeline_complete; [reflexivity | assumption.. | lia].
Qed.

Lemma parseOr_complete (expr : ExpressionNode) (fuel : nat) (rest : list Token) :
  isOrLevel expr = true ->
  argumentsEnd rest ->
  (forall t, head rest = Some t -> type t <> PIPE /\ type t <> OR) ->
  length (expressionTokens expr) <= fuel ->
  parseOr fuel (expressionTokens expr ++ rest)%list = Some (Ok (expr, rest)).
Proof.
  intros Hor Hend Hnext Hfuel.
  destruct (parseOr_tokens expr fuel rest Hor Hend) as (fuel' & _ & ->);
    [intros t Ht; apply (Hnext t Ht) | exact Hfuel |].
  apply parseOrLoop_stops. intros t Ht. apply (Hnext t Ht).
Qed.

Lemma expressionEnd_arguments (rest : list Token) :
  expressionEnd rest ->
  argumentsEnd rest /\
  (forall t, head rest = Some t -> type t <> PIPE /\ type t <> OR) /\
  (forall t, head rest = Some t -> type t <> QUESTION).
Proof.
  intros Hend. split; [|split].
  - intros t Ht. destruct (Hend t Ht) as [Heq|Heq]; rewrite Heq; reflexivity.
  - intros t Ht. destruct (Hend t Ht) as [Heq|Heq]; rewrite Heq; split; discriminate.
  - intros t Ht. destruct (Hend t Ht) as [Heq|Heq]; rewrite Heq; discriminate.
Qed.

Lemma expressionEnd_cons (t : Token) (tokens : list Token) :
  type t = COLON \/ type t = CLOSE_TEMPLATE -> expressionEnd (t :: tokens).
Proof. intros Ht t' [= <-]. exact Ht. Qed.

(** The parser reads back the tokens that spell an expression of the
    grammar. *)
Lemma parseExpression_complete (expr : ExpressionNode) (fuel : nat) (rest : list Token) :
  isExpression expr = true ->
  expressionEnd rest ->
  length (expressionTokens expr) < fuel ->
  parseExpression fuel (expressionTokens expr ++ rest)%list = Some (Ok (expr, rest)).
Proof.
  revert fuel rest.
  assert (Hbase : forall expr fuel rest,
    isOrLevel expr = true -> expressionEnd rest ->
    length (expressionTokens expr) < fuel ->
    parseExpression fuel (expressionTokens expr ++ rest)%list = Some (Ok (expr, rest))).
  { clear expr. intros expr fuel rest Hor Hend Hfuel.
    destruct fuel as [|fuel]; [lia|].
    destruct (expressionEnd_arguments rest Hend) as (Hargs & Hnext & Hquestion).
    cbn [parseExpression]. unfold parseTernaryWith. unfold bind at 1.
    rewrite parseOr_complete; [|assumption.. | lia].
    unfold bind at 1. rewrite match_other by exact Hquestion. reflexivity. }
  induction expr as [name|value|left name args _ _
                    |condition trueExpr falseExpr _ IHt IHf
                    |left right _ _] using ExpressionNode_nested_ind;
    intros fuel rest Hexpr Hend Hfuel;
    try (apply Hbase; assumption).
  cbn [isExpression] in Hexpr.
  apply andb_true_iff in Hexpr as [Hexpr Hfalse].
  apply andb_true_iff in Hexpr as [Hcondition Htrue].
  cbn [expressionTokens] in *.
  rewrite !length_app in Hfuel. cbn [length] in Hfuel.
  rewrite length_app in Hfuel. cbn [length] in Hfuel.
  destruct fuel as [|fuel]; [lia|].
  rewrite <- app_assoc. cbn [app]. rewrite <- app_assoc. cbn [app].
  cbn [parseExpression]. unfold parseTernaryWith. unfold bind at 1.
  rewrite parseOr_complete;
    [| exact Hcondition
     | apply argumentsEnd_cons; reflexivity
     | intros t [= <-]; split; discriminate
     | lia].
  unfold bind at 1. rewrite match_same. cbv iota beta.
  unfold bind at 1.
  rewrite IHt; [| exact Htrue | apply expressionEnd_cons; left; reflexivity | lia].
  unfold bind at 1. unfold expect. unfold bind at 1. rewrite match_same.
  cbv iota beta. unfold ret at 1. cbv iota beta.
  unfold bind at 1. rewrite IHf; [reflexivity | exact Hfalse | exact Hend | lia].
Qed.

Lemma parse_loop_tokens (ast : list ASTNode) (fuel : nat) (nodes : list ASTNode) :
  forallb isNode ast = true ->
  length (flat_map nodeTokens ast) < fuel ->
  parse_loop fuel nodes (flat_map nodeTokens ast) = Some (Ok ((nodes ++ ast)%list, [])).
Proof.
  revert fuel nodes.
  induction ast as [|node ast IH]; intros fuel nodes Hast Hfuel.
  - rewrite app_nil_r. destruct fuel; reflexivity.
  - cbn [forallb] in Hast. apply andb_true_iff in Hast as [Hnode Hast].
    destruct fuel as [|fuel]; [lia|].
    cbn [flat_map] in *. rewrite length_app in Hfuel.
    specialize (IH fuel (nodes ++ [node])%list Hast).
    rewrite <- app_assoc in IH. cbn [app] in IH.
    destruct node as [text|expression]; cbn [nodeTokens app length] in *.
    + cbn [parse_loop]. unfold bind at 1. rewrite parseNode_cons. cbn [type value].
      apply IH. lia.
    + rewrite length_app in Hfuel. cbn [length] in Hfuel.
      cbn [parse_loop]. unfold bind at 1. rewrite parseNode_cons. cbn [type].
      unfold bind at 1. unfold parseTemplate. unfold bind at 1.
      unfold expect. unfold bind at 1. rewrite match_same. cbv iota beta.
      unfold ret at 1. cbv iota beta. unfold bind at 1.
      rewrite <- app_assoc. cbn [app].
      rewrite parseExpression_complete;
        [| exact Hnode | apply expressionEnd_cons; right; reflexivity | lia].
      unfold bind at 1. unfold bind at 1. rewrite match_same. cbv iota beta.
      unfold ret at 1. cbv iota beta. unfold ret at 1. cbv iota beta.
      unfold ret at 1. cbv iota beta.
      apply IH. lia.
Qed.

(** X17: the parser reads back every tree of the grammar from the tokens
    that spell it: text nodes from TEXT tokens, and a template node from
    [{{], the tokens of its expression and [}}], whatever the nesting of
    pipes, filter arguments, [or] and ternaries.  So the precedence and the
    associativity of the operators are those of the grammar: pipes bind
    tighter than [or], [or] tighter than the ternary, pipes and [or] nest
    to the left and ternaries to the right. *)
Theorem parse_tokens_of_tree (ast : list ASTNode) :
  forallb isNode ast = true ->
  parse (flat_map nodeTokens ast) = Ok ast.
Proof.
  intros Hast. unfold parse.
  rewrite (parse_loop_tokens ast (S (length (flat_map nodeTokens ast))) [] Hast)
    by lia.
  reflexivity.
Qed.

Lemma parse_tokens_of_tree_witness :
  parse (flat_map nodeTokens
           [TextNode "a";
            TemplateNode
              (TernaryNode
                 (OrNode (PipeNode (VariableNode "n") (Filter "f" [StringNode "x"]))
                    (VariableNode "m"))
                 (VariableNode "t")
                 (TernaryNode (VariableNode "c") (StringNode "y") (StringNode "z")))]) =
  Ok [TextNode "a";
      TemplateNode
        (TernaryNode
           (OrNode (PipeNode (VariableNode "n") (Filter "f" [StringNode "x"]))
              (VariableNode "m"))
           (VariableNode "t")
           (TernaryNode (VariableNode "c") (StringNode "y") (StringNode "z")))].
Proof. apply parse_tokens_of_tree. reflexivity. Defined.

Lemma returns_bind {A B} (Q : A -> Prop) (P : B -> Prop) (m : Parser A)
    (k : A -> Parser B) :
  returns Q m -> (forall a, Q a -> returns P (k a)) -> returns P (bind m k).
Proof.
  intros Hm Hk tokens b rest. unfold bind.
  destruct (m tokens) as [[[a tokens']|]|] eqn:Heq; [|discriminate..].
  apply (Hk a (Hm _ _ _ Heq)).
Qed.

Lemma returns_any {A B} (P : B -> Prop) (m : Parser A) (k : A -> Parser B) :
  (forall a, returns P (k a)) -> returns P (bind m k).
Proof.
  intros Hk. apply (returns_bind (fun _ => True)); [intros tokens a rest _; exact I|].
  intros a _. apply Hk.
Qed.

Lemma returns_ret {A} (P : A -> Prop) (a : A) : P a -> returns P (ret a).
Proof. intros Ha tokens a' rest [= <- _]. exact Ha. Qed.

Lemma returns_throw {A} (P : A -> Prop) (message : string) : returns P (throw message).
Proof. intros tokens a rest. discriminate. Qed.

Lemma returns_out_of_fuel {A} (P : A -> Prop) : returns P out_of_fuel.
Proof. intros tokens a rest. discriminate. Qed.

Lemma returns_parsePrimary : returns (fun expr => isPrimaryNode expr = true) parsePrimary.
Proof.
  unfold parsePrimary. apply returns_any. intros [[ty v]|]; [|apply returns_throw].
  destruct ty; try apply returns_throw;
    (apply returns_any; intros _; apply returns_ret; reflexivity).
Qed.

Lemma returns_parseFilterArgs (fuel : nat) (args : list ExpressionNode) :
  forallb isPrimaryNode args = true ->
  returns (fun args' => forallb isPrimaryNode args' = true) (parseFilterArgs fuel args).
Proof.
  revert args. induction fuel as [|fuel IH]; intros args Hargs; cbn [parseFilterArgs];
    apply returns_any; intros [t|]; try (apply returns_ret; exact Hargs);
    destruct (ends_arguments (type t)); try (apply returns_ret; exact Hargs).
  - apply returns_out_of_fuel.
  - apply (returns_bind _ _ _ _ returns_parsePrimary). intros arg Harg. apply IH.
    rewrite forallb_app, Hargs. cbn [forallb]. rewrite Harg. reflexivity.
Qed.

Lemma returns_parseFilter (fuel : nat) :
  returns (fun filter => match filter with
                         | Filter _ args => forallb isPrimaryNode args = true
                         end) (parseFilter fuel).
Proof.
  unfold parseFilter. apply returns_any. intros name.
  apply (returns_bind _ _ _ _ (returns_parseFilterArgs fuel [] eq_refl)).
  intros args Hargs. apply returns_ret. exact Hargs.
Qed.

Lemma returns_parsePipelineLoop (fuel : nat) (left : ExpressionNode) :
  isPipeline left = true ->
  returns (fun expr => isPipeline expr = true) (parsePipelineLoop fuel left).
Proof.
  revert left. induction fuel as [|fuel IH]; intros left Hleft; cbn [parsePipelineLoop];
    apply returns_any; intros [t|]; try (apply returns_ret; exact Hleft).
  - apply returns_out_of_fuel.
  - apply (returns_bind _ _ _ _ (returns_parseFilter fuel)).
    intros [name args] Hargs. apply IH. cbn [isPipeline]. rewrite Hleft, Hargs. reflexivity.
Qed.

Lemma isPipeline_primary (expr : ExpressionNode) :
  isPrimaryNode expr = true -> isPipeline expr = true.
Proof. destruct expr; cbn; congruence. Qed.

Lemma returns_parsePipeline (fuel : nat) :
  returns (fun expr => isPipeline expr = true) (parsePipeline fuel).
Proof.
  unfold parsePipeline. apply (returns_bind _ _ _ _ returns_parsePrimary).
  intros left Hleft. apply returns_parsePipelineLoop, isPipeline_primary, Hleft.
Qed.

Lemma returns_parseOrLoop (fuel : nat) (left : ExpressionNode) :
  isOrLevel left = true ->
  returns (fun expr => isOrLevel expr = true) (parseOrLoop fuel left).
Proof.
  revert left. induction fuel as [|fuel IH]; intros left Hleft; cbn [parseOrLoop];
    apply returns_any; intros [t|]; try (apply returns_ret; exact Hleft).
  - apply returns_out_of_fuel.
  - apply (returns_bind _ _ _ _ (returns_parsePipeline fuel)).
    intros right Hright. apply IH. cbn [isOrLevel]. rewrite Hleft, Hright. reflexivity.
Qed.

Lemma returns_parseOr (fuel : nat) :
  returns (fun expr => isOrLevel expr = true) (parseOr fuel).
Proof.
  unfold parseOr. apply (returns_bind _ _ _ _ (returns_parsePipeline fuel)).
  intros left Hleft. apply returns_parseOrLoop, isOrLevel_pipeline, Hleft.
Qed.

Lemma isExpression_orLevel (expr : ExpressionNode) :
  isOrLevel expr = true -> isExpression expr = true.
Proof. destruct expr; cbn; congruence. Qed.

Lemma returns_parseExpression (fuel : nat) :
  returns (fun expr => isExpression expr = true) (parseExpression fuel).
Proof.
  induction fuel as [|fuel IH]; cbn [parseExpression]; [apply returns_out_of_fuel|].
  unfold parseTernaryWith. apply (returns_bind _ _ _ _ (returns_parseOr fuel)).
  intros left Hleft. apply returns_any.
  intros [t|]; [|apply returns_ret, isExpression_orLevel, Hleft].
  apply (returns_bind _ _ _ _ IH). intros trueExpr Htrue.
  apply returns_any. intros _.
  apply (returns_bind _ _ _ _ IH). intros falseExpr Hfalse.
  apply returns_ret. cbn [isExpression]. rewrite Hleft, Htrue, Hfalse. reflexivity.
Qed.

Lemma returns_parseTemplate (fuel : nat) :
  returns (fun node => isNode node = true) (parseTemplate fuel).
Proof.
  unfold parseTemplate. apply returns_any. intros _.
  apply (returns_bind _ _ _ _ (returns_parseExpression fuel)). intros expression Hexpr.
  apply returns_any. intros _. apply returns_ret. exact Hexpr.
Qed.

Lemma returns_parseNode (fuel : nat) :
  returns (fun node => match node with
                       | Some n => isNode n = true
                       | None => True
                       end) (parseNode fuel).
Proof.
  unfold parseNode. apply returns_any. intros [t|]; [|apply returns_ret; exact I].
  destruct (type t);
    try (apply returns_any; intros _; apply returns_ret; first [exact I | reflexivity]).
  apply (returns_bind _ _ _ _ (returns_parseTemplate fuel)). intros node Hnode.
  apply returns_ret. exact Hnode.
Qed.

Lemma returns_parse_loop (fuel : nat) (nodes : list ASTNode) :
  forallb isNode nodes = true ->
  returns (fun ast => forallb isNode ast = true) (parse_loop fuel nodes).
Proof.
  revert nodes. induction fuel as [|fuel IH]; intros nodes Hnodes [|t tokens] ast rest;
    cbn [parse_loop]; try discriminate;
    try (intros [= <- _]; exact Hnodes).
  apply (returns_bind _ (fun ast => forallb isNode ast = true) _ _
           (returns_parseNode fuel)).
  intros [node|] Hnode; apply IH; [|exact Hnodes].
  rewrite forallb_app, Hnodes. cbn [forallb]. rewrite Hnode. reflexivity.
Qed.

(** X18: every tree that the parser returns, and so every tree that
    [compile] returns or caches, is a tree of the grammar: the arguments of
    a filter are variables or string literals, the left operand of a pipe is
    a pipeline, the operands of [or] contain no ternary, and the condition
    of a ternary is not a ternary. *)
Theorem parse_returns_grammar (e : TemplateEngine) (template : string)
    (ast : list ASTNode) :
  cacheConsistent e ->
  (forall tokens ast', parse tokens = Ok ast' -> forallb isNode ast' = true) /\
  ((compile e template).1 = Ok ast -> forallb isNode ast = true) /\
  (astCache e !! template = Some ast -> forallb isNode ast = true).
Proof.
  intros He.
  assert (Hparse : forall tokens ast', parse tokens = Ok ast' -> forallb isNode ast' = true).
  { intros tokens ast'.
    destruct (parse_eq tokens) as [(nodes & rest & Hloop & ->)|(message & _ & ->)];
      [|discriminate].
    intros [= <-]. eapply (returns_parse_loop _ [] eq_refl), Hloop. }
  split; [exact Hparse|]. split.
  - rewrite compile_result by exact He. apply Hparse.
  - intros Hcached. eapply Hparse, He, Hcached.
Qed.

Lemma parse_returns_grammar_witness :
  forallb isNode [TemplateNode (PipeNode (VariableNode "a") (Filter "f" [StringNode "x"]))] =
  true.
Proof.
  apply (proj1 (proj2 (parse_returns_grammar newTemplateEngine "{{ a | f 'x' }}"
                         [TemplateNode (PipeNode (VariableNode "a") (Filter "f" [StringNode "x"]))]
                         cacheConsistent_new))).
  vm_compute. reflexivity.
Defined.

Lemma lex_run (fuel : nat) (input : string) (insideTemplate : bool)
    (tokens : list Token) :
  String.length input <= fuel ->
  tokenize_loop fuel input insideTemplate tokens =
  Some (tokens ++ lex insideTemplate input)%list.
Proof.
  intros Hle. unfold lex.
  destruct (tokenize_loop_enough_fuel (String.length input) input insideTemplate [])
    as [result Hrun]; [lia|].
  rewrite Hrun. cbn [default].
  rewrite tokenize_loop_tokens.
  rewrite (tokenize_loop_more_fuel _ fuel _ _ _ _ Hrun Hle). reflexivity.
Qed.

Lemma lex_step (c : ascii) (rest : string) (insideTemplate : bool) :
  lex insideTemplate (String c rest) =
  default [] (tokenize_loop (S (String.length rest)) (String c rest) insideTemplate []).
Proof. reflexivity. Qed.

(** The main loop of the tokenizer, without its iteration bound. *)
Lemma lex_unfold (c : ascii) (rest : string) (insideTemplate : bool) :
  lex insideTemplate (String c rest) =
  let input := String c rest in
  if at_open input then mkToken OPEN_TEMPLATE "{{" :: lex true (skip2 input)
  else if at_close input then mkToken CLOSE_TEMPLATE "}}" :: lex false (skip2 input)
  else if insideTemplate then
    if is_space c then lex true rest
    else if Ascii.eqb c "|" then mkToken PIPE "|" :: lex true rest
    else if Ascii.eqb c "?" then mkToken QUESTION "?" :: lex true rest
    else if Ascii.eqb c ":" then mkToken COLON ":" :: lex true rest
    else if is_quote c then
      mkToken STRING (readString c "" rest).1 ::
      lex true (skipClosingQuote (readString c "" rest).2)
    else if is_ident_start c then
      let identifier := (readIdentifier "" input).1 in
      mkToken (if String.eqb identifier "or" then OR else IDENTIFIER) identifier ::
      lex true (readIdentifier "" input).2
    else lex true rest
  else
    let text := (readText "" input).1 in
    ((if String.eqb text "" then [] else [mkToken TEXT text]) ++
     lex false (readText "" input).2)%list.
Proof.
  rewrite lex_step, tokenize_loop_step. cbv zeta.
  pose proof (skip2_shorter c rest) as Hskip.
  repeat match goal with
  | |- default [] (if ?b then _ else _) = (if ?b then _ else _) => destruct b eqn:?
  end; try (rewrite lex_run by lia; reflexivity).
  - rewrite lex_run; [reflexivity|].
    pose proof (skipClosingQuote_shorter (readString c "" rest).2).
    pose proof (readString_shorter c rest ""). lia.
  - rewrite lex_run; [reflexivity|]. cbn [readIdentifier].
    rewrite is_ident_start_word by assumption.
    pose proof (readIdentifier_shorter rest (push_char "" c)). lia.
  - rewrite lex_run.
    + destruct (String.eqb (readText "" (String c rest)).1 ""); reflexivity.
    + cbn [readText].
      match goal with H : at_open _ = false |- _ => rewrite H end.
      pose proof (readText_shorter rest (push_char "" c)). lia.
Qed.

Lemma lex_space (rest : string) : lex true (String " " rest) = lex true rest.
Proof. rewrite lex_unfold. reflexivity. Qed.

(** Reading back an escaped literal. *)
Lemma readString_escape (quote : ascii) (s str rest : string) :
  Ascii.eqb quote "\" = false ->
  readString quote str (escape quote s ++ String quote rest) =
  (str ++ s, String quote rest).
Proof.
  intros Hquote. assert (Hbackslash : Ascii.eqb "\" quote = false)
    by (rewrite Ascii.eqb_sym; exact Hquote).
  revert str. induction s as [|c s IH]; intros str.
  - change (escape quote "" ++ String quote rest) with (String quote rest).
    cbn [readString]. rewrite Ascii.eqb_refl, append_nil_r. reflexivity.
  - cbn [escape]. destruct (Ascii.eqb c quote) eqn:Hc; cbn [orb].
    + change (readString quote str
                (String "\" (String c (escape quote s ++ String quote rest))) =
              (str ++ String c s, String quote rest)).
      cbn [readString]. rewrite Hbackslash.
      change (Ascii.eqb "\" "\") with true. cbv iota.
      rewrite IH, push_char_append. reflexivity.
    + destruct (Ascii.eqb c "\") eqn:Hc'.
      * apply Ascii.eqb_eq in Hc'. subst c.
        change (readString quote str
                  (String "\" (String "\" (escape quote s ++ String quote rest))) =
                (str ++ String "\" s, String quote rest)).
        cbn [readString]. rewrite Hbackslash.
        change (Ascii.eqb "\" "\") with true. cbv iota.
        rewrite IH, push_char_append. reflexivity.
      * change (readString quote str (String c (escape quote s ++ String quote rest)) =
                (str ++ String c s, String quote rest)).
        cbn [readString]. rewrite Hc, Hc'.
        rewrite IH, push_char_append. reflexivity.
Qed.

Lemma readIdentifier_word (s identifier rest : string) :
  allChars is_word s = true -> endsWord rest = true ->
  readIdentifier identifier (s ++ rest) = (identifier ++ s, rest).
Proof.
  intros Hs Hrest. revert identifier Hs. induction s as [|c s IH]; intros identifier Hs.
  - change ("" ++ rest) with rest. rewrite append_nil_r.
    destruct rest as [|d rest]; [reflexivity|]. cbn [readIdentifier].
    cbn [endsWord] in Hrest. apply negb_true_iff in Hrest. rewrite Hrest. reflexivity.
  - cbn [allChars] in Hs. apply andb_true_iff in Hs as [Hc Hs].
    change (String c s ++ rest) with (String c (s ++ rest)).
    cbn [readIdentifier]. rewrite Hc, IH, push_char_append by exact Hs. reflexivity.
Qed.

Lemma ident_start_class (c : ascii) :
  is_ident_start c = true ->
  Ascii.eqb c "{" = false /\ Ascii.eqb c "}" = false /\ is_space c = false /\
  Ascii.eqb c "|" = false /\ Ascii.eqb c "?" = false /\ Ascii.eqb c ":" = false /\
  is_quote c = false.
Proof.
  destruct c as [[] [] [] [] [] [] [] []]; vm_compute; intros H;
    first [discriminate H | repeat split].
Qed.

Lemma at_open_cons (c : ascii) (rest : string) :
  Ascii.eqb c "{" = false -> at_open (String c rest) = false.
Proof.
  destruct c as [[] [] [] [] [] [] [] []]; intros H; first [reflexivity | discriminate H].
Qed.

Lemma at_close_cons (c : ascii) (rest : string) :
  Ascii.eqb c "}" = false -> at_close (String c rest) = false.
Proof.
  destruct c as [[] [] [] [] [] [] [] []]; intros H; first [reflexivity | discriminate H].
Qed.

Lemma lex_name (name rest : string) :
  isName name = true -> endsWord rest = true ->
  lex true (name ++ rest) = mkToken IDENTIFIER name :: lex true rest.
Proof.
  unfold isName. intros Hname Hrest.
  apply andb_true_iff in Hname as [Hname Hor]. apply negb_true_iff in Hor.
  destruct name as [|c name]; [discriminate|].
  apply andb_true_iff in Hname as [Hc Hname].
  destruct (ident_start_class c Hc) as (Hopen & Hclose & Hspace & Hpipe & Hq & Hcolon & Hquote).
  change (String c name ++ rest) with (String c (name ++ rest)).
  rewrite lex_unfold. cbv zeta.
  rewrite (at_open_cons _ _ Hopen), (at_close_cons _ _ Hclose).
  rewrite Hspace, Hpipe, Hq, Hcolon, Hquote, Hc.
  change (String c (name ++ rest)) with (String c name ++ rest).
  rewrite readIdentifier_word; [|cbn [allChars]; rewrite (is_ident_start_word _ Hc); exact Hname|exact Hrest].
  cbn [fst snd]. change ("" ++ String c name) with (String c name).
  rewrite Hor. reflexivity.
Qed.

Lemma lex_show_token (t : Token) (rest : string) :
  lexable t = true ->
  lex true (showToken t ++ String " " rest) = t :: lex true rest.
Proof.
  destruct t as [ty v]. unfold lexable, showToken. cbn [type value].
  destruct ty; try discriminate; intros Ht;
    try (apply String.eqb_eq in Ht; subst v).
  - change (lex true (String "|" (String " " rest)) = mkToken PIPE "|" :: lex true rest).
    rewrite lex_unfold, <- (lex_space rest). reflexivity.
  - change (lex true (String "?" (String " " rest)) = mkToken QUESTION "?" :: lex true rest).
    rewrite lex_unfold, <- (lex_space rest). reflexivity.
  - change (lex true (String ":" (String " " rest)) = mkToken COLON ":" :: lex true rest).
    rewrite lex_unfold, <- (lex_space rest). reflexivity.
  - change (lex true (String "o" (String "r" (String " " rest))) =
            mkToken OR "or" :: lex true rest).
    rewrite lex_unfold, <- (lex_space rest). reflexivity.
  - change (String "'" (escape "'" v ++ "'") ++ String " " rest)
      with (String "'" ((escape "'" v ++ "'") ++ String " " rest)).
    rewrite append_assoc. change ("'" ++ String " " rest) with (String "'" (String " " rest)).
    rewrite lex_unfold. cbv zeta.
    change (at_open (String "'" _)) with false. change (at_close (String "'" _)) with false.
    change (is_space "'") with false. change (Ascii.eqb "'" "|") with false.
    change (Ascii.eqb "'" "?") with false. change (Ascii.eqb "'" ":") with false.
    change (is_quote "'") with true. cbv iota.
    rewrite readString_escape by reflexivity. cbn [fst snd skipClosingQuote].
    rewrite lex_space. reflexivity.
  - rewrite lex_name by (exact Ht || reflexivity). rewrite lex_space. reflexivity.
Qed.

Lemma lex_show_tokens (tokens : list Token) (rest : string) :
  forallb lexable tokens = true ->
  lex true (showTokens tokens ++ rest) = (tokens ++ lex true rest)%list.
Proof.
  induction tokens as [|t tokens IH]; intros Htokens; [reflexivity|].
  cbn [forallb] in Htokens. apply andb_true_iff in Htokens as [Ht Htokens].
  cbn [showTokens]. rewrite append_assoc.
  change (String " " (showTokens tokens) ++ rest) with (String " " (showTokens tokens ++ rest)).
  rewrite lex_show_token by exact Ht. rewrite IH by exact Htokens. reflexivity.
Qed.

Lemma expressionTokens_lexable (expr : ExpressionNode) :
  forallb isName (variables expr) = true ->
  forallb isName (filterNames expr) = true ->
  forallb lexable (expressionTokens expr) = true.
Proof.
  induction expr as [x|value|left0 name0 args0 IHleft IHargs
                    |condition trueExpr falseExpr IHc IHt IHf
                    |left0 right0 IHl IHr] using ExpressionNode_nested_ind;
    cbn [variables filterNames expressionTokens].
  - cbn [forallb]. unfold lexable. cbn [type value]. intros -> _. reflexivity.
  - reflexivity.
  - rewrite !forallb_app. cbn [forallb]. rewrite !andb_true_iff.
    intros [Hvl Hva] [Hfl [Hname Hfa]]. split; [auto|].
    split; [reflexivity|]. split; [exact Hname|].
    clear IHleft Hvl Hfl Hname.
    induction IHargs as [|arg rest IHarg _ IHrest]; [reflexivity|].
    cbn [flat_map] in *. rewrite forallb_app in *.
    apply andb_true_iff in Hva as [Hv Hva]. apply andb_true_iff in Hfa as [Hf Hfa].
    rewrite IHarg, IHrest by assumption. reflexivity.
  - rewrite !forallb_app. cbn [forallb]. rewrite !forallb_app. cbn [forallb].
    rewrite !andb_true_iff.
    intros [Hvc [Hvt Hvf]] [Hfc [Hft Hff]]. auto 10.
  - rewrite !forallb_app. cbn [forallb]. rewrite !andb_true_iff.
    intros [Hvl Hvr] [Hfl Hfr]. auto 10.
Qed.

Lemma at_open_spec (c d : ascii) (rest : string) :
  at_open (String c (String d rest)) = Ascii.eqb c "{" && Ascii.eqb d "{".
Proof.
  destruct c as [[] [] [] [] [] [] [] []]; try reflexivity.
  destruct d as [[] [] [] [] [] [] [] []]; reflexivity.
Qed.

Lemma at_close_spec (c d : ascii) (rest : string) :
  at_close (String c (String d rest)) = Ascii.eqb c "}" && Ascii.eqb d "}".
Proof.
  destruct c as [[] [] [] [] [] [] [] []]; try reflexivity.
  destruct d as [[] [] [] [] [] [] [] []]; reflexivity.
Qed.

Lemma at_open_single (c : ascii) : at_open (String c "") = false.
Proof. destruct c as [[] [] [] [] [] [] [] []]; reflexivity. Qed.

Lemma at_close_single (c : ascii) : at_close (String c "") = false.
Proof. destruct c as [[] [] [] [] [] [] [] []]; reflexivity. Qed.

Lemma at_open_text (c : ascii) (text rest : string) :
  at_open (String c text) = false -> endsText (String c text) rest ->
  at_open (String c (text ++ rest)) = false.
Proof.
  intros Hopen [->|[Hrest Hbrace]]; [rewrite append_nil_r; exact Hopen|].
  destruct text as [|d text].
  - cbn [endsWithBrace] in Hbrace. apply at_open_cons, Hbrace.
  - change (String d text ++ rest) with (String d (text ++ rest)).
    rewrite at_open_spec in *. exact Hopen.
Qed.

Lemma at_close_text (c : ascii) (text rest : string) :
  at_close (String c text) = false -> endsText (String c text) rest ->
  at_close (String c (text ++ rest)) = false.
Proof.
  intros Hclose [->|[Hrest Hbrace]]; [rewrite append_nil_r; exact Hclose|].
  destruct text as [|d text].
  - destruct rest as [|d rest]; [discriminate|]. change ("" ++ String d rest) with (String d rest).
    rewrite at_close_spec. destruct rest as [|d' rest]; [rewrite at_open_single in Hrest; discriminate|].
    rewrite at_open_spec in Hrest. apply andb_true_iff in Hrest as [Hd _].
    apply Ascii.eqb_eq in Hd. subst d. apply andb_false_r.
  - change (String d text ++ rest) with (String d (text ++ rest)).
    rewrite at_close_spec in *. exact Hclose.
Qed.

Lemma endsText_tail (c d : ascii) (text rest : string) :
  endsText (String c (String d text)) rest -> endsText (String d text) rest.
Proof. intros [->|[Hrest Hbrace]]; [left; reflexivity | right; split; assumption]. Qed.

Lemma readText_text (text acc rest : string) :
  containsOpen text = false -> endsText text rest ->
  readText acc (text ++ rest) = (acc ++ text, rest).
Proof.
  revert acc. induction text as [|c text IH]; intros acc Hplain Hends.
  - change ("" ++ rest) with rest. rewrite append_nil_r.
    destruct Hends as [->|[Hrest _]]; [reflexivity|].
    destruct rest as [|d rest]; [reflexivity|]. cbn [readText]. rewrite Hrest. reflexivity.
  - apply containsOpen_cons in Hplain as [Hopen Hplain].
    change (String c text ++ rest) with (String c (text ++ rest)).
    cbn [readText]. rewrite (at_open_text c text rest Hopen Hends).
    rewrite IH, push_char_append; [reflexivity | exact Hplain |].
    destruct text as [|d text]; [|eapply endsText_tail, Hends].
    destruct Hends as [->|[Hrest _]]; [left; reflexivity | right; split; [exact Hrest | reflexivity]].
Qed.

Lemma lex_text (text rest : string) :
  isText text = true -> endsText text rest ->
  lex false (text ++ rest) = mkToken TEXT text :: lex false rest.
Proof.
  unfold isText. rewrite !andb_true_iff, !negb_true_iff.
  intros [[Hempty Hplain] Hclose] Hends.
  destruct text as [|c text]; [discriminate|].
  pose proof (containsOpen_cons _ _ Hplain) as [Hopen _].
  change (String c text ++ rest) with (String c (text ++ rest)).
  rewrite lex_unfold. cbv zeta.
  rewrite (at_open_text c text rest Hopen Hends), (at_close_text c text rest Hclose Hends).
  change (String c (text ++ rest)) with (String c text ++ rest).
  rewrite readText_text by assumption.
  cbn [fst snd]. change ("" ++ String c text) with (String c text).
  rewrite Hempty. reflexivity.
Qed.

Lemma lex_printNodes (ast : list ASTNode) :
  printable ast = true -> lex false (printNodes ast) = flat_map nodeTokens ast.
Proof.
  induction ast as [|node ast IH]; [reflexivity|].
  destruct node as [text|expression]; cbn [printable printNodes printNode flat_map nodeTokens].
  - rewrite !andb_true_iff. intros [[Htext Hnext] Hast].
    rewrite lex_text, IH; [reflexivity | exact Hast | exact Htext |].
    destruct ast as [|[text'|expression] ast]; [left; reflexivity | discriminate |].
    right. split; [reflexivity | apply negb_true_iff, Hnext].
  - rewrite !andb_true_iff, forallb_app, andb_true_iff.
    intros [[Hexpr [Hvars Hfilters]] Hast].
    change (("{{" ++ printExpression expression ++ "}}") ++ printNodes ast)
      with (String "{" (String "{" ((printExpression expression ++ "}}") ++ printNodes ast))).
    rewrite append_assoc, lex_unfold. cbv zeta.
    change (at_open (String "{" (String "{" _))) with true. cbv iota. cbn [skip2].
    unfold printExpression.
    rewrite lex_show_tokens by (apply expressionTokens_lexable; assumption).
    change ("}}" ++ printNodes ast) with (String "}" (String "}" (printNodes ast))).
    rewrite lex_unfold. cbv zeta.
    change (at_open (String "}" (String "}" _))) with false.
    change (at_close (String "}" (String "}" _))) with true. cbv iota. cbn [skip2].
    rewrite IH by exact Hast. cbn [app]. rewrite <- app_assoc. reflexivity.
Qed.

Lemma printable_grammar (ast : list ASTNode) :
  printable ast = true -> forallb isNode ast = true.
Proof.
  induction ast as [|[text|expression] ast IH]; [reflexivity|..];
    cbn [printable forallb isNode]; rewrite !andb_true_iff.
  - intros [_ Hast]. auto.
  - intros [[Hexpr _] Hast]. auto.
Qed.

Lemma wellFormedTokens_cons (t : Token) (tokens : list Token) :
  wellFormedTokens (t :: tokens) = true ->
  wellFormed t = true /\ wellFormedTokens tokens = true.
Proof.
  unfold wellFormedTokens. cbn [forallb textFollowed]. rewrite !andb_true_iff.
  intros [[Ht Htokens] [_ Hfollowed]]. auto.
Qed.

Lemma wellFormedTokens_tail (tokens : list Token) :
  wellFormedTokens tokens = true -> wellFormedTokens (tail tokens) = true.
Proof.
  destruct tokens as [|t tokens]; [auto|]. intros H. apply wellFormedTokens_cons in H. tauto.
Qed.

Lemma keeps_bind {A B} (Q : A -> Prop) (P : B -> Prop) (m : Parser A)
    (k : A -> Parser B) :
  keeps Q m -> (forall a, Q a -> keeps P (k a)) -> keeps P (bind m k).
Proof.
  intros Hm Hk tokens b rest Htokens. unfold bind.
  destruct (m tokens) as [[[a tokens']|]|] eqn:Heq; [|discriminate..].
  destruct (Hm _ _ _ Htokens Heq) as [Htokens' Ha]. apply (Hk a Ha), Htokens'.
Qed.

Lemma keeps_ret {A} (P : A -> Prop) (a : A) : P a -> keeps P (ret a).
Proof. intros Ha tokens a' rest Htokens [= <- <-]. auto. Qed.

Lemma keeps_throw {A} (P : A -> Prop) (message : string) : keeps P (throw message).
Proof. intros tokens a rest _. discriminate. Qed.

Lemma keeps_out_of_fuel {A} (P : A -> Prop) : keeps P out_of_fuel.
Proof. intros tokens a rest _. discriminate. Qed.

Lemma keeps_peek : keeps wellFormedOption peek.
Proof.
  intros tokens a rest Htokens [= <- <-]. split; [exact Htokens|].
  destruct tokens as [|t tokens]; [exact I|]. apply wellFormedTokens_cons in Htokens. tauto.
Qed.

Lemma keeps_advance : keeps (fun _ => True) advance.
Proof.
  intros tokens a rest Htokens Hrun. unfold advance in Hrun.
  injection Hrun as _ <-. split; [|exact I].
  apply wellFormedTokens_tail, Htokens.
Qed.

Lemma keeps_match (ty : TokenType) : keeps wellFormedOption (match_ ty).
Proof.
  unfold match_. apply (keeps_bind _ _ _ _ keeps_peek). intros [t|] Ht; [|apply keeps_ret; exact I].
  destruct (decide (type t = ty)); [|apply keeps_ret; exact I].
  apply (keeps_bind _ _ _ _ keeps_advance). intros _ _. apply keeps_ret. exact Ht.
Qed.

Lemma keeps_expect (ty : TokenType) :
  keeps (fun t => wellFormed t = true /\ type t = ty) (expect ty).
Proof.
  intros tokens t rest Htokens. unfold expect, bind, match_, bind, peek.
  destruct tokens as [|t' tokens]; cbn [head]; [discriminate|].
  destruct (decide (type t' = ty)) as [Hty|]; [|discriminate].
  cbn. intros [= <- <-]. apply wellFormedTokens_cons in Htokens. tauto.
Qed.

Lemma keeps_parsePrimary : keeps namesOk parsePrimary.
Proof.
  unfold parsePrimary. apply (keeps_bind _ _ _ _ keeps_peek).
  intros [[ty v]|] Ht; [|apply keeps_throw].
  destruct ty; try apply keeps_throw;
    apply (keeps_bind _ _ _ _ keeps_advance); intros _ _; apply keeps_ret.
  - reflexivity.
  - unfold namesOk, namesOf. cbn. unfold wellFormed, lexable in Ht. cbn in Ht.
    rewrite Ht. reflexivity.
Qed.

Lemma keeps_parseFilterArgs (fuel : nat) (args : list ExpressionNode) :
  Forall namesOk args ->
  keeps (Forall namesOk) (parseFilterArgs fuel args).
Proof.
  revert args. induction fuel as [|fuel IH]; intros args Hargs; cbn [parseFilterArgs];
    apply (keeps_bind _ _ _ _ keeps_peek); intros [t|] _; try (apply keeps_ret; exact Hargs);
    destruct (ends_arguments (type t)); try (apply keeps_ret; exact Hargs).
  - apply keeps_out_of_fuel.
  - apply (keeps_bind _ _ _ _ keeps_parsePrimary). intros arg Harg. apply IH.
    apply Forall_app. split; [exact Hargs|]. constructor; [exact Harg | constructor].
Qed.

Lemma namesOk_Pipe (left : ExpressionNode) (name : string) (args : list ExpressionNode) :
  namesOk left -> isName name = true -> Forall namesOk args ->
  namesOk (PipeNode left (Filter name args)).
Proof.
  unfold namesOk, namesOf. cbn [variables filterNames].
  rewrite !forallb_app. cbn [forallb]. rewrite ?forallb_app, !andb_true_iff.
  intros [Hvl Hfl] Hname Hargs.
  assert (forallb isName (flat_map variables args) = true /\
          forallb isName (flat_map filterNames args) = true) as [Hva Hfa].
  { induction Hargs as [|arg rest Harg _ [IHv IHf]]; [split; reflexivity|].
    rewrite forallb_app, andb_true_iff in Harg. destruct Harg as [Hv Hf].
    cbn [flat_map]. rewrite !forallb_app, Hv, Hf, IHv, IHf. split; reflexivity. }
  auto 10.
Qed.

Lemma keeps_parseFilter (fuel : nat) :
  keeps (fun filter => match filter with
                       | Filter name args => isName name = true /\ Forall namesOk args
                       end) (parseFilter fuel).
Proof.
  unfold parseFilter. apply (keeps_bind _ _ _ _ (keeps_expect IDENTIFIER)).
  intros [ty name] [Hname Hty]. cbn [type] in Hty. subst ty.
  apply (keeps_bind _ _ _ _ (keeps_parseFilterArgs fuel [] ltac:(constructor))).
  intros args Hargs. apply keeps_ret. split; [exact Hname | exact Hargs].
Qed.

Lemma keeps_parsePipelineLoop (fuel : nat) (left : ExpressionNode) :
  namesOk left -> keeps namesOk (parsePipelineLoop fuel left).
Proof.
  revert left. induction fuel as [|fuel IH]; intros left Hleft; cbn [parsePipelineLoop];
    apply (keeps_bind _ _ _ _ (keeps_match PIPE)); intros [t|] _;
    try (apply keeps_ret; exact Hleft).
  - apply keeps_out_of_fuel.
  - apply (keeps_bind _ _ _ _ (keeps_parseFilter fuel)).
    intros [name args] [Hname Hargs]. apply IH, namesOk_Pipe; assumption.
Qed.

Lemma keeps_parsePipeline (fuel : nat) : keeps namesOk (parsePipeline fuel).
Proof.
  unfold parsePipeline. apply (keeps_bind _ _ _ _ keeps_parsePrimary).
  intros left Hleft. apply keeps_parsePipelineLoop, Hleft.
Qed.

Lemma namesOk_Or (left right : ExpressionNode) :
  namesOk left -> namesOk right -> namesOk (OrNode left right).
Proof.
  unfold namesOk, namesOf. cbn [variables filterNames].
  rewrite !forallb_app, !andb_true_iff. tauto.
Qed.

Lemma namesOk_Ternary (condition trueExpr falseExpr : ExpressionNode) :
  namesOk condition -> namesOk trueExpr -> namesOk falseExpr ->
  namesOk (TernaryNode condition trueExpr falseExpr).
Proof.
  unfold namesOk, namesOf. cbn [variables filterNames].
  rewrite !forallb_app, !andb_true_iff. tauto.
Qed.

Lemma keeps_parseOrLoop (fuel : nat) (left : ExpressionNode) :
  namesOk left -> keeps namesOk (parseOrLoop fuel left).
Proof.
  revert left. induction fuel as [|fuel IH]; intros left Hleft; cbn [parseOrLoop];
    apply (keeps_bind _ _ _ _ (keeps_match OR)); intros [t|] _;
    try (apply keeps_ret; exact Hleft).
  - apply keeps_out_of_fuel.
  - apply (keeps_bind _ _ _ _ (keeps_parsePipeline fuel)).
    intros right Hright. apply IH, namesOk_Or; assumption.
Qed.

Lemma keeps_parseOr (fuel : nat) : keeps namesOk (parseOr fuel).
Proof.
  unfold parseOr. apply (keeps_bind _ _ _ _ (keeps_parsePipeline fuel)).
  intros left Hleft. apply keeps_parseOrLoop, Hleft.
Qed.

Lemma keeps_parseExpression (fuel : nat) : keeps namesOk (parseExpression fuel).
Proof.
  induction fuel as [|fuel IH]; cbn [parseExpression]; [apply keeps_out_of_fuel|].
  unfold parseTernaryWith. apply (keeps_bind _ _ _ _ (keeps_parseOr fuel)).
  intros left Hleft. apply (keeps_bind _ _ _ _ (keeps_match QUESTION)).
  intros [t|] _; [|apply keeps_ret, Hleft].
  apply (keeps_bind _ _ _ _ IH). intros trueExpr Htrue.
  apply (keeps_bind _ _ _ _ (keeps_expect COLON)). intros _ _.
  apply (keeps_bind _ _ _ _ IH). intros falseExpr Hfalse.
  apply keeps_ret, namesOk_Ternary; assumption.
Qed.

Lemma keeps_parseTemplate (fuel : nat) :
  keeps (fun node => match node with
                     | TemplateNode expression => namesOk expression
                     | TextNode _ => False
                     end) (parseTemplate fuel).
Proof.
  unfold parseTemplate. apply (keeps_bind _ _ _ _ (keeps_expect OPEN_TEMPLATE)). intros _ _.
  apply (keeps_bind _ _ _ _ (keeps_parseExpression fuel)). intros expression Hexpr.
  apply (keeps_bind _ _ _ _ (keeps_expect CLOSE_TEMPLATE)). intros _ _.
  apply keeps_ret. exact Hexpr.
Qed.

Lemma parse_loop_printable (fuel : nat) (nodes : list ASTNode) (tokens : list Token)
    (ast : list ASTNode) (rest : list Token) :
  wellFormedTokens tokens = true ->
  parse_loop fuel nodes tokens = Some (Ok (ast, rest)) ->
  exists tail_,
    ast = (nodes ++ tail_)%list /\ printable tail_ = true /\ startsLike tokens tail_.
Proof.
  revert nodes tokens.
  induction fuel as [|fuel IH]; intros nodes [|t tokens] Htokens; cbn [parse_loop];
    try discriminate;
    try (intros [= <- _]; exists []; rewrite app_nil_r; repeat split; reflexivity).
  unfold bind at 1. rewrite parseNode_cons.
  destruct (type t) eqn:Hty;
    try (intros Hrun; apply wellFormedTokens_cons in Htokens as [_ Htokens];
         destruct (IH _ _ Htokens Hrun) as (tail_ & -> & Hprintable & _);
         exists tail_; repeat split; [exact Hprintable | cbn; rewrite Hty; discriminate]).
  - (* OPEN_TEMPLATE *)
    unfold bind at 1.
    destruct (parseTemplate fuel (t :: tokens)) as [[[node tokens']|]|] eqn:Htemplate;
      [|discriminate..].
    destruct (keeps_parseTemplate fuel _ _ _ Htokens Htemplate) as [Htokens' Hnames].
    pose proof (returns_parseTemplate fuel _ _ _ Htemplate) as Hnode.
    destruct node as [|expression]; [destruct Hnames|].
    unfold ret at 1. intros Hrun.
    destruct (IH _ _ Htokens' Hrun) as (tail_ & -> & Hprintable & _).
    exists (TemplateNode expression :: tail_). rewrite <- app_assoc. split; [reflexivity|].
    split; [|intros _; eauto].
    cbn [printable]. cbn [isNode] in Hnode. rewrite Hnode, Hprintable.
    unfold namesOk, namesOf in Hnames. rewrite Hnames. reflexivity.
  - (* TEXT *)
    intros Hrun. pose proof Htokens as Hall.
    apply wellFormedTokens_cons in Htokens as [Ht Htokens].
    destruct (IH _ _ Htokens Hrun) as (tail_ & -> & Hprintable & Hstarts).
    exists (TextNode (value t) :: tail_). rewrite <- app_assoc. split; [reflexivity|].
    split; [|cbn; rewrite Hty; discriminate].
    cbn [printable]. rewrite Hprintable, andb_true_r.
    unfold wellFormed in Ht. rewrite Hty in Ht. rewrite Ht. cbn [andb].
    unfold wellFormedTokens in Hall. apply andb_true_iff in Hall as [_ Hfollowed].
    cbn [textFollowed] in Hfollowed. rewrite Hty in Hfollowed.
    destruct tokens as [|next tokens].
    + cbn [startsLike] in Hstarts. subst tail_. reflexivity.
    + apply andb_true_iff in Hfollowed as [Hfollowed _].
      apply andb_true_iff in Hfollowed as [Hnext Hbrace].
      apply bool_decide_eq_true in Hnext.
      destruct (Hstarts Hnext) as (expression & rest' & ->). exact Hbrace.
Qed.

Lemma readIdentifier_spec (input identifier : string) :
  exists word,
    (readIdentifier identifier input).1 = identifier ++ word /\
    allChars is_word word = true.
Proof.
  revert identifier. induction input as [|c rest IH]; intros identifier.
  - exists "". rewrite append_nil_r. split; reflexivity.
  - cbn [readIdentifier]. destruct (is_word c) eqn:Hc.
    + destruct (IH (push_char identifier c)) as (word & -> & Hword).
      exists (String c word). rewrite push_char_append. cbn [allChars].
      rewrite Hc, Hword. split; reflexivity.
    + exists "". rewrite append_nil_r. split; reflexivity.
Qed.

Lemma readText_spec (input acc : string) :
  exists text after,
    readText acc input = (acc ++ text, after) /\ input = text ++ after /\
    containsOpen text = false /\ endsText text after.
Proof.
  revert acc. induction input as [|c rest IH]; intros acc.
  - exists "", "". rewrite append_nil_r. repeat split; left; reflexivity.
  - cbn [readText]. destruct (at_open (String c rest)) eqn:Hopen.
    + exists "", (String c rest). rewrite append_nil_r.
      repeat split. right. split; [exact Hopen | reflexivity].
    + destruct (IH (push_char acc c)) as (text & after & -> & -> & Hplain & Hends).
      exists (String c text), after. rewrite push_char_append.
      split; [reflexivity|]. split; [reflexivity|].
      change (String c (text ++ after)) with (String c text ++ after) in Hopen.
      destruct text as [|d text].
      * change ("" ++ after) with after in *.
        split; [cbn [containsOpen]; rewrite at_open_single; reflexivity|].
        destruct Hends as [->|[Hafter _]]; [left; reflexivity|]. right. split; [exact Hafter|].
        destruct after as [|a after]; [discriminate|].
        destruct after as [|b after]; [rewrite at_open_single in Hafter; discriminate|].
        rewrite at_open_spec in Hafter. apply andb_true_iff in Hafter as [Ha _].
        apply Ascii.eqb_eq in Ha. subst a.
        change (String c "" ++ String "{" (String b after))
          with (String c (String "{" (String b after))) in Hopen.
        rewrite at_open_spec in Hopen. cbn [endsWithBrace].
        change (Ascii.eqb "{" "{") with true in Hopen. rewrite andb_true_r in Hopen.
        exact Hopen.
      * change (String c (String d text) ++ after)
          with (String c (String d (text ++ after))) in Hopen.
        rewrite at_open_spec in Hopen.
        split.
        -- cbn [containsOpen] in *. rewrite at_open_spec, Hopen. exact Hplain.
        -- destruct Hends as [->|[Hafter Hbrace]]; [left; reflexivity|].
           right. split; [exact Hafter | exact Hbrace].
Qed.

Lemma wellFormedTokens_push (t : Token) (tokens : list Token) :
  wellFormed t = true -> type t <> TEXT -> wellFormedTokens tokens = true ->
  wellFormedTokens (t :: tokens) = true.
Proof.
  unfold wellFormedTokens. cbn [forallb textFollowed]. rewrite !andb_true_iff.
  intros Ht Hty [Htokens Hfollowed]. repeat split; try assumption.
  destruct (type t); try reflexivity. destruct (Hty eq_refl).
Qed.

Lemma lex_well_formed (n : nat) (input : string) (insideTemplate : bool) :
  String.length input <= n -> wellFormedTokens (lex insideTemplate input) = true.
Proof.
  revert input insideTemplate.
  induction n as [|n IH]; intros [|c rest] insideTemplate Hlen;
    try reflexivity; cbn [String.length] in Hlen; [lia|].
  assert (Hrest : String.length rest <= n) by lia.
  pose proof (skip2_shorter c rest) as Hskip.
  rewrite lex_unfold. cbv zeta.
  destruct (at_open (String c rest)) eqn:Hopen;
    [apply wellFormedTokens_push; [reflexivity | discriminate | apply IH; lia]|].
  destruct (at_close (String c rest)) eqn:Hclose;
    [apply wellFormedTokens_push; [reflexivity | discriminate | apply IH; lia]|].
  destruct insideTemplate.
  - destruct (is_space c); [apply IH; lia|].
    destruct (Ascii.eqb c "|");
      [apply wellFormedTokens_push; [reflexivity | discriminate | apply IH; lia]|].
    destruct (Ascii.eqb c "?");
      [apply wellFormedTokens_push; [reflexivity | discriminate | apply IH; lia]|].
    destruct (Ascii.eqb c ":");
      [apply wellFormedTokens_push; [reflexivity | discriminate | apply IH; lia]|].
    destruct (is_quote c).
    { apply wellFormedTokens_push; [reflexivity | discriminate |]. apply IH.
      pose proof (skipClosingQuote_shorter (readString c "" rest).2).
      pose proof (readString_shorter c rest ""). lia. }
    destruct (is_ident_start c) eqn:Hc; [|apply IH; lia].
    assert (Hafter : String.length (readIdentifier "" (String c rest)).2 <= n).
    { cbn [readIdentifier]. rewrite is_ident_start_word by exact Hc.
      pose proof (readIdentifier_shorter rest (push_char "" c)). lia. }
    assert (Hword : exists word, (readIdentifier "" (String c rest)).1 = String c word /\
                                 allChars is_word word = true).
    { cbn [readIdentifier]. rewrite is_ident_start_word by exact Hc.
      destruct (readIdentifier_spec rest (push_char "" c)) as (word & -> & Hword). eauto. }
    destruct Hword as (word & -> & Hword).
    apply wellFormedTokens_push; [| |apply IH, Hafter].
    + destruct (String.eqb (String c word) "or") eqn:Hor.
      * unfold wellFormed, lexable. cbn [type value]. exact Hor.
      * unfold wellFormed, lexable, isName. cbn [type value]. rewrite Hc, Hword, Hor.
        reflexivity.
    + cbn [type]. destruct (String.eqb (String c word) "or"); discriminate.
  - destruct (readText_spec (String c rest) "") as (text & after & Hread & Hinput & Hplain & Hends).
    assert (Hafter : String.length after <= n).
    { pose proof (readText_shorter rest (push_char "" c)) as Hshorter.
      cbn [readText] in Hread. rewrite Hopen in Hread. rewrite Hread in Hshorter.
      cbn [snd] in Hshorter. lia. }
    rewrite Hread. cbn [fst snd]. change ("" ++ text) with text.
    destruct text as [|d text].
    { destruct Hends as [->|[Hafter' _]]; [discriminate Hinput|].
      change ("" ++ after) with after in Hinput. subst after. congruence. }
    change (String d text =? "") with false. cbv iota. cbn [app].
    injection Hinput as <- Hrest'.
    assert (Htext : isText (String c text) = true).
    { unfold isText. rewrite Hplain. cbn [negb andb].
      apply negb_true_iff. destruct text as [|d text]; [apply at_close_single|].
      subst rest. change (String d text ++ after) with (String d (text ++ after)) in Hclose.
      rewrite at_close_spec in *. exact Hclose. }
    specialize (IH after false Hafter).
    unfold wellFormedTokens in *. cbn [forallb textFollowed type value].
    apply andb_true_iff in IH as [Hall Hfollowed].
    unfold wellFormed at 1. cbn [type value]. rewrite Htext, Hall, Hfollowed.
    rewrite andb_true_r. cbn [andb].
    destruct Hends as [->|[Hafter' Hbrace]]; [reflexivity|].
    destruct after as [|a after]; [discriminate|]. rewrite lex_unfold. cbv zeta.
    rewrite Hafter'. rewrite Hbrace. reflexivity.
Qed.

Lemma tokenize_printNodes (ast : list ASTNode) :
  printable ast = true -> tokenize (printNodes ast) = flat_map nodeTokens ast.
Proof. exact (lex_printNodes ast). Qed.

Lemma parse_printNodes (ast : list ASTNode) :
  printable ast = true -> parseTemplateSource (printNodes ast) = Ok ast.
Proof.
  intros Hast. unfold parseTemplateSource, parse.
  rewrite tokenize_printNodes by exact Hast.
  rewrite (parse_loop_tokens ast (S (length (flat_map nodeTokens ast))) []
             (printable_grammar ast Hast)) by lia.
  reflexivity.
Qed.

Lemma parse_result_printable (template : string) (ast : list ASTNode) :
  parseTemplateSource template = Ok ast -> printable ast = true.
Proof.
  unfold parseTemplateSource. intros Hparse.
  destruct (parse_eq (tokenize template)) as [(nodes & rest & Hloop & Heq)|(message & _ & Heq)];
    rewrite Heq in Hparse; [|discriminate].
  injection Hparse as ->.
  destruct (parse_loop_printable _ _ _ _ _
              (lex_well_formed _ template false (le_n _)) Hloop)
    as (tail_ & -> & Hprintable & _).
  exact Hprintable.
Qed.

(** X19: every token that the tokenizer produces is written as the
    tokenizer writes it: an OPEN_TEMPLATE is [{{], a CLOSE_TEMPLATE is [}}],
    the operators are [|], [?], [:] and [or], an IDENTIFIER is a letter or
    underscore followed by word characters and is not [or], a TEXT is not
    empty, contains no [{{] and does not begin with [}}]; and a TEXT token
    is the last token or is followed by an OPEN_TEMPLATE. *)
Theorem tokenize_well_formed (input : string) :
  wellFormedTokens (tokenize input) = true.
Proof. exact (lex_well_formed _ input false (le_n _)). Qed.

(** X20: every string can be written as a literal, in single or in double
    quotes, with a backslash in front of each quote and each backslash of
    the string: the tokenizer reads the string back, also when it contains
    quotes, backslashes or braces, and the placeholder renders it. *)
Theorem string_literal_round_trip (quote : ascii) (s : string) (e : TemplateEngine)
    (context : gmap string Value) :
  is_quote quote = true ->
  let template := String "{" (String "{" (String quote (escape quote s ++ String quote "}}"))) in
  tokenize template =
  [mkToken OPEN_TEMPLATE "{{"; mkToken STRING s; mkToken CLOSE_TEMPLATE "}}"] /\
  (cacheConsistent e -> (render e template context).1 = Ok s).
Proof.
  intros Hquote template.
  assert (Hclass : Ascii.eqb quote "\" = false /\
                   forall rest, lex true (String quote rest) =
                     mkToken STRING (readString quote "" rest).1 ::
                     lex true (skipClosingQuote (readString quote "" rest).2)).
  { unfold is_quote in Hquote. apply orb_true_iff in Hquote.
    destruct Hquote as [Hq|Hq]; apply Ascii.eqb_eq in Hq; subst quote;
      (split; [reflexivity | intros rest; rewrite lex_unfold; reflexivity]). }
  destruct Hclass as [Hbackslash Hlex].
  assert (Htokens : tokenize template =
                    [mkToken OPEN_TEMPLATE "{{"; mkToken STRING s; mkToken CLOSE_TEMPLATE "}}"]).
  { change (tokenize template) with (lex false template). unfold template.
    rewrite lex_unfold. cbv zeta.
    change (at_open (String "{" (String "{" _))) with true. cbv iota. cbn [skip2].
    rewrite Hlex, readString_escape by exact Hbackslash.
    cbn [fst snd skipClosingQuote]. reflexivity. }
  split; [exact Htokens|].
  intros He. rewrite render_result by exact He.
  unfold parseTemplateSource. rewrite Htokens.
  change (parse [mkToken OPEN_TEMPLATE "{{"; mkToken STRING s; mkToken CLOSE_TEMPLATE "}}"])
    with (Ok [TemplateNode (StringNode s)] : result (list ASTNode)).
  cbn. rewrite append_nil_r. reflexivity.
Qed.

Lemma string_literal_round_trip_witness :
  (render newTemplateEngine "{{'it\'s {{a}} \\ '}}" ∅).1 = Ok "it's {{a}} \ ".
Proof.
  exact (proj2 (string_literal_round_trip "'" "it's {{a}} \ " newTemplateEngine ∅ eq_refl)
           cacheConsistent_new).
Defined.

(** X21: a template that spells a tree is read back as that tree.  For every
    tree whose expressions are expressions of the grammar with names that
    are identifiers, and whose texts are not empty, contain no [{{], do not
    begin with [}}], are not adjacent and do not end with an opening brace
    in front of a placeholder, the tokenizer reads the printed template as
    the tokens of the tree, the parser returns the tree, and [render]
    evaluates the tree. *)
Theorem print_parse (ast : list ASTNode) (e : TemplateEngine)
    (context : gmap string Value) :
  printable ast = true ->
  tokenize (printNodes ast) = flat_map nodeTokens ast /\
  parseTemplateSource (printNodes ast) = Ok ast /\
  (cacheConsistent e ->
   (render e (printNodes ast) context).1 = evaluate (filters e) context ast).
Proof.
  intros Hast. split; [exact (tokenize_printNodes ast Hast)|].
  split; [exact (parse_printNodes ast Hast)|].
  intros He. rewrite render_result by exact He.
  rewrite parse_printNodes by exact Hast. reflexivity.
Qed.

Lemma print_parse_witness :
  parseTemplateSource "Hello {{name | default 'you\'re' or other ? a : 'b' }}!" =
  Ok [TextNode "Hello ";
      TemplateNode
        (TernaryNode
           (OrNode (PipeNode (VariableNode "name") (Filter "default" [StringNode "you're"]))
              (VariableNode "other"))
           (VariableNode "a") (StringNode "b"));
      TextNode "!"].
Proof.
  exact (proj1 (proj2 (print_parse
    [TextNode "Hello ";
     TemplateNode
       (TernaryNode
          (OrNode (PipeNode (VariableNode "name") (Filter "default" [StringNode "you're"]))
             (VariableNode "other"))
          (VariableNode "a") (StringNode "b"));
     TextNode "!"] newTemplateEngine ∅ eq_refl))).
Defined.

(** X22: the trees that the parser returns for a template are exactly the
    trees that a template can spell: whatever the template, the tree that
    [new TemplateParser(template).parse()] returns has names that are
    identifiers, expressions of the grammar and texts as the tokenizer
    cuts them, and parsing the printed tree returns the same tree. *)
Theorem parse_printable (template : string) (ast : list ASTNode) :
  parseTemplateSource template = Ok ast ->
  printable ast = true /\ parseTemplateSource (printNodes ast) = Ok ast.
Proof.
  intros Hparse. pose proof (parse_result_printable template ast Hparse) as Hast.
  split; [exact Hast | exact (parse_printNodes ast Hast)].
Qed.

Lemma parse_printable_witness :
  printable [TextNode "a}} "; TemplateNode (PipeNode (VariableNode "x") (Filter "f" []))] = true /\
  parseTemplateSource
    (printNodes [TextNode "a}} "; TemplateNode (PipeNode (VariableNode "x") (Filter "f" []))]) =
  Ok [TextNode "a}} "; TemplateNode (PipeNode (VariableNode "x") (Filter "f" []))].
Proof.
  apply (parse_printable "a}} {{ x $ | f }}"). vm_compute. reflexivity.
Defined.

Lemma wellFormed_operator (t : Token) (ty : TokenType) (v : string) :
  wellFormed (mkToken ty v) = true -> wellFormed t = true -> type t = ty ->
  ty <> STRING -> ty <> IDENTIFIER -> ty <> TEXT -> t = mkToken ty v.
Proof.
  destruct t as [ty' v']. cbn [type]. intros Hv Ht -> Hs Hi Hx.
  unfold wellFormed, lexable in *. cbn [type value] in *.
  destruct ty; try congruence;
    apply String.eqb_eq in Hv, Ht; congruence.
Qed.

Lemma parsePrimary_reads (tokens rest : list Token) (expr : ExpressionNode) :
  parsePrimary tokens = Some (Ok (expr, rest)) ->
  tokens = (expressionTokens expr ++ rest)%list.
Proof.
  intros Hrun. apply parsePrimary_inv in Hrun as ([ty v] & -> & [[Hty ->]|[Hty ->]]);
    cbn [type value] in *; subst ty; reflexivity.
Qed.

Lemma parseFilterArgs_reads (fuel : nat) (args args' : list ExpressionNode)
    (tokens rest : list Token) :
  parseFilterArgs fuel args tokens = Some (Ok (args', rest)) ->
  exists new,
    args' = (args ++ new)%list /\ tokens = (flat_map expressionTokens new ++ rest)%list.
Proof.
  revert args tokens.
  induction fuel as [|fuel IH]; intros args [|t tokens]; cbn [parseFilterArgs];
    unfold bind at 1, peek; cbn [head];
    try (intros [= <- <-]; exists []; rewrite app_nil_r; split; reflexivity);
    destruct (ends_arguments (type t));
    try (intros [= <- <-]; exists []; rewrite app_nil_r; split; reflexivity);
    try discriminate.
  unfold bind at 1.
  destruct (parsePrimary (t :: tokens)) as [[[arg tokens1]|]|] eqn:Hprimary; [|discriminate..].
  intros Hrun. apply IH in Hrun as (new & -> & ->).
  apply parsePrimary_reads in Hprimary as ->.
  exists (arg :: new). cbn [flat_map]. rewrite <- !app_assoc. split; reflexivity.
Qed.

Lemma parseFilter_reads (fuel : nat) (tokens rest : list Token) (name : string)
    (args : list ExpressionNode) :
  parseFilter fuel tokens = Some (Ok (Filter name args, rest)) ->
  tokens = (mkToken IDENTIFIER name :: flat_map expressionTokens args ++ rest)%list.
Proof.
  unfold parseFilter. unfold bind at 1.
  destruct (expect IDENTIFIER tokens) as [[[[ty v] tokens1]|]|] eqn:Hexpect; [|discriminate..].
  apply expect_inv in Hexpect as [Hty ->]. cbn [type] in Hty. subst ty.
  unfold bind at 1.
  destruct (parseFilterArgs fuel [] tokens1) as [[[args' tokens2]|]|] eqn:Hargs;
    [|discriminate..].
  apply parseFilterArgs_reads in Hargs as (new & -> & ->).
  intros [= <- <- <-]. reflexivity.
Qed.

Lemma parsePipelineLoop_reads (fuel : nat) (left expr : ExpressionNode)
    (tokens rest : list Token) :
  wellFormedTokens tokens = true ->
  parsePipelineLoop fuel left tokens = Some (Ok (expr, rest)) ->
  exists suffix_,
    expressionTokens expr = (expressionTokens left ++ suffix_)%list /\
    tokens = (suffix_ ++ rest)%list.
Proof.
  revert left tokens.
  induction fuel as [|fuel IH]; intros left tokens Htokens; cbn [parsePipelineLoop];
    unfold bind at 1;
    destruct (match_ PIPE tokens) as [[[[t|] tokens1]|]|] eqn:Hmatch; try discriminate;
    try (apply match_inv in Hmatch as [(t' & [=] & _)|(_ & -> & _)];
         intros [= <- <-]; exists []; rewrite app_nil_r; split; reflexivity).
  apply match_inv in Hmatch as [(t' & [= <-] & Hty & ->)|([=] & _)].
  apply wellFormedTokens_cons in Htokens as [Ht Htokens].
  rewrite (wellFormed_operator t PIPE "|") by (assumption || reflexivity || discriminate).
  unfold bind at 1.
  destruct (parseFilter fuel tokens1) as [[[[name args] tokens2]|]|] eqn:Hfilter;
    [|discriminate..].
  destruct (keeps_parseFilter fuel _ _ _ Htokens Hfilter) as [Htokens2 _].
  apply parseFilter_reads in Hfilter as ->.
  intros Hrun. apply (IH _ _ Htokens2) in Hrun as (suffix_ & -> & ->).
  cbn [expressionTokens].
  exists (mkToken PIPE "|" :: mkToken IDENTIFIER name ::
          flat_map expressionTokens args ++ suffix_)%list.
  rewrite <- !app_assoc. cbn [app]. rewrite <- !app_assoc. split; reflexivity.
Qed.

Lemma parsePipeline_reads (fuel : nat) (expr : ExpressionNode) (tokens rest : list Token) :
  wellFormedTokens tokens = true ->
  parsePipeline fuel tokens = Some (Ok (expr, rest)) ->
  tokens = (expressionTokens expr ++ rest)%list.
Proof.
  intros Htokens. unfold parsePipeline. unfold bind at 1.
  destruct (parsePrimary tokens) as [[[left tokens1]|]|] eqn:Hprimary; [|discriminate..].
  destruct (keeps_parsePrimary _ _ _ Htokens Hprimary) as [Htokens1 _].
  apply parsePrimary_reads in Hprimary as ->.
  intros Hrun. apply (parsePipelineLoop_reads _ _ _ _ _ Htokens1) in Hrun as (suffix_ & -> & ->).
  rewrite <- app_assoc. reflexivity.
Qed.

Lemma parseOrLoop_reads (fuel : nat) (left expr : ExpressionNode)
    (tokens rest : list Token) :
  wellFormedTokens tokens = true ->
  parseOrLoop fuel left tokens = Some (Ok (expr, rest)) ->
  exists suffix_,
    expressionTokens expr = (expressionTokens left ++ suffix_)%list /\
    tokens = (suffix_ ++ rest)%list.
Proof.
  revert left tokens.
  induction fuel as [|fuel IH]; intros left tokens Htokens; cbn [parseOrLoop];
    unfold bind at 1;
    destruct (match_ OR tokens) as [[[[t|] tokens1]|]|] eqn:Hmatch; try discriminate;
    try (apply match_inv in Hmatch as [(t' & [=] & _)|(_ & -> & _)];
         intros [= <- <-]; exists []; rewrite app_nil_r; split; reflexivity).
  apply match_inv in Hmatch as [(t' & [= <-] & Hty & ->)|([=] & _)].
  apply wellFormedTokens_cons in Htokens as [Ht Htokens].
  rewrite (wellFormed_operator t OR "or") by (assumption || reflexivity || discriminate).
  unfold bind at 1.
  destruct (parsePipeline fuel tokens1) as [[[right tokens2]|]|] eqn:Hright;
    [|discriminate..].
  destruct (keeps_parsePipeline fuel _ _ _ Htokens Hright) as [Htokens2 _].
  apply parsePipeline_reads in Hright as ->; [|exact Htokens].
  intros Hrun. apply (IH _ _ Htokens2) in Hrun as (suffix_ & -> & ->).
  cbn [expressionTokens].
  exists (mkToken OR "or" :: expressionTokens right ++ suffix_)%list.
  rewrite <- !app_assoc. cbn [app]. rewrite <- !app_assoc. split; reflexivity.
Qed.

Lemma parseOr_reads (fuel : nat) (expr : ExpressionNode) (tokens rest : list Token) :
  wellFormedTokens tokens = true ->
  parseOr fuel tokens = Some (Ok (expr, rest)) ->
  tokens = (expressionTokens expr ++ rest)%list.
Proof.
  intros Htokens. unfold parseOr. unfold bind at 1.
  destruct (parsePipeline fuel tokens) as [[[left tokens1]|]|] eqn:Hleft; [|discriminate..].
  destruct (keeps_parsePipeline fuel _ _ _ Htokens Hleft) as [Htokens1 _].
  apply parsePipeline_reads in Hleft as ->; [|exact Htokens].
  intros Hrun. apply (parseOrLoop_reads _ _ _ _ _ Htokens1) in Hrun as (suffix_ & -> & ->).
  rewrite <- app_assoc. reflexivity.
Qed.

Lemma parseExpression_reads (fuel : nat) (expr : ExpressionNode) (tokens rest : list Token) :
  wellFormedTokens tokens = true ->
  parseExpression fuel tokens = Some (Ok (expr, rest)) ->
  tokens = (expressionTokens expr ++ rest)%list.
Proof.
  revert expr tokens rest.
  induction fuel as [|fuel IH]; intros expr tokens rest Htokens; cbn [parseExpression];
    [discriminate|].
  unfold parseTernaryWith. unfold bind at 1.
  destruct (parseOr fuel tokens) as [[[left tokens1]|]|] eqn:Hleft; [|discriminate..].
  destruct (keeps_parseOr fuel _ _ _ Htokens Hleft) as [Htokens1 _].
  apply parseOr_reads in Hleft as ->; [|exact Htokens].
  unfold bind at 1.
  destruct (match_ QUESTION tokens1) as [[[[t|] tokens2]|]|] eqn:Hmatch; try discriminate.
  - apply match_inv in Hmatch as [(t' & [= <-] & Hty & ->)|([=] & _)].
    apply wellFormedTokens_cons in Htokens1 as [Ht Htokens2].
    rewrite (wellFormed_operator t QUESTION "?") by (assumption || reflexivity || discriminate).
    unfold bind at 1.
    destruct (parseExpression fuel tokens2) as [[[trueExpr tokens3]|]|] eqn:Htrue;
      [|discriminate..].
    destruct (keeps_parseExpression fuel _ _ _ Htokens2 Htrue) as [Htokens3 _].
    apply IH in Htrue as ->; [|exact Htokens2].
    unfold bind at 1.
    destruct (expect COLON tokens3) as [[[colon tokens4]|]|] eqn:Hcolon; [|discriminate..].
    destruct (keeps_expect COLON _ _ _ Htokens3 Hcolon) as [Htokens4 [Hwf _]].
    apply expect_inv in Hcolon as [Hty' ->].
    rewrite (wellFormed_operator colon COLON ":") by (assumption || reflexivity || discriminate).
    unfold bind at 1.
    destruct (parseExpression fuel tokens4) as [[[falseExpr tokens5]|]|] eqn:Hfalse;
      [|discriminate..].
    apply IH in Hfalse as ->; [|exact Htokens4].
    intros [= <- <-]. cbn [expressionTokens].
    rewrite <- !app_assoc. cbn [app]. rewrite <- !app_assoc. reflexivity.
  - apply match_inv in Hmatch as [(t' & [=] & _)|(_ & -> & _)].
    intros [= <- <-]. reflexivity.
Qed.

Lemma parseTemplate_reads (fuel : nat) (node : ASTNode) (tokens rest : list Token) :
  wellFormedTokens tokens = true ->
  parseTemplate fuel tokens = Some (Ok (node, rest)) ->
  exists expression,
    node = TemplateNode expression /\ tokens = (nodeTokens node ++ rest)%list.
Proof.
  intros Htokens. unfold parseTemplate. unfold bind at 1.
  destruct (expect OPEN_TEMPLATE tokens) as [[[open tokens1]|]|] eqn:Hopen; [|discriminate..].
  destruct (keeps_expect OPEN_TEMPLATE _ _ _ Htokens Hopen) as [Htokens1 [Hwf _]].
  apply expect_inv in Hopen as [Hty ->].
  rewrite (wellFormed_operator open OPEN_TEMPLATE "{{")
    by (assumption || reflexivity || discriminate).
  unfold bind at 1.
  destruct (parseExpression fuel tokens1) as [[[expression tokens2]|]|] eqn:Hexpr;
    [|discriminate..].
  destruct (keeps_parseExpression fuel _ _ _ Htokens1 Hexpr) as [Htokens2 _].
  apply parseExpression_reads in Hexpr as ->; [|exact Htokens1].
  unfold bind at 1.
  destruct (expect CLOSE_TEMPLATE tokens2) as [[[close tokens3]|]|] eqn:Hclose;
    [|discriminate..].
  destruct (keeps_expect CLOSE_TEMPLATE _ _ _ Htokens2 Hclose) as [Htokens3 [Hwf' _]].
  apply expect_inv in Hclose as [Hty' ->].
  rewrite (wellFormed_operator close CLOSE_TEMPLATE "}}")
    by (assumption || reflexivity || discriminate).
  intros [= <- <-]. exists expression. split; [reflexivity|].
  cbn [nodeTokens app]. rewrite <- app_assoc. reflexivity.
Qed.

Lemma expressionTokens_no_close (expr : ExpressionNode) :
  Forall (fun t => type t <> CLOSE_TEMPLATE) (expressionTokens expr).
Proof.
  induction expr as [x|value|left0 name0 args0 IHleft IHargs
                    |condition trueExpr falseExpr IHc IHt IHf
                    |left0 right0 IHl IHr] using ExpressionNode_nested_ind;
    cbn [expressionTokens].
  - repeat constructor. discriminate.
  - repeat constructor. discriminate.
  - apply Forall_app. split; [exact IHleft|].
    constructor; [discriminate|]. constructor; [discriminate|].
    induction IHargs as [|arg rest IHarg _ IHrest]; [constructor|].
    cbn [flat_map]. apply Forall_app. split; assumption.
  - apply Forall_app. split; [exact IHc|]. constructor; [discriminate|].
    apply Forall_app. split; [exact IHt|]. constructor; [discriminate | exact IHf].
  - apply Forall_app. split; [exact IHl|]. constructor; [discriminate | exact IHr].
Qed.

Lemma readTokens_inside (tokens rest : list Token) :
  Forall (fun t => type t <> CLOSE_TEMPLATE) tokens ->
  readTokens true (tokens ++ mkToken CLOSE_TEMPLATE "}}" :: rest) =
  (tokens ++ mkToken CLOSE_TEMPLATE "}}" :: readTokens false rest)%list.
Proof.
  induction 1 as [|t tokens Ht _ IH]; [reflexivity|].
  cbn [app readTokens]. rewrite bool_decide_eq_false_2 by exact Ht. cbn [negb].
  rewrite IH. reflexivity.
Qed.

Lemma parse_loop_reads (fuel : nat) (nodes : list ASTNode) (tokens : list Token)
    (ast : list ASTNode) (rest : list Token) :
  wellFormedTokens tokens = true ->
  parse_loop fuel nodes tokens = Some (Ok (ast, rest)) ->
  exists tail_,
    ast = (nodes ++ tail_)%list /\ readTokens false tokens = flat_map nodeTokens tail_.
Proof.
  revert nodes tokens.
  induction fuel as [|fuel IH]; intros nodes [|t tokens] Htokens; cbn [parse_loop];
    try discriminate;
    try (intros [= <- _]; exists []; rewrite app_nil_r; split; reflexivity).
  unfold bind at 1. rewrite parseNode_cons. cbn [readTokens].
  destruct (type t) eqn:Hty;
    try (intros Hrun; apply wellFormedTokens_cons in Htokens as [_ Htokens];
         destruct (IH _ _ Htokens Hrun) as (tail_ & -> & Hread);
         exists tail_; split; [reflexivity | exact Hread]).
  - unfold bind at 1.
    destruct (parseTemplate fuel (t :: tokens)) as [[[node tokens']|]|] eqn:Htemplate;
      [|discriminate..].
    destruct (keeps_parseTemplate fuel _ _ _ Htokens Htemplate) as [Htokens' _].
    apply (parseTemplate_reads _ _ _ _ Htokens) in Htemplate as (expression & -> & Heq).
    unfold ret at 1. intros Hrun.
    destruct (IH _ _ Htokens' Hrun) as (tail_ & -> & Hread).
    exists (TemplateNode expression :: tail_). rewrite <- app_assoc.
    split; [reflexivity|].
    cbn [nodeTokens app] in Heq. injection Heq as -> ->.
    rewrite <- app_assoc. cbn [app flat_map nodeTokens].
    rewrite readTokens_inside by apply expressionTokens_no_close.
    rewrite Hread, <- app_assoc. reflexivity.
  - intros Hrun. apply wellFormedTokens_cons in Htokens as [_ Htokens].
    destruct (IH _ _ Htokens Hrun) as (tail_ & -> & Hread).
    exists (TextNode (value t) :: tail_). rewrite <- app_assoc. split; [reflexivity|].
    cbn [flat_map nodeTokens app]. rewrite Hread. destruct t as [ty v].
    cbn [type value] in *. subst ty. reflexivity.
Qed.

(** X23: the parser reads every token of a template that it accepts, in
    order, apart from what stands outside the placeholders and is neither
    a text nor an opening: the tokens of the returned tree are the tokens
    of the template without those, and they are the tokens of the printed
    tree. *)
Theorem parse_reads_tokens (template : string) (ast : list ASTNode) :
  parseTemplateSource template = Ok ast ->
  readTokens false (tokenize template) = flat_map nodeTokens ast /\
  readTokens false (tokenize template) = tokenize (printNodes ast).
Proof.
  unfold parseTemplateSource. intros Hparse.
  assert (Hread : readTokens false (tokenize template) = flat_map nodeTokens ast).
  { destruct (parse_eq (tokenize template)) as [(nodes & rest & Hloop & Heq)|(message & _ & Heq)];
      rewrite Heq in Hparse; [|discriminate].
    injection Hparse as ->.
    destruct (parse_loop_reads _ _ _ _ _ (lex_well_formed _ template false (le_n _)) Hloop)
      as (tail_ & -> & Hread).
    exact Hread. }
  split; [exact Hread|].
  rewrite Hread. symmetry. apply tokenize_printNodes.
  apply (parse_result_printable template). exact Hparse.
Qed.

Lemma parse_reads_tokens_witness :
  readTokens false (tokenize "}}a{{ x | f 'y' }}}}") =
  flat_map nodeTokens
    [TextNode "a"; TemplateNode (PipeNode (VariableNode "x") (Filter "f" [StringNode "y"]))].
Proof.
  apply (parse_reads_tokens "}}a{{ x | f 'y' }}}}"). vm_compute. reflexivity.
Defined.

(** * Further properties: errors of evaluation, falsy bindings, chains of [or] *)

Lemma member_None (registry : gmap string FilterFunction) (name : string) :
  member registry name = None <->
  registry !! name = None /\ inherited name = VUndefined.
Proof.
  unfold member, inherited.
  destruct (registry !! name) as [filterFn|]; [intuition discriminate|].
  destruct (String.eqb name "__proto__"); [intuition discriminate|].
  destruct (find _ objectMethods); intuition discriminate.
Qed.

(** X24: which filter [render] reports as unknown, in an engine where
    nothing was registered under [__proto__].  When the template does not
    parse, [render] throws the message of the parser, which is no
    "Unknown filter" message.  When it parses, take the names that
    [applyFilter] looks up during the evaluation, in order.  If the last of
    them is neither registered nor a member of [Object.prototype],
    [render] throws "Unknown filter: " followed by that name; such a name
    can only be the last one looked up, every earlier lookup having found
    something; and when the filters that are called all return, [render]
    throws nothing else: it throws "Unknown filter: <name>" exactly when
    <name> is the last name looked up and the lookup finds nothing.  What
    the nodes in front of the failing one rendered is not returned. *)
Theorem render_unknown_filter (e : TemplateEngine) (template : string)
    (context : gmap string Value) :
  cacheConsistent e ->
  filters e !! "__proto__" = None ->
  (forall message,
      parseTemplateSource template = Throw message ->
      (render e template context).1 = Throw (Error message) /\
      forall name, message <> "Unknown filter: " ++ name) /\
  (forall ast,
      parseTemplateSource template = Ok ast ->
      (forall found name,
          appliedNodes (filters e) context ast = (found ++ [name])%list ->
          member (filters e) name = None ->
          (render e template context).1 = Throw (Error ("Unknown filter: " ++ name))) /\
      (forall name,
          In name (appliedNodes (filters e) context ast) ->
          member (filters e) name = None ->
          exists found,
            appliedNodes (filters e) context ast = (found ++ [name])%list /\
            allFound (filters e) found) /\
      (allReturn (filters e) (appliedNodes (filters e) context ast) ->
       (forall thrown,
           (render e template context).1 = Throw thrown ->
           exists name, thrown = Error ("Unknown filter: " ++ name)) /\
       (forall name,
           (render e template context).1 = Throw (Error ("Unknown filter: " ++ name)) <->
           exists found,
             appliedNodes (filters e) context ast = (found ++ [name])%list /\
             member (filters e) name = None))) /\
  (forall name,
      member (filters e) name = None <->
      filters e !! name = None /\ inherited name = VUndefined) /\
  (forall before after rendered thrown,
      evaluate (filters e) context before = Ok rendered ->
      evaluate (filters e) context after = Throw thrown ->
      evaluate (filters e) context (before ++ after) = Throw thrown).
Proof.
  intros He _. split; [|split; [|split]].
  - intros message Hparse. rewrite render_result, Hparse by exact He.
    split; [reflexivity|].
    intros name ->. apply (ParseErrorMessage_not_unknown_filter name).
    apply (parse_throws (tokenize template)). exact Hparse.
  - intros ast Hparse.
    assert (Hrender : (render e template context).1 = evaluate (filters e) context ast)
      by (rewrite render_result, Hparse by exact He; reflexivity).
    rewrite Hrender.
    pose proof (evaluate_accounted (filters e) context ast) as Haccounted.
    set (names := appliedNodes (filters e) context ast) in *.
    assert (Hlast : forall name,
      In name names -> member (filters e) name = None ->
      exists found,
        names = (found ++ [name])%list /\ allFound (filters e) found /\
        evaluate (filters e) context ast = Throw (Error ("Unknown filter: " ++ name))).
    { intros name Hin Hnone.
      destruct (evaluate (filters e) context ast) as [rendered|thrown];
        cbn [accounted] in Haccounted.
      - destruct (allFound_not_found _ _ _ Haccounted Hin Hnone).
      - destruct Haccounted as [(found & name' & Hnames & Hfound & Hnone' & ->)
                               |(Hfound & _)];
          [|destruct (allFound_not_found _ _ _ Hfound Hin Hnone)].
        rewrite Hnames in Hin. apply in_app_iff in Hin as [Hin|[<-|[]]].
        + destruct (allFound_not_found _ _ _ Hfound Hin Hnone).
        + exists found. auto. }
    split; [|split].
    + intros found name Hnames Hnone.
      destruct (Hlast name) as (_ & _ & _ & Hthrow); [|exact Hnone | exact Hthrow].
      rewrite Hnames, in_app_iff. right. left. reflexivity.
    + intros name Hin Hnone.
      destruct (Hlast name Hin Hnone) as (found & Hnames & Hfound & _). eauto.
    + intros Hreturn.
      assert (Hthrown : forall thrown,
        evaluate (filters e) context ast = Throw thrown ->
        exists found name,
          names = (found ++ [name])%list /\ member (filters e) name = None /\
          thrown = Error ("Unknown filter: " ++ name)).
      { intros thrown Hthrow. rewrite Hthrow in Haccounted. cbn [accounted] in Haccounted.
        destruct Haccounted as [(found & name & Hnames & _ & Hnone & ->)
                               |(_ & name & filterFn & value & args & Hin & Hsome & Hcall)];
          [eauto|].
        destruct (Hreturn name filterFn Hin Hsome value args) as [returned Hreturned].
        congruence. }
      split.
      * intros thrown Hthrow.
        destruct (Hthrown thrown Hthrow) as (_ & name & _ & _ & ->). eauto.
      * intros name. split.
        -- intros Hthrow.
           destruct (Hthrown _ Hthrow) as (found & name' & Hnames & Hnone & Heq).
           injection Heq as Heq. change (name = name') in Heq. subst name'. eauto.
        -- intros (found & Hnames & Hnone).
           destruct (Hlast name) as (_ & _ & _ & Hthrow); [|exact Hnone | exact Hthrow].
           rewrite Hnames, in_app_iff. right. left. reflexivity.
  - intros name. apply member_None.
  - intros before after rendered thrown. apply evaluate_app_throws.
Qed.

Lemma render_unknown_filter_witness :
  (render newTemplateEngine "a {{ x | upper }} b {{ x | nope | lower }}"
     {["x" := VNumber (Int 1)]}).1 = Throw (Error "Unknown filter: nope").
Proof.
  apply (proj1 (proj1 (proj2
           (render_unknown_filter newTemplateEngine
              "a {{ x | upper }} b {{ x | nope | lower }}" {["x" := VNumber (Int 1)]}
              cacheConsistent_new eq_refl))
           [TextNode "a "; TemplateNode (PipeNode (VariableNode "x") (Filter "upper" []));
            TextNode " b ";
            TemplateNode (PipeNode (PipeNode (VariableNode "x") (Filter "nope" []))
                            (Filter "lower" []))]
           ltac:(vm_compute; reflexivity))
         ["upper"] "nope"); vm_compute; reflexivity.
Defined.

(** X25: a variable bound to a falsy value, such as 0 or [false],
    evaluates to the empty string (the name [__proto__] is left out: an
    object literal does not bind it); and when its name is not the name of
    a member of [Object.prototype], no expression, tree or template tells
    such a binding from the absence of the variable. *)
Theorem falsy_binding_is_absent (registry : gmap string FilterFunction)
    (context : gmap string Value) (x : string) (v : Value) :
  truthy v = false ->
  x <> "__proto__" ->
  evaluateExpression registry (<[x := v]> context) (VariableNode x) = Ok (VString "") /\
  (inherited x = VUndefined ->
   (forall expr,
       evaluateExpression registry (<[x := v]> context) expr =
       evaluateExpression registry (delete x context) expr) /\
   (forall ast,
       evaluate registry (<[x := v]> context) ast =
       evaluate registry (delete x context) ast) /\
   (forall e template,
       render e template (<[x := v]> context) = render e template (delete x context))) /\
  truthy (VNumber (Int 0)) = false /\ truthy (VBoolean false) = false.
Proof.
  intros Hfalsy _.
  split.
  { cbn [evaluateExpression]. unfold lookupVariable, or_else.
    rewrite lookup_insert_eq. rewrite Hfalsy. reflexivity. }
  split; [|split; reflexivity].
  intros Hplain.
  split; [intros expr; apply evaluateExpression_falsy; assumption|].
  split; [intros ast; apply evaluate_falsy; assumption|].
  intros e template. rewrite !render_eq.
  destruct (compile e template).1 as [ast|message]; cbn [rethrow andThen]; [|reflexivity].
  rewrite evaluate_falsy by assumption. reflexivity.
Qed.

Lemma falsy_binding_is_absent_witness :
  evaluateExpression builtin_filters (<["x" := VNumber (Int 0)]> ∅) (VariableNode "x") =
    Ok (VString "") /\
  render newTemplateEngine "{{ x or 'none' }}" (<["x" := VBoolean false]> ∅) =
    render newTemplateEngine "{{ x or 'none' }}" (delete "x" ∅).
Proof.
  split.
  - apply (falsy_binding_is_absent builtin_filters ∅ "x" (VNumber (Int 0)));
      [reflexivity | discriminate].
  - apply (falsy_binding_is_absent builtin_filters ∅ "x" (VBoolean false));
      [reflexivity | discriminate | reflexivity].
Defined.

(** X26: [parseOr] folds a chain of [or] to the left, so that
    [a or b or c] is [Or{Or{a,b},c}]; the chain evaluates to the value of
    its first truthy operand from the left (of the last one when none is
    truthy); [render('{{ a or b or c }}', {b:'S'})] is "S"; and a chain of
    variables that are all unset (no key of the context, and no member of
    [Object.prototype], which every context has), followed by a string
    literal, evaluates to the literal, as [{{ a or b or 'fallback' }}]
    does in the empty context. *)
Theorem or_chain_first_truthy (e : TemplateEngine) :
  cacheConsistent e ->
  parseTemplateSource "{{ a or b or c }}" =
    Ok [TemplateNode (orChain (VariableNode "a") [VariableNode "b"; VariableNode "c"])] /\
  orChain (VariableNode "a") [VariableNode "b"; VariableNode "c"] =
    OrNode (OrNode (VariableNode "a") (VariableNode "b")) (VariableNode "c") /\
  (forall first operands fuel tail,
      isPrimary first = true ->
      forallb isPrimary operands = true ->
      endsOrChain tail ->
      length operands <= fuel ->
      parseOr fuel (first :: orTokens operands ++ tail)%list =
      Some (Ok (orChain (primaryNode first) (map primaryNode operands), tail))) /\
  (forall registry context first rest,
      evaluateExpression registry context (orChain first rest) =
      firstTruthy registry context first rest) /\
  (render e "{{ a or b or c }}" {["b" := VString "S"]}).1 = Ok "S" /\
  (forall registry context first names literal,
      Forall (fun name => context !! name = None /\ inherited name = VUndefined)
        (first :: names) ->
      evaluateExpression registry context
        (orChain (VariableNode first) (map VariableNode names ++ [StringNode literal])%list) =
      Ok (VString literal)) /\
  (render e "{{ a or b or 'fallback' }}" ∅).1 = Ok "fallback".
Proof.
  intros He.
  split; [exact parse_or_abc|]. split; [reflexivity|].
  split; [exact parseOr_chain|].
  split; [intros; apply evaluateExpression_orChain|].
  split; [rewrite render_result by exact He; rewrite parse_or_abc; reflexivity|].
  split.
  - intros registry context first names literal Habsent.
    rewrite evaluateExpression_orChain. apply firstTruthy_fallback.
    eapply Forall_impl; [exact Habsent|].
    intros name [Hname Hplain]. unfold lookupVariable. rewrite Hname, Hplain. reflexivity.
  - rewrite render_result by exact He. vm_compute. reflexivity.
Qed.

Lemma or_chain_first_truthy_witness :
  (render newTemplateEngine "{{ a or b or c }}" {["b" := VString "S"]}).1 = Ok "S" /\
  parseOr 2 [mkToken IDENTIFIER "a"; mkToken OR "or"; mkToken IDENTIFIER "b";
             mkToken OR "or"; mkToken STRING "z"; mkToken CLOSE_TEMPLATE "}}"] =
  Some (Ok (OrNode (OrNode (VariableNode "a") (VariableNode "b")) (StringNode "z"),
            [mkToken CLOSE_TEMPLATE "}}"])).
Proof.
  pose proof (or_chain_first_truthy newTemplateEngine cacheConsistent_new)
    as (_ & _ & Hparse & _ & Hrender & _).
  split; [exact Hrender|].
  apply (Hparse (mkToken IDENTIFIER "a") [mkToken IDENTIFIER "b"; mkToken STRING "z"] 2
           [mkToken CLOSE_TEMPLATE "}}"]).
  - reflexivity.
  - reflexivity.
  - intros t [= <-]. split; discriminate.
  - simpl. lia.
Defined.
